(** * TranspiladorMCP: the translation pipeline of [backend/server.py]

    A shallow embedding of the VB / VB.NET / C# transpiler backend and the
    properties of its specification.

    Texts are modelled as strings of 8-bit characters, read as the code
    points U+0000 to U+00FF: a Python [str] all of whose code points are
    below 256.  On that range the character classes below are those of
    Python's [str] methods and of its [re] module for [str] patterns;
    texts with code points from 256 on are outside the model. *)

From Stdlib Require Import String Ascii List Bool Arith PeanoNat Lia.
From Stdlib Require Import Decimal DecimalString.
Import ListNotations.
Local Open Scope string_scope.
Local Open Scope nat_scope.
Local Open Scope list_scope.

Set Implicit Arguments.
Set Warnings "-register-all".

(* ================================================================== *)
(** * Characters *)
(* ================================================================== *)

Module Chars.

(** [ord(c)] *)
Definition ord (c : ascii) : nat := nat_of_ascii c.

Definition between (lo hi : nat) (c : ascii) : bool :=
  (lo <=? ord c) && (ord c <=? hi).

(** The ASCII letters and digits. *)
Definition is_ascii_upper (c : ascii) : bool := between 65 90 c.
Definition is_ascii_lower (c : ascii) : bool := between 97 122 c.
Definition is_digit (c : ascii) : bool := between 48 57 c.

(** The capitals below U+0100: [A-Z], and the accented capitals U+00C0 to
    U+00DE but for the multiplication sign U+00D7.  These are the
    characters [str.lower] changes. *)
Definition is_upper (c : ascii) : bool :=
  between 65 90 c || between 192 214 c || between 216 222 c.

(** [str.lower] on one character: a capital moves 32 places up. *)
Definition lower_char (c : ascii) : ascii :=
  if is_upper c then ascii_of_nat (ord c + 32) else c.

(** The class [\w]: the underscore and what [str.isalnum] accepts, that
    is the ASCII letters and digits, the ordinal indicators U+00AA and
    U+00BA, the superscripts U+00B2, U+00B3 and U+00B9, the micro sign
    U+00B5, the fractions U+00BC to U+00BE and the accented letters
    U+00C0 to U+00FF but for the signs U+00D7 and U+00F7. *)
Definition is_word (c : ascii) : bool :=
  is_ascii_upper c || is_ascii_lower c || is_digit c || (ord c =? 95)
  || (ord c =? 170) || between 178 179 c || (ord c =? 181)
  || between 185 186 c || between 188 190 c
  || between 192 214 c || between 216 246 c || between 248 255 c.

(** The class [\s], which is also what [str.strip] removes:
    TAB, LF, VT, FF, CR, the separators FS, GS, RS, US, the space, the
    next-line control U+0085 and the no-break space U+00A0. *)
Definition is_space (c : ascii) : bool :=
  between 9 13 c || between 28 32 c || (ord c =? 133) || (ord c =? 160).

Definition newline : ascii := ascii_of_nat 10.

Definition is_newline (c : ascii) : bool := ord c =? 10.

End Chars.
Import Chars.

(* ================================================================== *)
(** * Python string operations used by the server *)
(* ================================================================== *)

Module Str.

(** [s.lower()] *)
Fixpoint lower (s : string) : string :=
  match s with
  | EmptyString => EmptyString
  | String c s' => String (lower_char c) (lower s')
  end.

(** [s.replace(c, '')] for a one-character [c]. *)
Fixpoint remove_char (x : ascii) (s : string) : string :=
  match s with
  | EmptyString => EmptyString
  | String c s' =>
      if Ascii.eqb c x then remove_char x s' else String c (remove_char x s')
  end.

(** [s[:n]] *)
Definition take (n : nat) (s : string) : string := substring 0 n s.

(** [s.startswith(p)] *)
Definition startswith (p s : string) : bool := prefix p s.

(** [needle in s] *)
Fixpoint contains (needle s : string) : bool :=
  prefix needle s ||
  match s with
  | EmptyString => false
  | String _ s' => contains needle s'
  end.

(** [s.lstrip()] *)
Fixpoint lstrip (s : string) : string :=
  match s with
  | EmptyString => EmptyString
  | String c s' => if is_space c then lstrip s' else s
  end.

Definition rev (s : string) : string :=
  string_of_list_ascii (List.rev (list_ascii_of_string s)).

(** [s.rstrip()] *)
Definition rstrip (s : string) : string := rev (lstrip (rev s)).

(** [s.strip()] *)
Definition strip (s : string) : string := rstrip (lstrip s).

(** [s.endswith(p)] *)
Definition endswith (p s : string) : bool := prefix (rev p) (rev s).

(** [s.split('\n')]: the pieces between line feeds; never empty. *)
Fixpoint split_lines_aux (cur : string) (s : string) : list string :=
  match s with
  | EmptyString => [rev cur]
  | String c s' =>
      if is_newline c then rev cur :: split_lines_aux EmptyString s'
      else split_lines_aux (String c cur) s'
  end.

Definition split_lines (s : string) : list string :=
  split_lines_aux EmptyString s.

(** ['\n'.join(ls)] *)
Fixpoint join_lines (ls : list string) : string :=
  match ls with
  | [] => EmptyString
  | [l] => l
  | l :: rest => l ++ String newline (join_lines rest)
  end%string.

(** [x in xs] for a list of strings. *)
Definition mem (x : string) (xs : list string) : bool :=
  existsb (String.eqb x) xs.

(** [sep.join(ls)] *)
Fixpoint join (sep : string) (ls : list string) : string :=
  match ls with
  | [] => EmptyString
  | [l] => l
  | l :: rest => l ++ sep ++ join sep rest
  end%string.

(** [str.isprintable] on one character: the controls, the soft hyphen
    U+00AD and the no-break space are not printable; the space is. *)
Definition is_printable (c : ascii) : bool :=
  between 32 126 c || (between 161 255 c && negb (ord c =? 173)).

Definition hex_digit (n : nat) : ascii :=
  ascii_of_nat (if n <? 10 then 48 + n else 87 + n).

(** One character inside [repr(s)], between quotes [quote]. *)
Definition repr_char (quote c : ascii) : string :=
  if Ascii.eqb c quote || (ord c =? 92) then String (ascii_of_nat 92) (String c "")
  else if ord c =? 9 then "\t"
  else if ord c =? 10 then "\n"
  else if ord c =? 13 then "\r"
  else if is_printable c then String c ""
  else ("\x" ++ String (hex_digit (ord c / 16))
                   (String (hex_digit (ord c mod 16)) ""))%string.

Fixpoint repr_chars (quote : ascii) (s : string) : string :=
  match s with
  | EmptyString => EmptyString
  | String c s' => (repr_char quote c ++ repr_chars quote s')%string
  end.

(** [repr(s)]: in single quotes, unless the text holds a single quote and
    no double quote. *)
Definition repr (s : string) : string :=
  let single := ascii_of_nat 39 in
  let double := ascii_of_nat 34 in
  let quote :=
    if contains (String single "") s && negb (contains (String double "") s)
    then double else single in
  (String quote (repr_chars quote s) ++ String quote "")%string.

End Str.

(* ================================================================== *)
(** * Regular expressions: the fragment of Python's [re] the rules use *)
(* ================================================================== *)

Module Re.

(** Flags of [re.sub]. *)
Record flags := { ignorecase : bool; multiline : bool; dotall : bool }.

Definition NOFLAGS := {| ignorecase := false; multiline := false; dotall := false |}.
Definition MULTILINE := {| ignorecase := false; multiline := true; dotall := false |}.
Definition IGNORECASE_MULTILINE :=
  {| ignorecase := true; multiline := true; dotall := false |}.
Definition MULTILINE_DOTALL :=
  {| ignorecase := false; multiline := true; dotall := true |}.

(** One-character matchers. *)
Inductive charset :=
| CsChar (c : ascii)          (* a literal character *)
| CsAny                       (* [.] *)
| CsSpace                     (* [\s] *)
| CsWord                      (* [\w] *)
| CsDigit                     (* [\d] *)
| CsUnion (a b : charset).    (* a bracketed class *)

Inductive regex :=
| Eps
| Chr (cs : charset)
| WordB                       (* [\b] *)
| Eol                         (* [$] *)
| Seq (a b : regex)
| Alt (a b : regex)           (* [a|b] *)
| Group (n : nat) (a : regex) (* capturing group number [n] *)
| Star (greedy : bool) (a : regex)
| Look (a : regex).           (* [(?=a)] *)

(** A match in progress: the current position and the spans of the groups
    captured so far (latest first). *)
Record mstate := { pos : nat; groups : list (nat * (nat * nat)) }.

Definition advance (st : mstate) : mstate :=
  {| pos := S (pos st); groups := groups st |}.

Definition set_group (n : nat) (span : nat * nat) (st : mstate) : mstate :=
  {| pos := pos st; groups := (n, span) :: groups st |}.

Fixpoint group_span (n : nat) (gs : list (nat * (nat * nat))) : option (nat * nat) :=
  match gs with
  | [] => None
  | (k, sp) :: rest => if k =? n then Some sp else group_span n rest
  end.

Section Matcher.

Variable fl : flags.
Variable text : list ascii.

Definition word_at (i : nat) : bool :=
  match nth_error text i with
  | Some c => is_word c
  | None => false
  end.

Definition word_before (i : nat) : bool :=
  match i with
  | O => false
  | S j => word_at j
  end.

(** [\b] holds between a word character and a non-word character (or an
    end of the text). *)
Definition boundary (i : nat) : bool := xorb (word_before i) (word_at i).

(** [$]: at the end of the text, before a final line feed, and with
    MULTILINE before every line feed. *)
Definition at_eol (i : nat) : bool :=
  match nth_error text i with
  | None => length text =? i
  | Some c => is_newline c && (multiline fl || (length text =? S i))
  end.

Fixpoint cs_match (cs : charset) (c : ascii) : bool :=
  match cs with
  | CsChar x =>
      if ignorecase fl then Ascii.eqb (lower_char c) (lower_char x)
      else Ascii.eqb c x
  | CsAny => dotall fl || negb (is_newline c)
  | CsSpace => is_space c
  | CsWord => is_word c
  | CsDigit => is_digit c
  | CsUnion a b => cs_match a c || cs_match b c
  end.

(** Zero or more iterations of a sub-pattern with matcher [ma], then the
    continuation [k]: as many as possible first when [greedy], as few as
    possible first otherwise.  An iteration must consume something, so
    [fuel], the number of remaining characters plus one, is never used up. *)
Fixpoint star_loop (greedy : bool)
  (ma : mstate -> (mstate -> option mstate) -> option mstate)
  (k : mstate -> option mstate) (fuel : nat) (st0 : mstate) {struct fuel}
  : option mstate :=
  match fuel with
  | O => k st0
  | S f =>
      if greedy then
        match ma st0 (fun st1 =>
                 if pos st0 <? pos st1 then star_loop greedy ma k f st1
                 else None) with
        | Some x => Some x
        | None => k st0
        end
      else
        match k st0 with
        | Some x => Some x
        | None => ma st0 (fun st1 =>
                    if pos st0 <? pos st1 then star_loop greedy ma k f st1
                    else None)
        end
  end.

(** The backtracking matcher, in continuation-passing style: [m r st k]
    matches [r] from [st] and hands every way of doing so to [k], in
    Python's order of preference, until [k] accepts one. *)
Fixpoint m (r : regex) (st : mstate) (k : mstate -> option mstate)
  {struct r} : option mstate :=
  match r with
  | Eps => k st
  | Chr cs =>
      match nth_error text (pos st) with
      | Some c => if cs_match cs c then k (advance st) else None
      | None => None
      end
  | WordB => if boundary (pos st) then k st else None
  | Eol => if at_eol (pos st) then k st else None
  | Seq a b => m a st (fun st1 => m b st1 k)
  | Alt a b =>
      match m a st k with
      | Some x => Some x
      | None => m b st k
      end
  | Group n a => m a st (fun st1 => k (set_group n (pos st, pos st1) st1))
  | Star greedy a => star_loop greedy (m a) k (S (length text - pos st)) st
  | Look a =>
      match m a st (fun st1 => Some st1) with
      | Some st1 => k {| pos := pos st; groups := groups st1 |}
      | None => None
      end
  end.

(** One attempt at position [i]; after an empty match the next attempt at
    the same position must consume something. *)
Definition match_at (r : regex) (must_advance : bool) (i : nat) : option mstate :=
  m r {| pos := i; groups := [] |}
    (fun st => if must_advance && (pos st =? i) then None else Some st).

(** [search]: the leftmost position from [i] on where the pattern matches. *)
Fixpoint search (r : regex) (must_advance : bool) (i : nat) (fuel : nat)
  : option (nat * mstate) :=
  match fuel with
  | O => None
  | S f =>
      match match_at r must_advance i with
      | Some st => Some (i, st)
      | None => search r false (S i) f
      end
  end.

(** The successive non-overlapping matches, as [re.finditer] and [re.sub]
    scan them: each is a start position and the final match state. *)
Fixpoint finditer_from (r : regex) (fuel : nat) (i : nat) (must_advance : bool)
  : list (nat * mstate) :=
  match fuel with
  | O => []
  | S f =>
      match search r must_advance i (S (length text - i)) with
      | None => []
      | Some (b, st) => (b, st) :: finditer_from r f (pos st) (pos st =? b)
      end
  end.

Definition finditer (r : regex) : list (nat * mstate) :=
  finditer_from r (2 * S (length text)) 0 false.

(** [text[a:b]] *)
Definition slice (a b : nat) : list ascii := firstn (b - a) (skipn a text).

(** Replacement templates: literal characters and group references. *)
Inductive titem :=
| TLit (c : ascii)
| TRef (n : nat).

Definition expand_item (gs : list (nat * (nat * nat))) (t : titem) : list ascii :=
  match t with
  | TLit c => [c]
  | TRef n =>
      match group_span n gs with
      | Some (a, b) => slice a b
      | None => []
      end
  end.

Definition expand (tpl : list titem) (st : mstate) : list ascii :=
  flat_map (expand_item (groups st)) tpl.

(** The text with every match replaced by the expanded template. *)
Fixpoint splice (tpl : list titem) (last : nat) (ms : list (nat * mstate))
  : list ascii :=
  match ms with
  | [] => skipn last text
  | (b, st) :: rest =>
      slice last b ++ expand tpl st ++ splice tpl (pos st) rest
  end.

Definition sub_list (r : regex) (tpl : list titem) : list ascii :=
  splice tpl 0 (finditer r).

End Matcher.

(** ** Reading a pattern

    The concrete syntax of the patterns in the rule tables: literals,
    the escapes [\b \s \w \d \n \t] and escaped punctuation, [.], [$],
    groups [( )], [(?: )], [(?= )], alternation, bracketed classes and the
    quantifiers [+ * +? *?].  Anything else is rejected, as [re.error]. *)

Definition ch (n : nat) : ascii := ascii_of_nat n.
Definition is_ch (n : nat) (c : ascii) : bool := ord c =? n.

(** Characters that cannot stand for themselves in a pattern:
    [( ) * + ? [ ] ^ { | }] and the backslash. *)
Definition is_special (c : ascii) : bool :=
  existsb (fun n => is_ch n c) [40; 41; 42; 43; 63; 91; 93; 94; 123; 124; 125; 92].

Definition is_alnum (c : ascii) : bool :=
  is_ascii_upper c || is_ascii_lower c || is_digit c.

(** The class an escape [\c] denotes, inside or outside brackets. *)
Definition escape_class (c : ascii) : option charset :=
  if is_ch 115 c then Some CsSpace            (* \s *)
  else if is_ch 119 c then Some CsWord        (* \w *)
  else if is_ch 100 c then Some CsDigit       (* \d *)
  else if is_ch 110 c then Some (CsChar newline)  (* \n *)
  else if is_ch 116 c then Some (CsChar (ch 9))   (* \t *)
  else if is_alnum c then None
  else Some (CsChar c).

(** The items of a bracketed class, up to the closing bracket. *)
Fixpoint parse_class_items (fuel : nat) (s : list ascii)
  : option (charset * list ascii) :=
  match fuel with
  | O => None
  | S f =>
      match s with
      | [] => None
      | c :: rest =>
          let item :=
            if is_ch 92 c then
              match rest with
              | e :: rest' =>
                  match escape_class e with
                  | Some cs => Some (cs, rest')
                  | None => None
                  end
              | [] => None
              end
            else if is_ch 93 c || is_ch 94 c || is_ch 91 c then None
            else Some (CsChar c, rest) in
          match item with
          | None => None
          | Some (cs, rest1) =>
              match rest1 with
              | d :: rest2 =>
                  if is_ch 93 d then Some (cs, rest2)
                  else
                    match parse_class_items f rest1 with
                    | Some (cs', rest3) => Some (CsUnion cs cs', rest3)
                    | None => None
                    end
              | [] => None
              end
          end
      end
  end.

(** A quantifier after an atom. [a+] is [a] followed by [a*]. *)
Definition parse_quant (a : regex) (s : list ascii) : regex * list ascii :=
  match s with
  | q :: rest =>
      if is_ch 43 q then
        match rest with
        | l :: rest' =>
            if is_ch 63 l then (Seq a (Star false a), rest')
            else (Seq a (Star true a), rest)
        | [] => (Seq a (Star true a), rest)
        end
      else if is_ch 42 q then
        match rest with
        | l :: rest' =>
            if is_ch 63 l then (Star false a, rest')
            else (Star true a, rest)
        | [] => (Star true a, rest)
        end
      else (a, s)
  | [] => (a, s)
  end.

Definition parsed := option (regex * list ascii * nat).

(** Expect a closing parenthesis after a parsed group body. *)
Definition close_paren (wrap : regex -> regex) (p : parsed) : parsed :=
  match p with
  | Some (a, c :: rest, g) =>
      if is_ch 41 c then Some (wrap a, rest, g) else None
  | _ => None
  end.

Fixpoint parse_alt (fuel : nat) (s : list ascii) (g : nat) {struct fuel} : parsed :=
  match fuel with
  | O => None
  | S f =>
      match parse_seq f s g with
      | Some (a, c :: rest, g1) =>
          if is_ch 124 c then
            match parse_alt f rest g1 with
            | Some (b, rest2, g2) => Some (Alt a b, rest2, g2)
            | None => None
            end
          else Some (a, c :: rest, g1)
      | other => other
      end
  end

with parse_seq (fuel : nat) (s : list ascii) (g : nat) {struct fuel} : parsed :=
  match fuel with
  | O => None
  | S f =>
      match s with
      | [] => Some (Eps, [], g)
      | c :: _ =>
          if is_ch 124 c || is_ch 41 c then Some (Eps, s, g)
          else
            match parse_atom f s g with
            | Some (a, rest, g1) =>
                let (a', rest') := parse_quant a rest in
                match parse_seq f rest' g1 with
                | Some (b, rest2, g2) => Some (Seq a' b, rest2, g2)
                | None => None
                end
            | None => None
            end
      end
  end

with parse_atom (fuel : nat) (s : list ascii) (g : nat) {struct fuel} : parsed :=
  match fuel with
  | O => None
  | S f =>
      match s with
      | [] => None
      | c :: rest =>
          if is_ch 40 c then                              (* ( *)
            match rest with
            | q :: rest1 =>
                if is_ch 63 q then                        (* (? *)
                  match rest1 with
                  | k :: rest2 =>
                      if is_ch 58 k then                  (* (?: *)
                        close_paren (fun a => a) (parse_alt f rest2 g)
                      else if is_ch 61 k then             (* (?= *)
                        close_paren Look (parse_alt f rest2 g)
                      else None
                  | [] => None
                  end
                else close_paren (Group g) (parse_alt f rest (S g))
            | [] => None
            end
          else if is_ch 91 c then                         (* [ *)
            match parse_class_items (length rest) rest with
            | Some (cs, rest1) => Some (Chr cs, rest1, g)
            | None => None
            end
          else if is_ch 92 c then                         (* \ *)
            match rest with
            | e :: rest1 =>
                if is_ch 98 e then Some (WordB, rest1, g)
                else
                  match escape_class e with
                  | Some cs => Some (Chr cs, rest1, g)
                  | None => None
                  end
            | [] => None
            end
          else if is_ch 46 c then Some (Chr CsAny, rest, g)   (* . *)
          else if is_ch 36 c then Some (Eol, rest, g)         (* $ *)
          else if is_special c then None
          else Some (Chr (CsChar c), rest, g)
      end
  end.

(** [re.compile]: the pattern and its number of groups. *)
Definition compile (pattern : string) : option (regex * nat) :=
  let s := list_ascii_of_string pattern in
  match parse_alt (3 * length s + 3) s 1 with
  | Some (r, [], g) => Some (r, g - 1)
  | _ => None
  end.

(** A replacement template: [\1] .. [\9] refer to groups, [\n] is a line
    feed, every other character stands for itself; other escapes are
    rejected. *)
Fixpoint parse_template (s : list ascii) : option (list titem) :=
  match s with
  | [] => Some []
  | c :: rest =>
      if is_ch 92 c then
        match rest with
        | d :: rest' =>
            if between 49 57 d then
              match rest' with
              | e :: _ => if is_digit e then None else
                            option_map (cons (TRef (ord d - 48))) (parse_template rest')
              | [] => Some [TRef (ord d - 48)]
              end
            else if is_ch 110 d then
              option_map (cons (TLit newline)) (parse_template rest')
            else None
        | [] => None
        end
      else option_map (cons (TLit c)) (parse_template rest)
  end.

Definition max_ref (tpl : list titem) : nat :=
  fold_right (fun t acc => match t with TRef n => Nat.max n acc | TLit _ => acc end) 0 tpl.

(** [re.sub(pattern, repl, text, flags=fl)]; [None] stands for [re.error]
    (a pattern or template outside the fragment, or a reference to a
    group the pattern does not have). *)
Definition sub (pattern repl : string) (text : string) (fl : flags) : option string :=
  match compile pattern, parse_template (list_ascii_of_string repl) with
  | Some (r, n), Some tpl =>
      if max_ref tpl <=? n then
        Some (string_of_list_ascii (sub_list fl (list_ascii_of_string text) r tpl))
      else None
  | _, _ => None
  end.

End Re.

(* ================================================================== *)
(** * The rewrite rule engine *)
(* ================================================================== *)

Definition rule := (string * string)%type.

(** [for pattern, replacement in rules: result = re.sub(...)] *)
Fixpoint apply_rules (rules : list rule) (fl : Re.flags) (result : string)
  : option string :=
  match rules with
  | [] => Some result
  | (pattern, replacement) :: rest =>
      match Re.sub pattern replacement result fl with
      | Some result' => apply_rules rest fl result'
      | None => None
      end
  end.

(** The [replacements] table of [transpile_vb_to_vbnet]. *)
Definition vb_to_vbnet_replacements : list rule :=
  [ ("\bDim\s+(\w+)\s+As\s+Integer\b", "Dim \1 As Integer");
    ("\bDim\s+(\w+)\s+As\s+String\b", "Dim \1 As String");
    ("\bSub\s+Main\(\)", "Sub Main()");
    ("\bEnd Sub\b", "End Sub");
    ("\bEnd Function\b", "End Function");
    ("\bPublic Sub\b", "Public Sub");
    ("\bPrivate Sub\b", "Private Sub") ].

Definition transpile_vb_to_vbnet (code : string) : option string :=
  apply_rules vb_to_vbnet_replacements Re.NOFLAGS code.

(** The [conversions] table of [transpile_vbnet_to_csharp]. *)
Definition vbnet_to_csharp_conversions : list rule :=
  [ ("'", "//");
    ("\bPublic Class (\w+)", "public class \1 {");
    ("\bPrivate Class (\w+)", "private class \1 {");
    ("\bClass (\w+)", "class \1 {");
    ("\bEnd Class\b", "}");
    ("\bPublic Sub (\w+)\(\)", "public void \1() {");
    ("\bPrivate Sub (\w+)\(\)", "private void \1() {");
    ("\bPublic Function (\w+)\(\) As (\w+)", "public \2 \1() {");
    ("\bPrivate Function (\w+)\(\) As (\w+)", "private \2 \1() {");
    ("\bEnd Sub\b", "}");
    ("\bEnd Function\b", "}");
    ("\bPublic Property (\w+)\(\) As (\w+)", "public \2 \1 { get; set; }");
    ("\bPrivate Property (\w+)\(\) As (\w+)", "private \2 \1 { get; set; }");
    ("\bDim (\w+) As Integer\b", "int \1;");
    ("\bDim (\w+) As String\b", "string \1;");
    ("\bDim (\w+) As Boolean\b", "bool \1;");
    ("\bDim (\w+) As Double\b", "double \1;");
    ("\bIf (.+) Then", "if (\1) {");
    ("\bEnd If\b", "}");
    ("\bElseIf", "} else if");
    ("\bElse\b", "} else {");
    ("\bFor Each (\w+) As (\w+) In (.+)", "foreach (\2 \1 in \3) {");
    ("\bFor (\w+) As Integer = (.+) To (.+)", "for (int \1 = \2; \1 <= \3; \1++) {");
    ("\bNext\b", "}");
    ("\s+&\s+", " + ");
    ("\bAndAlso\b", "&&");
    ("\bOrElse\b", "||");
    ("\bNot\b", "!") ].

Definition transpile_vbnet_to_csharp (code : string) : option string :=
  apply_rules vbnet_to_csharp_conversions Re.IGNORECASE_MULTILINE code.

(** The [conversions] table of [transpile_csharp_to_vbnet]. *)
Definition csharp_to_vbnet_conversions : list rule :=
  [ ("//", "'");
    (";", "");
    ("public class (\w+)\s*\{", "Public Class \1");
    ("private class (\w+)\s*\{", "Private Class \1");
    ("public void (\w+)\(\)\s*\{", "Public Sub \1()");
    ("private void (\w+)\(\)\s*\{", "Private Sub \1()");
    ("public (\w+) (\w+)\(\)\s*\{", "Public Function \2() As \1");
    ("private (\w+) (\w+)\(\)\s*\{", "Private Function \2() As \1");
    ("public (\w+) (\w+) \{ get; set; \}", "Public Property \2() As \1");
    ("int (\w+)", "Dim \1 As Integer");
    ("string (\w+)", "Dim \1 As String");
    ("bool (\w+)", "Dim \1 As Boolean");
    ("double (\w+)", "Dim \1 As Double");
    ("if \((.+?)\)\s*\{", "If \1 Then");
    ("else if", "ElseIf");
    ("else\s*\{", "Else");
    ("\}", "") ].

(** The line pass of [transpile_csharp_to_vbnet]: every line is kept, and
    the construct it opens, if any, is pushed on [indent_stack]. *)
Definition line_pass_step (st : list string * list string) (line : string)
  : list string * list string :=
  let (new_lines, indent_stack) := st in
  let stripped := Str.strip line in
  if Str.startswith "Public Class" stripped
     || Str.startswith "Private Class" stripped
     || Str.startswith "Class " stripped
  then (new_lines ++ [line], indent_stack ++ ["Class"])
  else if Str.startswith "Public Sub" stripped
          || Str.startswith "Private Sub" stripped
  then (new_lines ++ [line], indent_stack ++ ["Sub"])
  else if Str.startswith "Public Function" stripped
          || Str.startswith "Private Function" stripped
  then (new_lines ++ [line], indent_stack ++ ["Function"])
  else if Str.startswith "If " stripped && Str.endswith " Then" stripped
  then (new_lines ++ [line], indent_stack ++ ["If"])
  else (new_lines ++ [line], indent_stack).

Definition line_pass (lines : list string) : list string * list string :=
  fold_left line_pass_step lines ([], []).

Definition transpile_csharp_to_vbnet (code : string) : option string :=
  match apply_rules csharp_to_vbnet_conversions Re.MULTILINE code with
  | None => None
  | Some result =>
      match Re.sub "(Public|Private) Class" "\1 Class" result Re.NOFLAGS with
      | None => None
      | Some result =>
          let lines := Str.split_lines result in
          let new_lines := fst (line_pass lines) in
          let result := Str.join_lines new_lines in
          Re.sub "(Public|Private) Class ([\w\s]+?)(?=\n(?:Public|Private|End|$))"
                 "\1 Class \2\nEnd Class" result Re.MULTILINE_DOTALL
      end
  end.

(** Dialect tags are case-folded and stripped of spaces and periods. *)
Definition normalize (lang : string) : string :=
  Str.remove_char "." (Str.remove_char " " (Str.lower lang)).

Definition not_supported (source_lang target_lang : string) : string :=
  ("Conversion from " ++ source_lang ++ " to " ++ target_lang ++ " not supported")%string.

Definition warn_vb_vbnet : string :=
  "Manual review recommended: Some VB6 features may not be directly compatible with VB.NET".
Definition warn_vbnet_csharp : string :=
  "Converted VB.NET to C#. Review Option Strict and type conversions.".
Definition warn_csharp_vbnet : string :=
  "Converted C# to VB.NET. Review semicolons and brackets.".
Definition warn_two_step : string :=
  "Two-step conversion (VB -> VB.NET -> C#). Extensive testing required.".

(** [transpile_rule_based]: the text, the warnings and the errors; [None]
    when a [re.sub] raises. *)
Definition transpile_rule_based (code source_lang target_lang : string)
  : option (string * list string * list string) :=
  let source := normalize source_lang in
  let target := normalize target_lang in
  if String.eqb source "vb" && String.eqb target "vbnet" then
    match transpile_vb_to_vbnet code with
    | Some transpiled => Some (transpiled, [warn_vb_vbnet], [])
    | None => None
    end
  else if String.eqb source "vbnet" && Str.mem target ["csharp"; "c#"] then
    match transpile_vbnet_to_csharp code with
    | Some transpiled => Some (transpiled, [warn_vbnet_csharp], [])
    | None => None
    end
  else if Str.mem source ["csharp"; "c#"] && String.eqb target "vbnet" then
    match transpile_csharp_to_vbnet code with
    | Some transpiled => Some (transpiled, [warn_csharp_vbnet], [])
    | None => None
    end
  else if String.eqb source "vb" && Str.mem target ["csharp"; "c#"] then
    match transpile_vb_to_vbnet code with
    | Some vbnet_code =>
        match transpile_vbnet_to_csharp vbnet_code with
        | Some transpiled => Some (transpiled, [warn_two_step], [])
        | None => None
        end
    | None => None
    end
  else Some (code, [], [not_supported source_lang target_lang]).

(* ================================================================== *)
(** * Trees *)
(* ================================================================== *)

(** A node of the native tree-sitter parse tree, as far as the server
    reads it: [type], [start_point[0]], [end_point[0]], [text] (decoded,
    [None] when absent) and [children]. *)
Inductive ts_node :=
| TsNode (type : string) (start_row end_row : nat) (text : option string)
         (children : list ts_node).

(** A node dictionary of the generic tree.  Every key may be missing:
    readers go through [dict.get] with a default. *)
Inductive ast_dict :=
| Dict (id : option string) (type : option string)
       (start_line end_line : option nat) (text : option string)
       (children : option (list ast_dict)).

Definition get_type (d : ast_dict) : option string :=
  match d with Dict _ t _ _ _ _ => t end.
Definition get_start_line (d : ast_dict) : option nat :=
  match d with Dict _ _ s _ _ _ => s end.
Definition get_text (d : ast_dict) : option string :=
  match d with Dict _ _ _ _ t _ => t end.
Definition get_children (d : ast_dict) : option (list ast_dict) :=
  match d with Dict _ _ _ _ _ c => c end.

(** [d.get(key, default)] *)
Definition get_or {A : Type} (default : A) (o : option A) : A :=
  match o with
  | Some x => x
  | None => default
  end.

(** [{"type": "max_depth_reached"}] *)
Definition max_depth_reached : ast_dict :=
  Dict None (Some "max_depth_reached") None None None None.

Definition MAX_DEPTH : nat := 50.
Definition MAX_CHILDREN : nat := 20.
Definition TEXT_CAP : nat := 100.

Section Normalizer.

(** [uuid4 n] is [str(uuid.uuid4())] for the [n]-th identifier drawn while
    a request is served. *)
Variable uuid4 : nat -> string.

(** [tree_to_dict(node, max_depth, current_depth)], threading the number
    of identifiers drawn so far.  The inner loop is the list
    comprehension over [node.children[:20]]: it stops after [width]
    children. *)
Fixpoint tree_to_dict (node : ts_node) (max_depth current_depth : nat)
  (drawn : nat) {struct node} : ast_dict * nat :=
  if max_depth <? current_depth then (max_depth_reached, drawn)
  else
    match node with
    | TsNode type start_row end_row text children =>
        let id := Str.take 8 (uuid4 drawn) in
        let text' := match text with
                     | Some t => if String.eqb t "" then "" else Str.take TEXT_CAP t
                     | None => ""
                     end in
        let '(kids, drawn') :=
          if (0 <? length children) && (current_depth <? max_depth) then
            (fix each (width : nat) (cs : list ts_node) (drawn : nat)
               {struct cs} : list ast_dict * nat :=
               match width, cs with
               | S w, child :: rest =>
                   let '(d, drawn1) :=
                     tree_to_dict child max_depth (S current_depth) drawn in
                   let '(ds, drawn2) := each w rest drawn1 in
                   (d :: ds, drawn2)
               | _, _ => ([], drawn)
               end) MAX_CHILDREN children (S drawn)
          else ([], S drawn) in
        (Dict (Some id) (Some type) (Some start_row) (Some end_row)
              (Some text') (Some kids), drawn')
    end.

End Normalizer.

(** ** The semantic summary *)

Record entry := { name : string; line : nat }.

Record semantic := {
  classes : list entry;
  methods : list entry;
  properties : list entry;
  imports : list entry
}.

Definition empty_semantic : semantic :=
  {| classes := []; methods := []; properties := []; imports := [] |}.

Definition append_class (e : entry) (s : semantic) : semantic :=
  {| classes := classes s ++ [e]; methods := methods s;
     properties := properties s; imports := imports s |}.
Definition append_method (e : entry) (s : semantic) : semantic :=
  {| classes := classes s; methods := methods s ++ [e];
     properties := properties s; imports := imports s |}.
Definition append_property (e : entry) (s : semantic) : semantic :=
  {| classes := classes s; methods := methods s;
     properties := properties s ++ [e]; imports := imports s |}.

Definition entry_of (node : ast_dict) : entry :=
  {| name := Str.take 50 (get_or "" (get_text node));
     line := get_or 0 (get_start_line node) |}.

(** The [if / elif / elif] of [traverse] on one node. *)
Definition visit (node : ast_dict) (sem : semantic) : semantic :=
  let node_type := get_or "" (get_type node) in
  if Str.contains "class" (Str.lower node_type) then
    append_class (entry_of node) sem
  else if Str.contains "method" (Str.lower node_type)
          || Str.contains "function" (Str.lower node_type) then
    append_method (entry_of node) sem
  else if Str.contains "property" (Str.lower node_type)
          || Str.contains "field" (Str.lower node_type) then
    append_property (entry_of node) sem
  else sem.

(** [traverse(node)], with the summary it appends to passed along. *)
Fixpoint traverse (node : ast_dict) (sem : semantic) {struct node} : semantic :=
  let sem1 := visit node sem in
  match node with
  | Dict _ _ _ _ _ (Some cs) =>
      (fix each (cs : list ast_dict) (sem : semantic) {struct cs} : semantic :=
         match cs with
         | [] => sem
         | child :: rest => each rest (traverse child sem)
         end) cs sem1
  | Dict _ _ _ _ _ None => sem1
  end.

Definition build_semantic_tree (ast_data : ast_dict) : semantic :=
  traverse ast_data empty_semantic.

(* ================================================================== *)
(** * The operations *)
(* ================================================================== *)

(** ** Requests and responses *)

Record CodeInput := {
  ci_code : string;
  ci_source_lang : string
}.

Record ASTResponse := {
  ast_success : bool;
  ast : option ast_dict;
  semantic_tree : option semantic;
  ast_error : option string
}.

(** A decoded JSON value, as Python holds it: [None], a [bool], an [int]
    ([JNumber]) or a [float] ([JFloat]), each given by the text [str]
    shows for it, a [str], a [list], or a [dict] with its keys in
    insertion order. *)
Inductive json :=
| JNull
| JBool (b : bool)
| JNumber (repr : string)
| JFloat (repr : string)
| JString (s : string)
| JArray (items : list json)
| JObject (fields : list (string * json)).

(** [repr(v)] *)
Fixpoint py_repr (v : json) {struct v} : string :=
  match v with
  | JNull => "None"
  | JBool b => if b then "True" else "False"
  | JNumber repr => repr
  | JFloat repr => repr
  | JString s => Str.repr s
  | JArray items => "[" ++ Str.join ", " (map py_repr items) ++ "]"
  | JObject fields =>
      "{" ++ Str.join ", "
               (map (fun kv => match kv with
                               | (k, x) => Str.repr k ++ ": " ++ py_repr x
                               end) fields)
          ++ "}"
  end%string.

(** [str(v)], which is also how an f-string formats [v]. *)
Definition py_str (v : json) : string :=
  match v with
  | JString s => s
  | _ => py_repr v
  end.

(** [mcp_config] is a dictionary with values of any kind
    ([Dict[str, Any]]); the server reads two of its keys. *)
Definition config := list (string * json).

Fixpoint dict_get {V : Type} (key : string) (d : list (string * V)) : option V :=
  match d with
  | [] => None
  | (k, v) :: rest => if String.eqb k key then Some v else dict_get key rest
  end.

Record TranspileRequest := {
  code : string;
  source_lang : string;
  target_lang : string;
  use_mcp : bool;
  mcp_config : option config
}.

Record TranspileResponse := {
  success : bool;
  transpiled_code : option string;
  warnings : list string;
  errors : list string;
  method : string
}.

Record ValidateRequest := {
  vr_code : string;
  vr_language : string
}.

Record issue := { message : string; issue_line : option nat }.

Record ValidateResponse := {
  valid : bool;
  v_errors : list issue;
  v_warnings : list issue
}.

(** ** The exchange with the external agent *)

(** What [client.post] is called with. *)
Record mcp_call := {
  call_url : option json;
  call_headers : list (string * string);
  call_ast : ast_dict;
  call_source_code : string;
  call_source_language : string;
  call_target_language : string;
  call_task : string
}.

(** How the exchange ends: an exception (endpoint unreachable, transport
    error, timeout, ...), or a response with a status code and a body
    that [response.json()] decodes or rejects. *)
Inductive http_outcome :=
| Raised (what : string)
| Response (status_code : nat) (body : string + json).

(** The dictionary [call_mcp_server] returns. *)
Record mcp_response := {
  mcp_success : bool;
  mcp_transpiled_code : option json;
  mcp_error : option string
}.

(** Exceptions caught at the boundary of [transpile_code]. *)
Inductive exn :=
| ReError
| ValidationError (v : json).

Definition str_of_nat (n : nat) : string := NilZero.string_of_uint (Nat.to_uint n).

(** Python truth value of an optional dictionary: there and not empty. *)
Definition truthy_dict {V : Type} (d : option (list (string * V))) : bool :=
  match d with
  | Some (_ :: _) => true
  | _ => false
  end.

(** Python truth value of what [dict.get] returns: a missing key gives
    [None], and [None], [False], zero and the empty text, list and
    dictionary are false. *)
Definition truthy (v : option json) : bool :=
  match v with
  | None => false
  | Some JNull => false
  | Some (JBool b) => b
  | Some (JNumber repr) => negb (String.eqb repr "0")
  | Some (JFloat repr) => negb (Str.mem repr ["0.0"; "-0.0"])
  | Some (JString s) => negb (String.eqb s "")
  | Some (JArray items) => negb (length items =? 0)
  | Some (JObject fields) => negb (length fields =? 0)
  end.

Definition C_SHARP_TAGS : list string := ["c#"; "csharp"; "c_sharp"].

Section Server.

(** The C# grammar: [None] when it failed to load; the parser itself
    yields [None] when it raises. *)
Variable parser_c_sharp : option (string -> option ts_node).

Variable uuid4 : nat -> string.

(** The network: what the agent's endpoint does with a call. *)
Variable http_post : mcp_call -> http_outcome.

(** [str(e)] for an exception caught at an operation boundary. *)
Variable str_exn : exn -> string.

Definition parse_code_to_ast (code language : string) : option ast_dict :=
  if Str.mem (Str.lower language) C_SHARP_TAGS then
    match parser_c_sharp with
    | None => None
    | Some parse =>
        match parse code with
        | Some root_node => Some (fst (tree_to_dict uuid4 root_node MAX_DEPTH 0 0))
        | None => None
        end
    end
  else None.

(** The placeholder tree of [parse_code]; its child draws one identifier. *)
Definition mock_ast (code : string) : ast_dict :=
  Dict (Some "root") (Some "compilation_unit")
       (Some 0) (Some (length (Str.split_lines code)))
       (Some (Str.take 100 code))
       (Some [ Dict (Some (Str.take 8 (uuid4 0))) (Some "class_declaration")
                    (Some 0) (Some 10) (Some "Parsed structure") (Some []) ]).

Definition parse_code (request : CodeInput) : ASTResponse :=
  let ast_data :=
    match parse_code_to_ast (ci_code request) (ci_source_lang request) with
    | Some d => d
    | None => mock_ast (ci_code request)
    end in
  let semantic_tree := build_semantic_tree ast_data in
  {| ast_success := true; ast := Some ast_data;
     semantic_tree := Some semantic_tree; ast_error := None |}.

Definition mcp_task (source_lang target_lang : string) : string :=
  ("Transpile the provided " ++ source_lang ++ " code to " ++ target_lang
     ++ ". Use the AST context provided.")%string.

Definition mcp_failure (error : string) : mcp_response :=
  {| mcp_success := false; mcp_transpiled_code := None; mcp_error := Some error |}.

(** The text of the [AttributeError] raised by [data.get] on a decoded
    value that is not a dictionary. *)
Definition no_get (v : json) : string :=
  match v with
  | JNull => "'NoneType' object has no attribute 'get'"
  | JBool _ => "'bool' object has no attribute 'get'"
  | JNumber _ => "'int' object has no attribute 'get'"
  | JFloat _ => "'float' object has no attribute 'get'"
  | JString _ => "'str' object has no attribute 'get'"
  | JArray _ => "'list' object has no attribute 'get'"
  | JObject _ => ""
  end.

(** [call_mcp_server]: the call it makes and the dictionary it returns. *)
Definition call_mcp_server (server_url api_key : option json)
  (ast_data : ast_dict) (source_code source_lang target_lang : string)
  : mcp_call * mcp_response :=
  let headers := [("Content-Type", "application/json")] in
  let headers :=
    if truthy api_key
    then headers ++ [("Authorization",
                      ("Bearer " ++ py_str (get_or JNull api_key))%string)]
    else headers in
  let call := {| call_url := server_url; call_headers := headers;
                 call_ast := ast_data; call_source_code := source_code;
                 call_source_language := source_lang;
                 call_target_language := target_lang;
                 call_task := mcp_task source_lang target_lang |} in
  (call,
   match http_post call with
   | Raised what => mcp_failure what
   | Response status_code body =>
       if status_code =? 200 then
         match body with
         | inl what => mcp_failure what
         | inr (JObject data) =>
             {| mcp_success := true;
                mcp_transpiled_code :=
                  Some (get_or (get_or (JString "") (dict_get "transpiled_code" data))
                               (dict_get "result" data));
                mcp_error := None |}
         | inr v => mcp_failure (no_get v)
         end
       else mcp_failure ("MCP server returned " ++ str_of_nat status_code)%string
   end).

Definition error_response (e : exn) : TranspileResponse :=
  {| success := false; transpiled_code := None; warnings := [];
     errors := [str_exn e]; method := "error" |}.

(** The rule-based tail of [transpile_code]. *)
Definition rule_based_response (request : TranspileRequest) : TranspileResponse :=
  match transpile_rule_based (code request) (source_lang request)
                             (target_lang request) with
  | Some (transpiled, warnings, errors) =>
      {| success := (length errors =? 0);
         transpiled_code := Some transpiled;
         warnings := warnings; errors := errors; method := "rule-based" |}
  | None => error_response ReError
  end.

(** [TranspileResponse(success=True, transpiled_code=v, ...)]: the field
    is declared [Optional[str]], so any other value is refused. *)
Definition mcp_ai_response (v : option json) : TranspileResponse :=
  let ok (text : option string) :=
    {| success := true; transpiled_code := text;
       warnings := ["Transpiled using MCP agent"]; errors := [];
       method := "mcp-ai" |} in
  match v with
  | None => ok None
  | Some JNull => ok None
  | Some (JString s) => ok (Some s)
  | Some other => error_response (ValidationError other)
  end.

(** [transpile_code]: the response, and the calls made to the agent. *)
Definition transpile_code (request : TranspileRequest)
  : TranspileResponse * list mcp_call :=
  if use_mcp request && truthy_dict (mcp_config request) then
    match parse_code_to_ast (code request) (source_lang request) with
    | Some ast_data =>
        let cfg := get_or [] (mcp_config request) in
        let '(call, mcp_response) :=
          call_mcp_server (dict_get "server_url" cfg) (dict_get "api_key" cfg)
                          ast_data (code request) (source_lang request)
                          (target_lang request) in
        if mcp_success mcp_response
        then (mcp_ai_response (mcp_transpiled_code mcp_response), [call])
        else (rule_based_response request, [call])
    | None => (rule_based_response request, [])
    end
  else (rule_based_response request, []).

Definition parser_not_available : issue :=
  {| message := "Parser not available for this language. Basic validation only.";
     issue_line := None |}.

Definition code_very_short : issue :=
  {| message := "Code is very short"; issue_line := Some 0 |}.

Definition validate_code (request : ValidateRequest) : ValidateResponse :=
  match parse_code_to_ast (vr_code request) (vr_language request) with
  | None =>
      {| valid := true; v_errors := []; v_warnings := [parser_not_available] |}
  | Some _ =>
      let errors : list issue := [] in
      let warnings : list issue :=
        if String.length (Str.strip (vr_code request)) <? 10
        then [code_very_short] else [] in
      {| valid := (length errors =? 0); v_errors := errors; v_warnings := warnings |}
  end.

End Server.

(** ** The connection test *)

(** The dictionary [test_mcp_connection] returns; [status_code] is absent
    when the request raised. *)
Record connection_report := {
  conn_success : bool;
  conn_status_code : option nat;
  conn_message : string
}.

(** [test_mcp_connection(request)]: one GET to the address in the request,
    with the same headers as the gateway.  [http_get] is the network: it
    raises or answers with a status (the body is not read). *)
Definition test_mcp_connection
  (http_get : option json -> list (string * string) -> http_outcome)
  (request : config) : connection_report :=
  let server_url := dict_get "server_url" request in
  let api_key := dict_get "api_key" request in
  let headers := [("Content-Type", "application/json")] in
  let headers :=
    if truthy api_key
    then headers ++ [("Authorization",
                      ("Bearer " ++ py_str (get_or JNull api_key))%string)]
    else headers in
  match http_get server_url headers with
  | Response status_code _ =>
      let ok := existsb (Nat.eqb status_code) [200; 201] in
      {| conn_success := ok;
         conn_status_code := Some status_code;
         conn_message := if ok then "Connection successful" else "Connection failed" |}
  | Raised what =>
      {| conn_success := false; conn_status_code := None;
         conn_message := ("Error: " ++ what)%string |}
  end.

(* ================================================================== *)
(** * Notions the properties are stated with *)
(* ================================================================== *)

(** ** Dialect pairs, grammars and outcomes *)

(** The four supported combinations, on normalized tags. *)
Definition supported_pair (source_lang target_lang : string) : bool :=
  let source := normalize source_lang in
  let target := normalize target_lang in
  (String.eqb source "vb" && String.eqb target "vbnet")
  || (String.eqb source "vbnet" && Str.mem target ["csharp"; "c#"])
  || (Str.mem source ["csharp"; "c#"] && String.eqb target "vbnet")
  || (String.eqb source "vb" && Str.mem target ["csharp"; "c#"]).

(** A dialect has no grammar when its case-folded tag is none of the
    spellings of C#. *)
Definition no_grammar (language : string) : bool :=
  negb (Str.mem (Str.lower language) C_SHARP_TAGS).

(** The exchanges [call_mcp_server] reports as failed: an exception
    (endpoint unreachable, transport error, timeout), a status other than
    200, or a body that does not decode to a JSON object. *)
Definition exchange_failed (o : http_outcome) : bool :=
  match o with
  | Raised _ => true
  | Response status_code body =>
      negb (status_code =? 200)
      || match body with
         | inr (JObject _) => false
         | _ => true
         end
  end.

(** The translation a reply carries: the value under "result" when that
    key is there, else the value under "transpiled_code", else the empty
    text. *)
Definition translation_field (data : list (string * json)) : json :=
  match dict_get "result" data with
  | Some v => v
  | None =>
      match dict_get "transpiled_code" data with
      | Some v => v
      | None => JString ""
      end
  end.

(** The response to a request whose exchange was taken as the agent's
    answer, by the translation [v] the reply carries: the agent's response
    with that text for a string, without text for null, and the error
    response for any other value, which the response model refuses. *)
Definition agent_outcome (str_exn : exn -> string) (v : json)
  (response : TranspileResponse) : Prop :=
  match v with
  | JString text =>
      response = {| success := true; transpiled_code := Some text;
                    warnings := ["Transpiled using MCP agent"]; errors := [];
                    method := "mcp-ai" |}
  | JNull =>
      response = {| success := true; transpiled_code := None;
                    warnings := ["Transpiled using MCP agent"]; errors := [];
                    method := "mcp-ai" |}
  | other =>
      response = {| success := false; transpiled_code := None; warnings := [];
                    errors := [str_exn (ValidationError other)];
                    method := "error" |}
  end.

(** The credential sent for a key: none for a missing key, null, false,
    zero and the empty text, list and dictionary; otherwise "Bearer " and
    the key as [str] shows it. *)
Definition credential (api_key : option json) : option string :=
  match api_key with
  | Some (JString (String c key)) => Some ("Bearer " ++ String c key)%string
  | Some (JBool true) => Some "Bearer True"
  | Some (JNumber repr) =>
      if String.eqb repr "0" then None else Some ("Bearer " ++ repr)%string
  | Some (JFloat repr) =>
      if String.eqb repr "0.0" || String.eqb repr "-0.0" then None
      else Some ("Bearer " ++ repr)%string
  | Some (JArray (x :: items)) =>
      Some ("Bearer " ++ py_repr (JArray (x :: items)))%string
  | Some (JObject (f :: fields)) =>
      Some ("Bearer " ++ py_repr (JObject (f :: fields)))%string
  | _ => None
  end.

(** What the specification promises for a pair outside the supported
    ones. *)
Definition unsupported_outcome (request : TranspileRequest)
  (response : TranspileResponse) : Prop :=
  success response = false
  /\ (exists msg, errors response = [msg]
                  /\ Str.contains "not supported" msg = true)
  /\ warnings response = []
  /\ transpiled_code response = Some (code request).

(** What the specification promises for the composed path: a method tag
    of its own and the warnings of both hops next to the two-step one. *)
Definition composed_outcome (response : TranspileResponse) : Prop :=
  method response <> "rule-based"
  /\ 2 <= length (warnings response)
  /\ In warn_two_step (warnings response)
  /\ In warn_vb_vbnet (warnings response)
  /\ In warn_vbnet_csharp (warnings response).

(** The input of scenario A: a class line and its closing line. *)
Definition scenario_a : string :=
  Str.join_lines ["Public Class Calculator"; "End Class"].

(** ** Trees *)

(** Induction on native trees, with the hypothesis for every child. *)
Fixpoint ts_node_rect' (P : ts_node -> Prop)
  (step : forall type s e text children,
      Forall P children -> P (TsNode type s e text children))
  (node : ts_node) {struct node} : P node :=
  match node with
  | TsNode type s e text children =>
      step type s e text children
        ((fix all (cs : list ts_node) : Forall P cs :=
            match cs with
            | [] => Forall_nil P
            | c :: rest => Forall_cons c (@ts_node_rect' P step c) (all rest)
            end) children)
  end.

Fixpoint ast_dict_rect' (P : ast_dict -> Prop)
  (leaf : forall id type s e text, P (Dict id type s e text None))
  (step : forall id type s e text children,
      Forall P children -> P (Dict id type s e text (Some children)))
  (node : ast_dict) {struct node} : P node :=
  match node with
  | Dict id type s e text None => leaf id type s e text
  | Dict id type s e text (Some children) =>
      step id type s e text children
        ((fix all (cs : list ast_dict) : Forall P cs :=
            match cs with
            | [] => Forall_nil P
            | c :: rest => Forall_cons c (@ast_dict_rect' P leaf step c) (all rest)
            end) children)
  end.

(** [node.get('children', [])] *)
Definition children_of (node : ast_dict) : list ast_dict :=
  get_or [] (get_children node).

(** Every node of a tree with its depth, the root being at depth [d];
    depth-first, parents before children. *)
Fixpoint nodes_with_depth (d : nat) (node : ast_dict) {struct node}
  : list (nat * ast_dict) :=
  (d, node) ::
  match node with
  | Dict _ _ _ _ _ (Some cs) => flat_map (nodes_with_depth (S d)) cs
  | Dict _ _ _ _ _ None => []
  end.

(** The children loop of [tree_to_dict], on its own. *)
Fixpoint each_child (uuid4 : nat -> string) (max_depth depth : nat)
  (width : nat) (cs : list ts_node) (drawn : nat) : list ast_dict * nat :=
  match width, cs with
  | S w, child :: rest =>
      let '(d, drawn1) := tree_to_dict uuid4 child max_depth depth drawn in
      let '(ds, drawn2) := each_child uuid4 max_depth depth w rest drawn1 in
      (d :: ds, drawn2)
  | _, _ => ([], drawn)
  end.

(** The bound a node of the generic tree must meet. *)
Definition within_caps (max_depth max_children : nat) (p : nat * ast_dict) : Prop :=
  fst p <= max_depth
  /\ length (children_of (snd p)) <= max_children
  /\ (snd p = max_depth_reached -> children_of (snd p) = []).

(** ** The classification of the specification *)

(** The classification rule in the words of the specification: an
    ordered table of keywords, looked up in the case-folded kind tag;
    the first keyword found decides the category. *)
Inductive category := DeclaredType | CallableMember | DataMember.

Definition category_eqb (a b : category) : bool :=
  match a, b with
  | DeclaredType, DeclaredType => true
  | CallableMember, CallableMember => true
  | DataMember, DataMember => true
  | _, _ => false
  end.

Definition category_table : list (string * category) :=
  [ ("class", DeclaredType);
    ("method", CallableMember); ("function", CallableMember);
    ("property", DataMember); ("field", DataMember) ].

Definition classify (kind : string) : option category :=
  option_map snd
    (find (fun row => Str.contains (fst row) (Str.lower kind)) category_table).

Definition kind_of (node : ast_dict) : string := get_or "" (get_type node).

Definition in_category (c : category) (node : ast_dict) : bool :=
  match classify (kind_of node) with
  | Some c' => category_eqb c c'
  | None => false
  end.

(** The nodes of a tree, parents before children, siblings in order. *)
Fixpoint preorder (node : ast_dict) {struct node} : list ast_dict :=
  node ::
  match node with
  | Dict _ _ _ _ _ (Some cs) => flat_map preorder cs
  | Dict _ _ _ _ _ None => []
  end.

(** The entries of one category among a sequence of nodes. *)
Definition members (c : category) (nodes : list ast_dict) : list entry :=
  map entry_of (filter (in_category c) nodes).

Definition summary_of (nodes : list ast_dict) : semantic :=
  {| classes := members DeclaredType nodes;
     methods := members CallableMember nodes;
     properties := members DataMember nodes;
     imports := [] |}.

Definition combine (a b : semantic) : semantic :=
  {| classes := classes a ++ classes b;
     methods := methods a ++ methods b;
     properties := properties a ++ properties b;
     imports := imports a ++ imports b |}.

(** ** Rules, letter case and anchors *)

(** A rule whose pattern and template [re] accepts. *)
Definition rule_ok (r : rule) : bool :=
  match Re.compile (fst r), Re.parse_template (list_ascii_of_string (snd r)) with
  | Some (_, n), Some tpl => Re.max_ref tpl <=? n
  | _, _ => false
  end.

(** Two texts that differ in letter case only. *)
Definition same_fold (t t' : list ascii) : Prop :=
  map lower_char t = map lower_char t'.

(** Position [i] lies strictly inside an identifier of the text: the
    characters on both sides are word characters. *)
Definition inside_word (text : list ascii) (i : nat) : bool :=
  Re.word_before text i && Re.word_at text i.

(** A class none of whose characters is a word character. *)
Definition nonword_only (cs : Re.charset) : bool :=
  match cs with
  | Re.CsChar c => negb (is_word c)
  | Re.CsSpace => true
  | _ => false
  end.

(** The pattern opens with a word boundary or a non-word character. *)
Fixpoint starts_clean (r : Re.regex) : bool :=
  match r with
  | Re.WordB => true
  | Re.Chr cs => nonword_only cs
  | Re.Seq a _ => starts_clean a
  | Re.Group _ a => starts_clean a
  | Re.Alt a b => starts_clean a && starts_clean b
  | _ => false
  end.

(** The pattern closes with a word boundary or a non-word character. *)
Fixpoint ends_clean (r : Re.regex) : bool :=
  match r with
  | Re.WordB => true
  | Re.Chr cs => nonword_only cs
  | Re.Seq a Re.Eps => ends_clean a
  | Re.Seq _ b => ends_clean b
  | Re.Group _ a => ends_clean a
  | Re.Alt a b => ends_clean a && ends_clean b
  | _ => false
  end.

(** Rules whose compiled pattern is anchored. *)
Definition anchored_at_start (rule : rule) : bool :=
  match Re.compile (fst rule) with
  | Some (r, _) => starts_clean r
  | None => false
  end.

Definition anchored_at_both_ends (rule : rule) : bool :=
  match Re.compile (fst rule) with
  | Some (r, _) => starts_clean r && ends_clean r
  | None => false
  end.

(** A greedy run of word characters, or of [.]: it stops only where no
    word character follows. *)
Definition greedy_run (r : Re.regex) : bool :=
  match r with
  | Re.Star true (Re.Chr Re.CsWord) => true
  | Re.Star true (Re.Chr Re.CsAny) => true
  | _ => false
  end.

(** The pattern closes with such a run. *)
Fixpoint ends_greedy (r : Re.regex) : bool :=
  greedy_run r
  || match r with
     | Re.Seq a b =>
         match b with
         | Re.Eps => ends_greedy a
         | _ => ends_greedy b
         end
     | Re.Group _ a => ends_greedy a
     | _ => false
     end.

(** One or more characters none of which is a word character. *)
Definition nonword_run (r : Re.regex) : bool :=
  match r with
  | Re.Seq (Re.Chr cs) (Re.Star _ (Re.Chr cs')) =>
      nonword_only cs && nonword_only cs'
  | _ => false
  end.

(** The pattern closes with such a run. *)
Fixpoint ends_nonword (r : Re.regex) : bool :=
  nonword_run r
  || match r with
     | Re.Seq a b =>
         match b with
         | Re.Eps => ends_nonword a
         | _ => ends_nonword b
         end
     | Re.Group _ a => ends_nonword a
     | _ => false
     end.

(** Rules whose matches cannot end strictly inside an identifier. *)
Definition closed_at_end (rule : rule) : bool :=
  match Re.compile (fst rule) with
  | Some (r, _) => ends_clean r || ends_greedy r || ends_nonword r
  | None => false
  end.

(** A continuation that hands back the state it accepts, and accepts
    every state beyond position [b0]. *)
Definition accepts_after (b0 : nat) (k : Re.mstate -> option Re.mstate) : Prop :=
  (forall st res, k st = Some res -> Re.pos res = Re.pos st)
  /\ (forall st, b0 < Re.pos st -> k st <> None).

(** ** A sample deployment *)

(** A server whose C# grammar is loaded, and two agents: one that cannot
    be reached and one that answers. *)
Definition sample_parser : option (string -> option ts_node) :=
  Some (fun code => Some (TsNode "compilation_unit" 0 0 (Some code) [])).

Definition sample_uuid4 (n : nat) : string :=
  "3f2b8c1e-7a4d-4e0b-9c55-0d6e1a2b3c4d".

Definition unreachable (call : mcp_call) : http_outcome :=
  Raised "All connection attempts failed".

Definition answering (text : string) (call : mcp_call) : http_outcome :=
  Response 200 (inr (JObject [("result", JString text)])).

Definition sample_str_exn (e : exn) : string :=
  match e with
  | ReError => "bad pattern"
  | ValidationError _ => "1 validation error for TranspileResponse"
  end.

Definition sample_config : option config :=
  Some [("server_url", JString "https://test-mcp-server.com/api");
        ("api_key", JString "test-key")].


(** ** Further notions *)

(** [s.count(c)] for a character. *)
Fixpoint count_char (c : ascii) (s : string) : nat :=
  match s with
  | EmptyString => 0
  | String x s' => (if Ascii.eqb c x then 1 else 0) + count_char c s'
  end.

(** [c in s] for a character. *)
Fixpoint has_char (c : ascii) (s : string) : bool :=
  match s with
  | EmptyString => false
  | String x s' => Ascii.eqb c x || has_char c s'
  end.

(** Every character of [s] passes the test. *)
Fixpoint all_chars (test : ascii -> bool) (s : string) : bool :=
  match s with
  | EmptyString => true
  | String x s' => test x && all_chars test s'
  end.

(** The three method tags of a transpile response. *)
Definition METHOD_TAGS : list string := ["rule-based"; "mcp-ai"; "error"].

Definition get_id (d : ast_dict) : option string :=
  match d with Dict i _ _ _ _ _ => i end.
Definition get_end_line (d : ast_dict) : option nat :=
  match d with Dict _ _ _ e _ _ => e end.

(** The text excerpt the normalizer keeps of a native node. *)
Definition excerpt (text : option string) : option string :=
  Some (Str.take TEXT_CAP (get_or "" text)).

(** A native tree cut to [depth] levels below its root and to the first
    [MAX_CHILDREN] children of every node, with the text excerpts. *)
Fixpoint prune (depth : nat) (node : ts_node) {struct depth} : ts_node :=
  match node with
  | TsNode type s e text children =>
      TsNode type s e (excerpt text)
        match depth with
        | O => []
        | S d => map (prune d) (firstn MAX_CHILDREN children)
        end
  end.

(** The native tree a generic tree stands for, identifiers forgotten. *)
Fixpoint ts_of_dict (d : ast_dict) {struct d} : ts_node :=
  match d with
  | Dict _ type s e text children =>
      TsNode (get_or "" type) (get_or 0 s) (get_or 0 e) text
        match children with
        | Some cs => map ts_of_dict cs
        | None => []
        end
  end.

(** A node that carries every key, an identifier of at most 8 characters,
    a text of at most 100, and at most 20 children. *)
Definition well_formed_node (d : ast_dict) : Prop :=
  (exists i, get_id d = Some i /\ String.length i <= 8)
  /\ get_type d <> None
  /\ get_start_line d <> None
  /\ get_end_line d <> None
  /\ (exists t, get_text d = Some t /\ String.length t <= TEXT_CAP)
  /\ (exists cs, get_children d = Some cs /\ length cs <= MAX_CHILDREN).

(** A source of identifiers whose first characters differ, and a small
    native tree. *)
Definition numbered_uuid4 (n : nat) : string :=
  (str_of_nat n ++ "f2b8c1e-7a4d-4e0b-9c55-0d6e1a2b3c4d")%string.

Definition sample_tree : ts_node :=
  TsNode "compilation_unit" 0 2 (Some "class C { int x; }")
    [ TsNode "class_declaration" 0 2 (Some "class C { int x; }")
        [ TsNode "field_declaration" 1 1 (Some "int x;") [] ] ].

(** ** The scan of [re.sub], as a relation *)

(** [scan fl text r i adv ms]: scanning [text] from position [i] for the
    pattern [r] finds exactly the matches [ms], each the leftmost one
    after the previous match; no position in between matches. *)
Inductive scan (fl : Re.flags) (text : list ascii) (r : Re.regex)
  : nat -> bool -> list (nat * Re.mstate) -> Prop :=
| scan_end i adv :
    (forall j, i <= j <= length text ->
               Re.match_at fl text r (adv && (j =? i)) j = None) ->
    scan fl text r i adv []
| scan_match i adv b st ms :
    i <= b <= length text ->
    (forall j, i <= j < b -> Re.match_at fl text r (adv && (j =? i)) j = None) ->
    Re.match_at fl text r (adv && (b =? i)) b = Some st ->
    b <= Re.pos st <= length text ->
    scan fl text r (Re.pos st) (Re.pos st =? b) ms ->
    scan fl text r i adv ((b, st) :: ms).

(** The template writes the character [c]. *)
Definition writes_char (c : ascii) (tpl : list Re.titem) : bool :=
  existsb (fun t => match t with
                    | Re.TLit x => Ascii.eqb x c
                    | Re.TRef _ => false
                    end) tpl.

(** No template of the rules writes [c] (and all of them are well formed). *)
Definition rules_never_write (c : ascii) (rules : list rule) : bool :=
  forallb (fun rule : rule =>
             match Re.parse_template (list_ascii_of_string (snd rule)) with
             | Some tpl => negb (writes_char c tpl)
             | None => false
             end) rules.

(** Every match of [r] consumes the character [c], spelled exactly so. *)
Fixpoint requires_char (c : ascii) (r : Re.regex) : bool :=
  match r with
  | Re.Chr (Re.CsChar x) => Ascii.eqb x c
  | Re.Seq a b => requires_char c a || requires_char c b
  | Re.Group _ a => requires_char c a
  | Re.Alt a b => requires_char c a && requires_char c b
  | _ => false
  end.

(** ** What a match consumes *)

(** Zero or more steps of [R], each moving on in the text. *)
Inductive star_rel (R : Re.mstate -> Re.mstate -> Prop)
  : Re.mstate -> Re.mstate -> Prop :=
| star_stop st : star_rel R st st
| star_more st mid st' :
    R st mid -> Re.pos st < Re.pos mid -> star_rel R mid st' -> star_rel R st st'.

(** [spans fl text r st st']: the pattern [r] can match [text] from the
    state [st] to the state [st']. *)
Fixpoint spans (fl : Re.flags) (text : list ascii) (r : Re.regex)
  (st st' : Re.mstate) {struct r} : Prop :=
  match r with
  | Re.Eps => st' = st
  | Re.Chr cs =>
      exists c, nth_error text (Re.pos st) = Some c
                /\ Re.cs_match fl cs c = true /\ st' = Re.advance st
  | Re.WordB => Re.boundary text (Re.pos st) = true /\ st' = st
  | Re.Eol => Re.at_eol fl text (Re.pos st) = true /\ st' = st
  | Re.Seq a b => exists mid, spans fl text a st mid /\ spans fl text b mid st'
  | Re.Alt a b => spans fl text a st st' \/ spans fl text b st st'
  | Re.Group n a =>
      exists st1, spans fl text a st st1
                  /\ st' = Re.set_group n (Re.pos st, Re.pos st1) st1
  | Re.Star _ a => star_rel (spans fl text a) st st'
  | Re.Look a =>
      exists st1, spans fl text a st st1
                  /\ st' = {| Re.pos := Re.pos st; Re.groups := Re.groups st1 |}
  end.

(** The numbers of the groups of a pattern. *)
Fixpoint gnums (r : Re.regex) : list nat :=
  match r with
  | Re.Seq a b | Re.Alt a b => gnums a ++ gnums b
  | Re.Group n a => n :: gnums a
  | Re.Star _ a | Re.Look a => gnums a
  | _ => []
  end.

(** The 256 characters. *)
Definition all_ascii : list ascii := map ascii_of_nat (seq 0 256).

(** Every character the class matches fails the test [keep]. *)
(** Every match of the rule's pattern holds a character that passes
    [test]. *)
Definition rule_needs (test : ascii -> bool) (rule : rule) : bool :=
  match Re.compile (fst rule) with
  | Some (r, _) => existsb (fun c => test c && requires_char c r) all_ascii
  | None => false
  end.

Definition drops (fl : Re.flags) (keep : ascii -> bool) (cs : Re.charset) : bool :=
  forallb (fun c => negb (Re.cs_match fl cs c && keep c)) all_ascii.

Definition titem_eqb (a b : Re.titem) : bool :=
  match a, b with
  | Re.TLit x, Re.TLit y => Ascii.eqb x y
  | Re.TRef n, Re.TRef k => n =? k
  | _, _ => false
  end.

Fixpoint titems_eqb (a b : list Re.titem) : bool :=
  match a, b with
  | [], [] => true
  | x :: a', y :: b' => titem_eqb x y && titems_eqb a' b'
  | _, _ => false
  end.

(** A template without the literals that fail the test. *)
Definition kept_items (keep : ascii -> bool) (tpl : list Re.titem) : list Re.titem :=
  filter (fun t => match t with
                   | Re.TLit c => keep c
                   | Re.TRef _ => true
                   end) tpl.

(** The text a match of [r] consumes, as a template, once the characters
    failing [keep] are left out: literals stand for themselves, a group
    for what it captured, white space and the like for nothing.  [None]
    when the pattern is not of that plain shape or two of its parts share
    a group number. *)
Fixpoint image (fl : Re.flags) (keep : ascii -> bool) (r : Re.regex)
  : option (list Re.titem) :=
  match r with
  | Re.Eps | Re.WordB | Re.Eol => Some []
  | Re.Chr cs =>
      if drops fl keep cs then Some []
      else match cs with
           | Re.CsChar x =>
               if negb (Re.ignorecase fl) && keep x then Some [Re.TLit x] else None
           | _ => None
           end
  | Re.Seq a b =>
      match image fl keep a, image fl keep b with
      | Some ta, Some tb =>
          if forallb (fun n => negb (existsb (Nat.eqb n) (gnums b))) (gnums a)
          then Some (ta ++ tb) else None
      | _, _ => None
      end
  | Re.Group n a =>
      if existsb (Nat.eqb n) (gnums a) then None else Some [Re.TRef n]
  | Re.Star _ a =>
      match image fl keep a with
      | Some [] => Some []
      | _ => None
      end
  | Re.Alt _ _ | Re.Look _ => None
  end.

(** Under the rule, what a match consumes and what replaces it agree on
    the characters that pass [keep]. *)
Definition rule_keeps (fl : Re.flags) (keep : ascii -> bool) (rule : rule) : bool :=
  match Re.compile (fst rule), Re.parse_template (list_ascii_of_string (snd rule)) with
  | Some (r, n), Some tpl =>
      (Re.max_ref tpl <=? n)
      && match image fl keep r with
         | Some tr => titems_eqb (kept_items keep tpl) tr
         | None => false
         end
  | _, _ => false
  end.

(** [s] without the characters that fail the test. *)
Fixpoint keep_chars (keep : ascii -> bool) (s : string) : string :=
  match s with
  | EmptyString => EmptyString
  | String c s' => if keep c then String c (keep_chars keep s') else keep_chars keep s'
  end.

(** The pattern a single literal character compiles to. *)
Definition single_char (c : ascii) : Re.regex :=
  Re.Seq (Re.Chr (Re.CsChar c)) Re.Eps.

Definition not_space (c : ascii) : bool := negb (is_space c).
Definition any_char (c : ascii) : bool := true.

(* ================================================================== *)
(** * Properties of the string operations *)
(* ================================================================== *)

Lemma contains_append_r needle a b :
  Str.contains needle b = true -> Str.contains needle (a ++ b)%string = true.
Proof.
  intros H. induction a as [|c a IH]; simpl; [exact H|].
  rewrite IH. apply orb_true_r.
Qed.

Lemma not_supported_message source target :
  Str.contains "not supported" (not_supported source target) = true.
Proof.
  unfold not_supported.
  do 4 apply contains_append_r.
  reflexivity.
Qed.

Lemma mem_true_iff x xs : Str.mem x xs = true <-> In x xs.
Proof.
  unfold Str.mem. rewrite existsb_exists. split.
  - intros (y & Hy & E). apply String.eqb_eq in E. subst. exact Hy.
  - intros H. exists x. split; [exact H | apply String.eqb_refl].
Qed.

(* ================================================================== *)
(** * The dialect pairs *)
(* ================================================================== *)

Lemma same_tag_unsupported source_lang target_lang :
  normalize source_lang = normalize target_lang ->
  supported_pair source_lang target_lang = false.
Proof.
  intros E. unfold supported_pair. cbv zeta. rewrite E.
  unfold Str.mem. simpl.
  destruct (String.eqb_spec (normalize target_lang) "vb") as [->|];
  destruct (String.eqb_spec (normalize target_lang) "vbnet") as [H|];
  destruct (String.eqb_spec (normalize target_lang) "csharp") as [H1|];
  destruct (String.eqb_spec (normalize target_lang) "c#") as [H2|];
  try reflexivity; try discriminate; congruence.
Qed.

(** Outside the four combinations the rule engine echoes the text back
    with one error and no warning. *)
Lemma transpile_rule_based_unsupported code source_lang target_lang :
  supported_pair source_lang target_lang = false ->
  transpile_rule_based code source_lang target_lang
  = Some (code, [], [not_supported source_lang target_lang]).
Proof.
  unfold supported_pair, transpile_rule_based. cbv zeta.
  intros H.
  apply orb_false_iff in H as [H H4].
  apply orb_false_iff in H as [H H3].
  apply orb_false_iff in H as [H1 H2].
  rewrite H1, H2, H3, H4. reflexivity.
Qed.

(** A tag that normalizes to a Visual Basic dialect is not one of the
    C# spellings the parser adapter knows. *)
Lemma vb_has_no_grammar lang :
  In (normalize lang) ["vb"; "vbnet"] ->
  Str.mem (Str.lower lang) C_SHARP_TAGS = false.
Proof.
  intros H.
  destruct (Str.mem (Str.lower lang) C_SHARP_TAGS) eqn:E; [|reflexivity].
  exfalso. apply mem_true_iff in E. unfold normalize in H.
  simpl in E. destruct E as [E|[E|[E|[]]]]; rewrite <- E in H;
    simpl in H; intuition discriminate.
Qed.

(* ================================================================== *)
(** * The rule tables are well formed: no [re.sub] raises *)
(* ================================================================== *)

Lemma sub_total pattern replacement :
  rule_ok (pattern, replacement) = true ->
  forall text fl, exists out, Re.sub pattern replacement text fl = Some out.
Proof.
  unfold rule_ok, Re.sub. simpl fst; simpl snd.
  destruct (Re.compile pattern) as [[r n]|]; [|discriminate].
  destruct (Re.parse_template _) as [tpl|]; [|discriminate].
  intros ->. eauto.
Qed.

Lemma apply_rules_total rules fl :
  forallb rule_ok rules = true ->
  forall text, exists out, apply_rules rules fl text = Some out.
Proof.
  induction rules as [|[p r] rules IH]; simpl; intros H text.
  - eauto.
  - apply andb_true_iff in H as [H1 H2].
    destruct (sub_total _ _ H1 text fl) as [out ->].
    apply IH, H2.
Qed.

Lemma transpile_vb_to_vbnet_total code :
  exists out, transpile_vb_to_vbnet code = Some out.
Proof. apply apply_rules_total. vm_compute. reflexivity. Qed.

Lemma transpile_vbnet_to_csharp_total code :
  exists out, transpile_vbnet_to_csharp code = Some out.
Proof. apply apply_rules_total. vm_compute. reflexivity. Qed.

(** The line pass of the C#-to-VB.NET direction keeps every line: the
    stack it builds is not used. *)
Lemma line_pass_keeps_lines lines : fst (line_pass lines) = lines.
Proof.
  unfold line_pass.
  assert (G : forall ls acc stack,
             fst (fold_left line_pass_step ls (acc, stack)) = acc ++ ls).
  { induction ls as [|l ls IH]; intros acc stack; simpl.
    - symmetry. apply app_nil_r.
    - repeat match goal with
             | |- context [if ?b then _ else _] => destruct b
             end; rewrite IH, <- app_assoc; reflexivity. }
  apply (G lines [] []).
Qed.

Lemma transpile_csharp_to_vbnet_total code :
  exists out, transpile_csharp_to_vbnet code = Some out.
Proof.
  unfold transpile_csharp_to_vbnet.
  destruct (apply_rules_total csharp_to_vbnet_conversions Re.MULTILINE)
    with (text := code) as [r1 ->]; [vm_compute; reflexivity|].
  destruct (@sub_total "(Public|Private) Class" "\1 Class")
    with (text := r1) (fl := Re.NOFLAGS) as [r2 ->]; [vm_compute; reflexivity|].
  apply sub_total. vm_compute. reflexivity.
Qed.

Lemma transpile_rule_based_total code source_lang target_lang :
  exists transpiled warnings errors,
    transpile_rule_based code source_lang target_lang
    = Some (transpiled, warnings, errors).
Proof.
  unfold transpile_rule_based. cbv zeta.
  destruct (transpile_vb_to_vbnet_total code) as [o1 E1].
  destruct (transpile_vbnet_to_csharp_total code) as [o2 E2].
  destruct (transpile_csharp_to_vbnet_total code) as [o3 E3].
  destruct (transpile_vbnet_to_csharp_total o1) as [o4 E4].
  rewrite E1, E2, E3, E4.
  repeat match goal with
         | |- context [if ?b then _ else _] => destruct b
         end; eauto.
Qed.

Lemma rule_based_method str_exn request :
  method (rule_based_response str_exn request) = "rule-based".
Proof.
  unfold rule_based_response.
  destruct (transpile_rule_based_total (code request) (source_lang request)
              (target_lang request)) as (t & w & e & ->).
  reflexivity.
Qed.

(* ================================================================== *)
(** * The tree normalizer is bounded *)
(* ================================================================== *)

Lemma tree_to_dict_unfold uuid4 type s e text children max_depth current_depth drawn :
  tree_to_dict uuid4 (TsNode type s e text children) max_depth current_depth drawn
  = if max_depth <? current_depth then (max_depth_reached, drawn)
    else
      let '(kids, drawn') :=
        if (0 <? length children) && (current_depth <? max_depth)
        then each_child uuid4 max_depth (S current_depth) MAX_CHILDREN children (S drawn)
        else ([], S drawn) in
      (Dict (Some (Str.take 8 (uuid4 drawn))) (Some type) (Some s) (Some e)
            (Some match text with
                  | Some t => if String.eqb t "" then "" else Str.take TEXT_CAP t
                  | None => ""
                  end)
            (Some kids), drawn').
Proof.
  simpl. destruct (max_depth <? current_depth); [reflexivity|].
  destruct ((0 <? length children) && (current_depth <? max_depth)); [|reflexivity].
  assert (E : forall w cs n,
    (fix each (width : nat) (cs : list ts_node) (drawn : nat) {struct cs}
       : list ast_dict * nat :=
       match width, cs with
       | S w, child :: rest =>
           let '(d, drawn1) :=
             tree_to_dict uuid4 child max_depth (S current_depth) drawn in
           let '(ds, drawn2) := each w rest drawn1 in
           (d :: ds, drawn2)
       | _, _ => ([], drawn)
       end) w cs n
    = each_child uuid4 max_depth (S current_depth) w cs n).
  { intros w cs. revert w. induction cs as [|c cs IH]; intros [|w] n; simpl; try reflexivity.
    destruct (tree_to_dict uuid4 c max_depth (S current_depth) n) as [d n1].
    rewrite IH. reflexivity. }
  rewrite E. reflexivity.
Qed.

(** The children loop is the comprehension over [children[:20]]. *)
Lemma each_child_length uuid4 max_depth depth width cs drawn :
  length (fst (each_child uuid4 max_depth depth width cs drawn))
  = length (firstn width cs).
Proof.
  revert width drawn. induction cs as [|c cs IH]; intros [|w] n; simpl; try reflexivity.
  destruct (tree_to_dict uuid4 c max_depth depth n) as [d n1].
  specialize (IH w n1).
  destruct (each_child uuid4 max_depth depth w cs n1) as [ds n2].
  simpl in *. congruence.
Qed.

Lemma tree_to_dict_bounded uuid4 max_depth node :
  forall current_depth drawn,
    current_depth <= max_depth ->
    Forall (within_caps max_depth MAX_CHILDREN)
      (nodes_with_depth current_depth
         (fst (tree_to_dict uuid4 node max_depth current_depth drawn))).
Proof.
  induction node as [type s e text children IH] using ts_node_rect'.
  intros cd drawn Hcd.
  rewrite tree_to_dict_unfold.
  destruct (Nat.ltb_spec max_depth cd) as [Hlt|_]; [lia|].
  destruct ((0 <? length children) && (cd <? max_depth)) eqn:Hgo.
  - apply andb_true_iff in Hgo as [_ Hdeep]. apply Nat.ltb_lt in Hdeep.
    pose proof (each_child_length uuid4 max_depth (S cd) MAX_CHILDREN children (S drawn)) as Hlen.
    rewrite length_firstn in Hlen.
    assert (Hkids : forall w n,
      Forall (fun d => Forall (within_caps max_depth MAX_CHILDREN)
                         (nodes_with_depth (S cd) d))
             (fst (each_child uuid4 max_depth (S cd) w children n))).
    { clear Hlen. induction IH as [|c cs Hc _ IHcs]; intros [|w] n; simpl;
        try constructor.
      specialize (Hc (S cd) n ltac:(lia)).
      destruct (tree_to_dict uuid4 c max_depth (S cd) n) as [d n1].
      specialize (IHcs w n1).
      destruct (each_child uuid4 max_depth (S cd) w cs n1) as [ds n2].
      simpl in *. constructor; assumption. }
    specialize (Hkids MAX_CHILDREN (S drawn)).
    destruct (each_child uuid4 max_depth (S cd) MAX_CHILDREN children (S drawn))
      as [kids drawn'].
    cbn [fst snd] in *. simpl. constructor.
    + split; [|split]; simpl; [lia| |discriminate].
      unfold children_of. simpl. rewrite Hlen. apply Nat.le_min_l.
    + clear Hlen. induction Hkids as [|k ks Hk _ IHks]; simpl; [constructor|].
      apply Forall_app. split; assumption.
  - simpl. constructor; [|constructor].
    split; [|split]; simpl; [lia| unfold MAX_CHILDREN; lia |discriminate].
Qed.

(** C4. For every native tree (and whatever identifiers are drawn), each
    node of the Tree Normalizer's output lies at depth at most 50, the
    root being at depth 0, has at most 20 children, and a node that is
    the depth-cap sentinel has no children. *)
Theorem tree_to_dict_within_caps :
  forall (uuid4 : nat -> string) (node : ts_node) (drawn : nat),
    Forall (fun p : nat * ast_dict =>
              fst p <= 50
              /\ length (children_of (snd p)) <= 20
              /\ (snd p = max_depth_reached -> children_of (snd p) = []))
      (nodes_with_depth 0 (fst (tree_to_dict uuid4 node MAX_DEPTH 0 drawn))).
Proof.
  intros uuid4 node drawn.
  apply (tree_to_dict_bounded uuid4 (max_depth := MAX_DEPTH) node (current_depth := 0) drawn).
  unfold MAX_DEPTH. lia.
Qed.

(* ================================================================== *)
(** * The semantic summarizer *)
(* ================================================================== *)

Lemma combine_empty_r a : combine a empty_semantic = a.
Proof. destruct a. unfold combine. simpl. rewrite !app_nil_r. reflexivity. Qed.

Lemma combine_assoc a b c : combine (combine a b) c = combine a (combine b c).
Proof. unfold combine. simpl. rewrite !app_assoc. reflexivity. Qed.

Lemma summary_of_app xs ys :
  summary_of (xs ++ ys) = combine (summary_of xs) (summary_of ys).
Proof.
  unfold summary_of, combine, members. simpl.
  rewrite !filter_app, !map_app. reflexivity.
Qed.

Lemma visit_spec node sem :
  visit node sem = combine sem (summary_of [node]).
Proof.
  unfold visit, summary_of, members, in_category, classify, kind_of. simpl.
  destruct (Str.contains "class" _); simpl.
  { destruct sem; unfold combine, append_class; simpl.
    rewrite !app_nil_r. reflexivity. }
  destruct (Str.contains "method" _); simpl.
  { destruct sem; unfold combine, append_method; simpl.
    rewrite !app_nil_r. reflexivity. }
  destruct (Str.contains "function" _); simpl.
  { destruct sem; unfold combine, append_method; simpl.
    rewrite !app_nil_r. reflexivity. }
  destruct (Str.contains "property" _); simpl.
  { destruct sem; unfold combine, append_property; simpl.
    rewrite !app_nil_r. reflexivity. }
  destruct (Str.contains "field" _); simpl.
  { destruct sem; unfold combine, append_property; simpl.
    rewrite !app_nil_r. reflexivity. }
  destruct sem; unfold combine; simpl. rewrite !app_nil_r. reflexivity.
Qed.

Lemma traverse_unfold node sem :
  traverse node sem
  = fold_left (fun acc child => traverse child acc) (children_of node)
              (visit node sem).
Proof.
  destruct node as [id type s e text [cs|]]; [|reflexivity].
  unfold children_of. simpl get_or.
  change (traverse (Dict id type s e text (Some cs)) sem)
    with ((fix each (cs : list ast_dict) (sem : semantic) {struct cs} : semantic :=
             match cs with
             | [] => sem
             | child :: rest => each rest (traverse child sem)
             end) cs (visit (Dict id type s e text (Some cs)) sem)).
  generalize (visit (Dict id type s e text (Some cs)) sem).
  induction cs as [|c cs IH]; intros acc; simpl; [reflexivity|].
  apply IH.
Qed.

Lemma traverse_spec node :
  forall sem, traverse node sem = combine sem (summary_of (preorder node)).
Proof.
  induction node as [id type s e text | id type s e text children IH]
    using ast_dict_rect'; intros sem.
  - rewrite traverse_unfold. simpl. apply visit_spec.
  - rewrite traverse_unfold. unfold children_of. simpl get_or.
    rewrite visit_spec.
    change (preorder (Dict id type s e text (Some children)))
      with ([Dict id type s e text (Some children)] ++ flat_map preorder children).
    rewrite summary_of_app, <- combine_assoc.
    generalize (combine sem (summary_of [Dict id type s e text (Some children)])).
    clear sem. induction IH as [|c cs Hc _ IHcs]; intros acc; simpl.
    + symmetry. apply combine_empty_r.
    + rewrite Hc, IHcs, summary_of_app, combine_assoc. reflexivity.
Qed.

Lemma members_disjoint nodes :
  length (members DeclaredType nodes) + length (members CallableMember nodes)
  + length (members DataMember nodes) <= length nodes.
Proof.
  unfold members. rewrite !length_map.
  induction nodes as [|n ns IH]; simpl; [lia|].
  assert (H : Nat.b2n (in_category DeclaredType n)
              + Nat.b2n (in_category CallableMember n)
              + Nat.b2n (in_category DataMember n) <= 1).
  { unfold in_category. destruct (classify (kind_of n)) as [[]|]; simpl; lia. }
  destruct (in_category DeclaredType n), (in_category CallableMember n),
    (in_category DataMember n); simpl in *; lia.
Qed.

Lemma members_none c nodes :
  (forall n, In n nodes -> classify (kind_of n) = None) ->
  members c nodes = [].
Proof.
  intros H. unfold members.
  induction nodes as [|n ns IH]; simpl; [reflexivity|].
  unfold in_category at 1. rewrite (H n (or_introl eq_refl)).
  apply IH. intros m Hm. apply H. right. exact Hm.
Qed.

(** The order of the table decides between keywords, whatever the
    letter case. *)
Example classify_first_keyword_wins :
  classify "Method_Of_CLASS" = Some DeclaredType
  /\ classify "field_function" = Some CallableMember
  /\ classify "PropertyDeclaration" = Some DataMember
  /\ classify "compilation_unit" = None.
Proof. repeat split; reflexivity. Qed.

(** C7. The summary lists, category by category, the nodes whose kind tag
    the ordered keyword table classifies there (case-folded substring
    match, first keyword wins), in traversal order; no node is counted
    twice; the import sequence is empty; a tree without any matching node
    gives four empty sequences; and the depth-cap sentinel matches no
    category. *)
Theorem build_semantic_tree_classification :
  forall tree : ast_dict,
    build_semantic_tree tree
    = {| classes := members DeclaredType (preorder tree);
         methods := members CallableMember (preorder tree);
         properties := members DataMember (preorder tree);
         imports := [] |}
    /\ length (classes (build_semantic_tree tree))
       + length (methods (build_semantic_tree tree))
       + length (properties (build_semantic_tree tree))
       <= length (preorder tree)
    /\ ((forall n, In n (preorder tree) -> classify (kind_of n) = None) ->
        build_semantic_tree tree
        = {| classes := []; methods := []; properties := []; imports := [] |})
    /\ classify (kind_of max_depth_reached) = None.
Proof.
  intros tree.
  assert (E : build_semantic_tree tree = summary_of (preorder tree)).
  { unfold build_semantic_tree. rewrite traverse_spec. reflexivity. }
  rewrite E. repeat split.
  - simpl. apply members_disjoint.
  - intros H. unfold summary_of. rewrite !members_none by exact H. reflexivity.
Qed.

(* ================================================================== *)
(** * The operations: parse, validate, transpile *)
(* ================================================================== *)

Section Operations.

Variable parser_c_sharp : option (string -> option ts_node).
Variable uuid4 : nat -> string.
Variable http_post : mcp_call -> http_outcome.
Variable str_exn : exn -> string.

Lemma no_grammar_no_tree code language :
  no_grammar language = true ->
  parse_code_to_ast parser_c_sharp uuid4 code language = None.
Proof.
  unfold no_grammar, parse_code_to_ast. intros H.
  apply negb_true_iff in H. rewrite H. reflexivity.
Qed.

(** C10. A parse request in a dialect without grammar gets a summary with
    exactly one declared type, named "Parsed structure" at line 0, and
    empty callable-member, data-member and import sequences, whatever the
    text is. *)
Theorem parse_code_placeholder_summary :
  forall request : CodeInput,
    no_grammar (ci_source_lang request) = true ->
    semantic_tree (parse_code parser_c_sharp uuid4 request)
    = Some {| classes := [ {| name := "Parsed structure"; line := 0 |} ];
              methods := []; properties := []; imports := [] |}
    /\ option_map (fun t => map kind_of (children_of t))
         (ast (parse_code parser_c_sharp uuid4 request))
       = Some ["class_declaration"].
Proof.
  intros request H. unfold parse_code.
  rewrite (no_grammar_no_tree _ _ H). split; reflexivity.
Qed.

(** C8, on the input of the repository's short-code test: five characters
    in a dialect without grammar.  The response carries the
    parser-not-available warning alone; the short-code warning, which the
    same text gets when a tree is available, is missing. *)
Theorem validate_code_short_without_grammar :
  let request := {| vr_code := "x = 1"; vr_language := "vbnet" |} in
  String.length (Str.strip (vr_code request)) < 10
  /\ no_grammar (vr_language request) = true
  /\ validate_code parser_c_sharp uuid4 request
     = {| valid := true; v_errors := [];
          v_warnings := [parser_not_available] |}
  /\ ~ In code_very_short
          (v_warnings (validate_code parser_c_sharp uuid4 request)).
Proof.
  cbv zeta. split; [vm_compute; lia|]. split; [reflexivity|].
  split; [reflexivity|].
  simpl. intros [H|[]]. discriminate H.
Qed.

(** With a tree, the same text does get the short-code warning. *)
Lemma validate_code_short_with_tree request tree :
  parse_code_to_ast parser_c_sharp uuid4 (vr_code request) (vr_language request)
  = Some tree ->
  String.length (Str.strip (vr_code request)) < 10 ->
  validate_code parser_c_sharp uuid4 request
  = {| valid := true; v_errors := []; v_warnings := [code_very_short] |}.
Proof.
  intros E H. unfold validate_code. rewrite E.
  apply Nat.ltb_lt in H. rewrite H. reflexivity.
Qed.

(** Without grammar a text is valid, and the absence is a warning. *)
Lemma validate_code_without_grammar request :
  no_grammar (vr_language request) = true ->
  validate_code parser_c_sharp uuid4 request
  = {| valid := true; v_errors := []; v_warnings := [parser_not_available] |}.
Proof.
  intros H. unfold validate_code. rewrite (no_grammar_no_tree _ _ H). reflexivity.
Qed.

(** Without a tree the agent is not called. *)
Lemma transpile_code_without_tree request :
  parse_code_to_ast parser_c_sharp uuid4 (code request) (source_lang request) = None ->
  transpile_code parser_c_sharp uuid4 http_post str_exn request
  = (rule_based_response str_exn request, []).
Proof.
  intros E. unfold transpile_code. rewrite E.
  destruct (use_mcp request && truthy_dict (mcp_config request)); reflexivity.
Qed.

Lemma transpile_code_vb request :
  In (normalize (source_lang request)) ["vb"; "vbnet"] ->
  transpile_code parser_c_sharp uuid4 http_post str_exn request
  = (rule_based_response str_exn request, []).
Proof.
  intros H. apply transpile_code_without_tree, no_grammar_no_tree.
  unfold no_grammar. rewrite (vb_has_no_grammar _ H). reflexivity.
Qed.

(** C9. When the source tag normalizes to one of the two Visual Basic
    dialects, no call to the agent is made, whatever the augmentation
    flag and the connection parameters are; the response is the
    rule-based one and its method tag is the rule-based tag, not the
    agent's. *)
Theorem transpile_code_vb_never_calls_agent :
  forall request : TranspileRequest,
    In (normalize (source_lang request)) ["vb"; "vbnet"] ->
    snd (transpile_code parser_c_sharp uuid4 http_post str_exn request) = []
    /\ fst (transpile_code parser_c_sharp uuid4 http_post str_exn request)
       = rule_based_response str_exn request
    /\ method (fst (transpile_code parser_c_sharp uuid4 http_post str_exn request))
       = "rule-based"
    /\ method (fst (transpile_code parser_c_sharp uuid4 http_post str_exn request))
       <> "mcp-ai".
Proof.
  intros request H.
  rewrite (transpile_code_vb _ H). simpl. rewrite rule_based_method.
  repeat split. discriminate.
Qed.

Lemma call_mcp_server_failure server_url api_key ast_data source_code source target :
  mcp_success (snd (call_mcp_server http_post server_url api_key ast_data
                      source_code source target))
  = negb (exchange_failed
            (http_post (fst (call_mcp_server http_post server_url api_key ast_data
                               source_code source target)))).
Proof.
  unfold call_mcp_server. simpl.
  destruct (http_post _) as [what|status [what|v]]; simpl; try reflexivity.
  - destruct (status =? 200); reflexivity.
  - destruct (status =? 200); simpl; [|reflexivity].
    destruct v; reflexivity.
Qed.

(** A reply with status 200 and a JSON object counts as an answer, even
    when it carries neither recognized field: the text is then empty. *)
Lemma call_mcp_server_accepts_object server_url api_key ast_data source_code
  source target data :
  (forall call, http_post call = Response 200 (inr (JObject data))) ->
  snd (call_mcp_server http_post server_url api_key ast_data source_code
         source target)
  = {| mcp_success := true;
       mcp_transpiled_code :=
         Some (get_or (get_or (JString "") (dict_get "transpiled_code" data))
                      (dict_get "result" data));
       mcp_error := None |}.
Proof. intros H. unfold call_mcp_server. simpl. rewrite H. reflexivity. Qed.

(** Unless an exchange with the agent succeeds, the response is the
    rule-based one. *)
Lemma transpile_code_rule_based request :
  (forall call,
      In call (snd (transpile_code parser_c_sharp uuid4 http_post str_exn request)) ->
      exchange_failed (http_post call) = true) ->
  fst (transpile_code parser_c_sharp uuid4 http_post str_exn request)
  = rule_based_response str_exn request.
Proof.
  unfold transpile_code.
  destruct (use_mcp request && truthy_dict (mcp_config request)); [|reflexivity].
  destruct (parse_code_to_ast _ _ _ _) as [ast_data|]; [|reflexivity].
  pose proof (call_mcp_server_failure
                (dict_get "server_url" (get_or [] (mcp_config request)))
                (dict_get "api_key" (get_or [] (mcp_config request)))
                ast_data (code request) (source_lang request)
                (target_lang request)) as S.
  destruct (call_mcp_server _ _ _ _ _ _ _) as [call response].
  simpl in S. intros Hfail.
  destruct (mcp_success response) eqn:Hs; [|reflexivity].
  simpl in Hfail. rewrite (Hfail call (or_introl eq_refl)) in S. discriminate S.
Qed.

(** A call is made only for a request with augmentation on, connection
    parameters and a source in a spelling of C#; there is no second
    call. *)
Lemma transpile_code_called request call :
  In call (snd (transpile_code parser_c_sharp uuid4 http_post str_exn request)) ->
  use_mcp request = true
  /\ truthy_dict (mcp_config request) = true
  /\ no_grammar (source_lang request) = false
  /\ snd (transpile_code parser_c_sharp uuid4 http_post str_exn request) = [call].
Proof.
  unfold transpile_code.
  destruct (use_mcp request && truthy_dict (mcp_config request)) eqn:E;
    [|intros []].
  apply andb_true_iff in E as [E1 E2].
  destruct (parse_code_to_ast _ _ _ _) as [ast_data|] eqn:P; [|intros []].
  assert (G : no_grammar (source_lang request) = false).
  { unfold parse_code_to_ast in P. unfold no_grammar.
    destruct (Str.mem _ _); [reflexivity | discriminate P]. }
  unfold call_mcp_server. cbv zeta.
  match goal with
  | |- context [mcp_success ?r] => destruct (mcp_success r)
  end; simpl; intros [<-|[]]; auto.
Qed.

(** A reply with status 200 and a JSON object is the agent's answer: the
    response is built from the translation it carries, and the rule
    engine is not consulted. *)
Lemma transpile_code_answered request call data :
  In call (snd (transpile_code parser_c_sharp uuid4 http_post str_exn request)) ->
  http_post call = Response 200 (inr (JObject data)) ->
  fst (transpile_code parser_c_sharp uuid4 http_post str_exn request)
  = mcp_ai_response str_exn (Some (translation_field data)).
Proof.
  unfold transpile_code.
  destruct (use_mcp request && truthy_dict (mcp_config request)); [|intros []].
  destruct (parse_code_to_ast _ _ _ _) as [ast_data|]; [|intros []].
  unfold call_mcp_server. cbv zeta.
  match goal with
  | |- context [http_post ?c] => set (call0 := c)
  end.
  intros Hin Hpost.
  assert (E : call = call0).
  { destruct (mcp_success _); simpl in Hin; destruct Hin as [<-|[]]; reflexivity. }
  subst call. rewrite Hpost. simpl.
  unfold translation_field.
  destruct (dict_get "result" data), (dict_get "transpiled_code" data); reflexivity.
Qed.

Lemma mcp_ai_response_outcome v :
  agent_outcome str_exn v (mcp_ai_response str_exn (Some v)).
Proof. destruct v; reflexivity. Qed.



(** C1, as amended. For a pair outside the four supported combinations
    (in particular when both tags normalize to the same tag), transpile
    answers success=false, exactly one error, which says "not supported",
    no warning and the input text unchanged, unless a call to the agent is
    answered with status 200 and a JSON object.  Such a call is made only
    with augmentation on, connection parameters and a C# source; the pair
    is then not looked at: the response is decided by the translation the
    reply carries (the agent's response for a string or null, the error
    response for any other value) and is not the one for an unsupported
    pair. *)
Theorem transpile_code_unsupported_pair :
  forall request : TranspileRequest,
    supported_pair (source_lang request) (target_lang request) = false
    \/ normalize (source_lang request) = normalize (target_lang request) ->
    let response :=
      fst (transpile_code parser_c_sharp uuid4 http_post str_exn request) in
    let calls :=
      snd (transpile_code parser_c_sharp uuid4 http_post str_exn request) in
    ((forall call, In call calls -> exchange_failed (http_post call) = true) ->
     unsupported_outcome request response /\ method response = "rule-based")
    /\ (forall call data,
          In call calls ->
          http_post call = Response 200 (inr (JObject data)) ->
          agent_outcome str_exn (translation_field data) response
          /\ ~ unsupported_outcome request response
          /\ use_mcp request = true
          /\ truthy_dict (mcp_config request) = true
          /\ no_grammar (source_lang request) = false).
Proof.
  intros request Hpair. cbv zeta.
  assert (Hp : supported_pair (source_lang request) (target_lang request) = false)
    by (destruct Hpair as [H|H]; [exact H | apply same_tag_unsupported, H]).
  clear Hpair. rename Hp into Hpair. split.
  - intros Hfail.
    rewrite (transpile_code_rule_based _ Hfail).
    unfold rule_based_response.
    rewrite (transpile_rule_based_unsupported _ _ _ Hpair). simpl.
    repeat split.
    exists (not_supported (source_lang request) (target_lang request)).
    split; [reflexivity | apply not_supported_message].
  - intros call data Hin Hpost.
    destruct (@transpile_code_called request call Hin) as (U & T & G & _).
    rewrite (@transpile_code_answered request call data Hin Hpost).
    split; [apply mcp_ai_response_outcome|]. split; [|auto].
    intros (S & _ & _ & C).
    destruct (translation_field data); simpl in S, C; discriminate.
Qed.

(** C2, as amended. Along the legacy to C-family path the text is the
    VB.NET-to-C# rules applied to the output of the VB-to-VB.NET rules,
    the method tag is the rule-based tag of the direct pairs, the only
    warning is the two-step warning, and the agent is not called. *)
Theorem transpile_code_two_step :
  forall request : TranspileRequest,
    normalize (source_lang request) = "vb" ->
    In (normalize (target_lang request)) ["csharp"; "c#"] ->
    exists vbnet_code transpiled,
      transpile_vb_to_vbnet (code request) = Some vbnet_code
      /\ transpile_vbnet_to_csharp vbnet_code = Some transpiled
      /\ transpile_code parser_c_sharp uuid4 http_post str_exn request
         = ({| success := true; transpiled_code := Some transpiled;
               warnings := [warn_two_step]; errors := [];
               method := "rule-based" |}, []).
Proof.
  intros request Hs Ht.
  destruct (transpile_vb_to_vbnet_total (code request)) as [vbnet_code E1].
  destruct (transpile_vbnet_to_csharp_total vbnet_code) as [transpiled E2].
  exists vbnet_code, transpiled. split; [exact E1|]. split; [exact E2|].
  rewrite transpile_code_vb by (rewrite Hs; simpl; auto).
  unfold rule_based_response, transpile_rule_based. cbv zeta.
  rewrite Hs, E1, E2.
  apply mem_true_iff in Ht. rewrite Ht.
  destruct (String.eqb_spec (normalize (target_lang request)) "vbnet") as [E|_].
  - rewrite E in Ht. discriminate Ht.
  - reflexivity.
Qed.

(** C6, on scenario A, from VB.NET to C#, with or without augmentation
    requested.  The text does contain "public class Calculator" and the
    one warning is the advice to review type conversions, but the braces
    do not match: the class line carries two opening braces and the text
    one closing brace.  The rule for "Public Class" opens the body, and
    the rule for "Class", two rules later and blind to letter case, finds
    the rewritten line and opens it again. *)
Theorem transpile_code_scenario_a :
  forall (use_mcp : bool) (mcp_config : option config),
    let request := {| code := scenario_a; source_lang := "vbnet";
                      target_lang := "csharp"; use_mcp := use_mcp;
                      mcp_config := mcp_config |} in
    let transpiled := Str.join_lines ["public class Calculator { {"; "}"] in
    fst (transpile_code parser_c_sharp uuid4 http_post str_exn request)
    = {| success := true; transpiled_code := Some transpiled;
         warnings := [warn_vbnet_csharp]; errors := [];
         method := "rule-based" |}
    /\ Str.contains "public class Calculator" transpiled = true
    /\ count_char "{" transpiled = 2
    /\ count_char "}" transpiled = 1
    /\ Re.sub "\bPublic Class (\w+)" "public class \1 {" scenario_a
              Re.IGNORECASE_MULTILINE
       = Some (Str.join_lines ["public class Calculator {"; "End Class"])
    /\ Re.sub "\bClass (\w+)" "class \1 {"
              (Str.join_lines ["public class Calculator {"; "End Class"])
              Re.IGNORECASE_MULTILINE
       = Some (Str.join_lines ["public class Calculator { {"; "End Class"])
    /\ Str.contains "type conversions" warn_vbnet_csharp = true.
Proof.
  intros um cfg request transpiled. subst transpiled.
  rewrite transpile_code_vb by (simpl; auto).
  split; [vm_compute; reflexivity|].
  repeat split; vm_compute; reflexivity.
Qed.

End Operations.

(* ================================================================== *)
(** * Matching under IGNORECASE does not see letter case *)
(* ================================================================== *)

Ltac by_cases_on_char c :=
  destruct c as [[] [] [] [] [] [] [] []]; reflexivity.

Lemma lower_char_idem c : lower_char (lower_char c) = lower_char c.
Proof. by_cases_on_char c. Qed.

Lemma is_word_lower c : is_word (lower_char c) = is_word c.
Proof. by_cases_on_char c. Qed.

Lemma is_space_lower c : is_space (lower_char c) = is_space c.
Proof. by_cases_on_char c. Qed.

Lemma is_digit_lower c : is_digit (lower_char c) = is_digit c.
Proof. by_cases_on_char c. Qed.

Lemma is_newline_lower c : is_newline (lower_char c) = is_newline c.
Proof. by_cases_on_char c. Qed.

Section CaseFolding.

Variable fl : Re.flags.
Hypothesis fl_ignorecase : Re.ignorecase fl = true.

Variables t t' : list ascii.
Hypothesis t_t' : same_fold t t'.

Lemma same_fold_length : length t = length t'.
Proof. rewrite <- (length_map lower_char t), t_t'. apply length_map. Qed.

Lemma same_fold_nth i :
  option_map lower_char (nth_error t i) = option_map lower_char (nth_error t' i).
Proof. rewrite <- !nth_error_map, t_t'. reflexivity. Qed.

Lemma cs_match_fold cs c c' :
  lower_char c = lower_char c' -> Re.cs_match fl cs c = Re.cs_match fl cs c'.
Proof.
  intros E. induction cs as [x| | | | |a IHa b IHb]; simpl.
  - rewrite fl_ignorecase, E. reflexivity.
  - rewrite <- (is_newline_lower c), E, is_newline_lower. reflexivity.
  - rewrite <- (is_space_lower c), E, is_space_lower. reflexivity.
  - rewrite <- (is_word_lower c), E, is_word_lower. reflexivity.
  - rewrite <- (is_digit_lower c), E, is_digit_lower. reflexivity.
  - rewrite IHa, IHb. reflexivity.
Qed.

Lemma word_at_fold i : Re.word_at t i = Re.word_at t' i.
Proof.
  unfold Re.word_at. pose proof (same_fold_nth i) as E.
  destruct (nth_error t i) as [c|], (nth_error t' i) as [c'|];
    simpl in E; try discriminate; [|reflexivity].
  injection E as E.
  rewrite <- (is_word_lower c), E, is_word_lower. reflexivity.
Qed.

Lemma boundary_fold i : Re.boundary t i = Re.boundary t' i.
Proof.
  unfold Re.boundary, Re.word_before.
  rewrite word_at_fold. destruct i; [reflexivity|].
  rewrite word_at_fold. reflexivity.
Qed.

Lemma at_eol_fold i : Re.at_eol fl t i = Re.at_eol fl t' i.
Proof.
  unfold Re.at_eol. pose proof (same_fold_nth i) as E.
  rewrite same_fold_length.
  destruct (nth_error t i) as [c|], (nth_error t' i) as [c'|];
    simpl in E; try discriminate; [|reflexivity].
  injection E as E.
  rewrite <- (is_newline_lower c), E, is_newline_lower. reflexivity.
Qed.

Lemma m_fold r :
  forall st k k',
    (forall s, k s = k' s) -> Re.m fl t r st k = Re.m fl t' r st k'.
Proof.
  induction r as [|cs| | |a IHa b IHb|a IHa b IHb|n a IHa|greedy a IHa|a IHa];
    intros st k k' Hk; cbn [Re.m].
  - apply Hk.
  - pose proof (same_fold_nth (Re.pos st)) as E.
    destruct (nth_error t (Re.pos st)) as [c|], (nth_error t' (Re.pos st)) as [c'|];
      simpl in E; try discriminate; [|reflexivity].
    injection E as E. rewrite (cs_match_fold cs _ _ E), Hk. reflexivity.
  - rewrite boundary_fold, Hk. reflexivity.
  - rewrite at_eol_fold, Hk. reflexivity.
  - apply IHa. intros s. apply IHb, Hk.
  - rewrite (IHa st k k' Hk), (IHb st k k' Hk). reflexivity.
  - apply IHa. intros s. apply Hk.
  - rewrite same_fold_length.
    generalize (S (length t' - Re.pos st)). intros fuel. revert st.
    induction fuel as [|f IHf]; intros st; simpl; [apply Hk|].
    rewrite (IHa st _ (fun st1 =>
               if Re.pos st <? Re.pos st1
               then Re.star_loop greedy (Re.m fl t' a) k' f st1 else None)).
    + rewrite Hk. reflexivity.
    + intros s. destruct (Re.pos st <? Re.pos s); [apply IHf | reflexivity].
  - rewrite (IHa st _ (fun st1 => Some st1) (fun _ => eq_refl)).
    destruct (Re.m fl t' a st _); [apply Hk | reflexivity].
Qed.

Lemma match_at_fold r adv i : Re.match_at fl t r adv i = Re.match_at fl t' r adv i.
Proof. unfold Re.match_at. apply m_fold. reflexivity. Qed.

Lemma search_fold r fuel :
  forall adv i, Re.search fl t r adv i fuel = Re.search fl t' r adv i fuel.
Proof.
  induction fuel as [|f IH]; intros adv i; simpl; [reflexivity|].
  rewrite match_at_fold, IH. reflexivity.
Qed.

Lemma finditer_from_fold r fuel :
  forall i adv,
    Re.finditer_from fl t r fuel i adv = Re.finditer_from fl t' r fuel i adv.
Proof.
  induction fuel as [|f IH]; intros i adv; cbn [Re.finditer_from]; [reflexivity|].
  rewrite search_fold, same_fold_length.
  destruct (Re.search fl t' r adv i _) as [[b st]|]; [|reflexivity].
  rewrite IH. reflexivity.
Qed.

Lemma finditer_fold r : Re.finditer fl t r = Re.finditer fl t' r.
Proof.
  unfold Re.finditer. rewrite same_fold_length. apply finditer_from_fold.
Qed.

Lemma slice_fold a b :
  map lower_char (Re.slice t a b) = map lower_char (Re.slice t' a b).
Proof.
  unfold Re.slice. rewrite <- !firstn_map, <- !skipn_map, t_t'. reflexivity.
Qed.

Lemma expand_fold tpl st :
  map lower_char (Re.expand t tpl st) = map lower_char (Re.expand t' tpl st).
Proof.
  unfold Re.expand. induction tpl as [|[c|n] tpl IH]; simpl; [reflexivity| |].
  - rewrite IH. reflexivity.
  - rewrite !map_app, IH. f_equal.
    destruct (Re.group_span n (Re.groups st)) as [[a b]|]; [|reflexivity].
    apply slice_fold.
Qed.

Lemma splice_fold tpl ms :
  forall last,
    map lower_char (Re.splice t tpl last ms)
    = map lower_char (Re.splice t' tpl last ms).
Proof.
  induction ms as [|[b st] ms IH]; intros last; simpl.
  - rewrite <- !skipn_map, t_t'. reflexivity.
  - rewrite !map_app, slice_fold, expand_fold, IH. reflexivity.
Qed.

Lemma sub_list_fold r tpl :
  same_fold (Re.sub_list fl t r tpl) (Re.sub_list fl t' r tpl).
Proof.
  unfold same_fold, Re.sub_list. rewrite finditer_fold. apply splice_fold.
Qed.

End CaseFolding.

Lemma lower_string_of_list l :
  Str.lower (string_of_list_ascii l) = string_of_list_ascii (map lower_char l).
Proof. induction l as [|c l IH]; simpl; [reflexivity | rewrite IH; reflexivity]. Qed.

Lemma list_of_lower_string s :
  list_ascii_of_string (Str.lower s) = map lower_char (list_ascii_of_string s).
Proof. induction s as [|c s IH]; simpl; [reflexivity | rewrite IH; reflexivity]. Qed.

Lemma lower_same_fold s s' :
  Str.lower s = Str.lower s' ->
  same_fold (list_ascii_of_string s) (list_ascii_of_string s').
Proof.
  intros E. unfold same_fold. rewrite <- !list_of_lower_string, E. reflexivity.
Qed.

Lemma same_fold_lower l l' :
  same_fold l l' ->
  Str.lower (string_of_list_ascii l) = Str.lower (string_of_list_ascii l').
Proof. intros E. rewrite !lower_string_of_list, E. reflexivity. Qed.

(** One case-insensitive [re.sub] on two spellings of a text. *)
Lemma sub_fold pattern replacement fl s s' out :
  Re.ignorecase fl = true ->
  Str.lower s = Str.lower s' ->
  Re.sub pattern replacement s fl = Some out ->
  exists out',
    Re.sub pattern replacement s' fl = Some out'
    /\ Str.lower out = Str.lower out'.
Proof.
  intros Hfl E. unfold Re.sub.
  destruct (Re.compile pattern) as [[r n]|]; [|discriminate].
  destruct (Re.parse_template _) as [tpl|]; [|discriminate].
  destruct (Re.max_ref tpl <=? n); [|discriminate].
  intros [= <-]. eexists. split; [reflexivity|].
  apply same_fold_lower, sub_list_fold; [exact Hfl|].
  apply lower_same_fold, E.
Qed.

Lemma apply_rules_fold rules fl :
  Re.ignorecase fl = true ->
  forall s s' out,
    Str.lower s = Str.lower s' ->
    apply_rules rules fl s = Some out ->
    exists out',
      apply_rules rules fl s' = Some out' /\ Str.lower out = Str.lower out'.
Proof.
  intros Hfl. induction rules as [|[p r] rules IH]; simpl; intros s s' out E H.
  - injection H as <-. eauto.
  - destruct (Re.sub p r s fl) as [s1|] eqn:E1; [|discriminate].
    destruct (@sub_fold p r fl s s' s1 Hfl E E1) as (s1' & -> & E').
    eapply IH; eauto.
Qed.

(* ================================================================== *)
(** * Where matches may begin and end *)
(* ================================================================== *)

Section Matches.

Variable fl : Re.flags.
Variable text : list ascii.

Lemma nonword_only_sound cs c :
  nonword_only cs = true -> Re.cs_match fl cs c = true -> is_word c = false.
Proof.
  destruct cs as [x| | | | |a b]; simpl; try discriminate.
  - intros Hx. apply negb_true_iff in Hx.
    destruct (Re.ignorecase fl); intros E; apply Ascii.eqb_eq in E.
    + rewrite <- (is_word_lower c), E, is_word_lower. exact Hx.
    + subst. exact Hx.
  - intros _. destruct c as [[] [] [] [] [] [] [] []]; vm_compute; congruence.
Qed.

Lemma boundary_not_inside i :
  Re.boundary text i = true -> inside_word text i = false.
Proof.
  unfold Re.boundary, inside_word.
  destruct (Re.word_before text i), (Re.word_at text i); simpl; congruence.
Qed.

Lemma m_starts_clean r :
  starts_clean r = true ->
  forall st k res,
    Re.m fl text r st k = Some res -> inside_word text (Re.pos st) = false.
Proof.
  induction r as [|cs| | |a IHa b IHb|a IHa b IHb|n a IHa|greedy a IHa|a IHa];
    simpl starts_clean; try discriminate; intros Hr st k res; cbn [Re.m].
  - destruct (nth_error text (Re.pos st)) as [c|] eqn:E; [|discriminate].
    destruct (Re.cs_match fl cs c) eqn:Hc; [|discriminate]. intros _.
    unfold inside_word, Re.word_at. rewrite E.
    rewrite (@nonword_only_sound cs c Hr Hc). apply andb_false_r.
  - destruct (Re.boundary text (Re.pos st)) eqn:B; [|discriminate].
    intros _. apply boundary_not_inside, B.
  - apply IHa, Hr.
  - apply andb_true_iff in Hr as [Ha Hb].
    destruct (Re.m fl text a st k) eqn:E.
    + intros _. eapply IHa; eauto.
    + apply IHb, Hb.
  - apply IHa, Hr.
Qed.

(** A successful match ends by a successful call of its continuation,
    further on in the text and not beyond its end. *)
Lemma m_inv r :
  forall st k res,
    Re.m fl text r st k = Some res ->
    exists st',
      k st' = Some res
      /\ Re.pos st <= Re.pos st'
      /\ (Re.pos st <= length text -> Re.pos st' <= length text).
Proof.
  induction r as [|cs| | |a IHa b IHb|a IHa b IHb|n a IHa|greedy a IHa|a IHa];
    intros st k res; cbn [Re.m].
  - eauto.
  - destruct (nth_error text (Re.pos st)) as [c|] eqn:E; [|discriminate].
    destruct (Re.cs_match fl cs c); [|discriminate].
    intros H. exists (Re.advance st). simpl. repeat split; auto.
    intros _. apply Nat.le_succ_l, nth_error_Some. congruence.
  - destruct (Re.boundary text (Re.pos st)); [eauto | discriminate].
  - destruct (Re.at_eol fl text (Re.pos st)); [eauto | discriminate].
  - intros H. apply IHa in H as (st1 & H & L1 & B1).
    apply IHb in H as (st2 & H & L2 & B2).
    exists st2. repeat split; [exact H | lia | auto].
  - destruct (Re.m fl text a st k) eqn:E.
    + intros [= <-]. eapply IHa, E.
    + apply IHb.
  - intros H. apply IHa in H as (st1 & H & L1 & B1).
    exists (Re.set_group n (Re.pos st, Re.pos st1) st1). simpl. auto.
  - generalize (S (length text - Re.pos st)). intros fuel. revert st.
    assert (step : forall f st,
      (forall st0, Re.star_loop greedy (Re.m fl text a) k f st0 = Some res ->
         exists st', k st' = Some res /\ Re.pos st0 <= Re.pos st'
                     /\ (Re.pos st0 <= length text -> Re.pos st' <= length text)) ->
      Re.m fl text a st (fun st1 =>
         if Re.pos st <? Re.pos st1
         then Re.star_loop greedy (Re.m fl text a) k f st1 else None) = Some res ->
      exists st', k st' = Some res /\ Re.pos st <= Re.pos st'
                  /\ (Re.pos st <= length text -> Re.pos st' <= length text)).
    { intros f st IHf E. apply IHa in E as (st1 & E & L1 & B1).
      destruct (Re.pos st <? Re.pos st1); [|discriminate].
      apply IHf in E as (st2 & E & L2 & B2).
      exists st2. repeat split; [exact E | lia | auto]. }
    induction fuel as [|f IHf]; intros st; simpl; [eauto|].
    destruct greedy.
    + destruct (Re.m fl text a st _) eqn:E.
      * intros [= <-]. eapply step; eauto.
      * eauto.
    + destruct (k st) eqn:E0.
      * intros [= <-]. eauto.
      * intros E. eapply step; eauto.
  - destruct (Re.m fl text a st _); [|discriminate].
    intros H. eexists. split; [exact H|]. simpl. auto.
Qed.

Lemma m_ends_clean r :
  ends_clean r = true ->
  forall st k res,
    Re.m fl text r st k = Some res ->
    exists st', k st' = Some res /\ inside_word text (Re.pos st') = false.
Proof.
  induction r as [|cs| | |a IHa b IHb|a IHa b IHb|n a IHa|greedy a IHa|a IHa];
    simpl ends_clean; try discriminate; intros Hr st k res; cbn [Re.m].
  - destruct (nth_error text (Re.pos st)) as [c|] eqn:E; [|discriminate].
    destruct (Re.cs_match fl cs c) eqn:Hc; [|discriminate]. intros H.
    exists (Re.advance st). split; [exact H|].
    unfold inside_word. simpl. unfold Re.word_at at 1. rewrite E.
    rewrite (@nonword_only_sound cs c Hr Hc). reflexivity.
  - destruct (Re.boundary text (Re.pos st)) eqn:B; [|discriminate].
    intros H. exists st. split; [exact H | apply boundary_not_inside, B].
  - intros H.
    assert (Hb : ends_clean b = true \/ (b = Re.Eps /\ ends_clean a = true)).
    { destruct b; auto. }
    destruct Hb as [Hb|[-> Ha]].
    + apply m_inv in H as (st1 & H & _). eapply IHb; eauto.
    + apply (IHa Ha) in H. exact H.
  - apply andb_true_iff in Hr as [Ha Hb].
    destruct (Re.m fl text a st k) eqn:E.
    + intros [= <-]. eapply IHa; eauto.
    + apply IHb, Hb.
  - intros H. apply (IHa Hr) in H as (st1 & H & Hin).
    eexists. split; [exact H | exact Hin].
Qed.

Lemma match_at_result r adv i st :
  Re.match_at fl text r adv i = Some st ->
  (starts_clean r = true -> inside_word text i = false)
  /\ (ends_clean r = true -> inside_word text (Re.pos st) = false).
Proof.
  unfold Re.match_at. intros H. split; intros Hr.
  - apply (@m_starts_clean r Hr) in H. exact H.
  - apply (@m_ends_clean r Hr) in H as (st' & H & Hin).
    destruct (adv && (Re.pos st' =? i)); [discriminate|].
    injection H as <-. exact Hin.
Qed.

Lemma search_result r fuel :
  forall adv i b st,
    Re.search fl text r adv i fuel = Some (b, st) ->
    exists adv', Re.match_at fl text r adv' b = Some st.
Proof.
  induction fuel as [|f IH]; intros adv i b st; simpl; [discriminate|].
  destruct (Re.match_at fl text r adv i) eqn:E.
  - intros [= <- <-]. eauto.
  - apply IH.
Qed.

Lemma finditer_from_result r fuel :
  forall i adv b st,
    In (b, st) (Re.finditer_from fl text r fuel i adv) ->
    exists adv', Re.match_at fl text r adv' b = Some st.
Proof.
  induction fuel as [|f IH]; intros i adv b st; cbn [Re.finditer_from]; [intros []|].
  destruct (Re.search fl text r adv i _) as [[b0 st0]|] eqn:E; [|intros []].
  intros [[= <- <-]|H].
  - eapply search_result, E.
  - eapply IH, H.
Qed.

(** Every match [re.sub] replaces begins and ends where the pattern's
    ends allow. *)
Lemma finditer_anchored r b st :
  In (b, st) (Re.finditer fl text r) ->
  (starts_clean r = true -> inside_word text b = false)
  /\ (ends_clean r = true -> inside_word text (Re.pos st) = false).
Proof.
  intros H. apply finditer_from_result in H as [adv H].
  eapply match_at_result, H.
Qed.

(** ** Patterns that close with a greedy run *)

(** A greedy run of word characters, or of [.], stops where no word
    character follows; a run of other characters ends after one of them.
    Either way the match does not end strictly inside an identifier. *)

Lemma star_loop_accepts ma k b0 :
  accepts_after b0 k ->
  forall fuel st0,
    b0 < Re.pos st0 -> Re.star_loop true ma k fuel st0 <> None.
Proof.
  intros [_ Hk] fuel. induction fuel as [|f IH]; intros st0 Hb; simpl.
  - apply Hk, Hb.
  - destruct (ma st0 _); [discriminate | apply Hk, Hb].
Qed.

Lemma newline_not_word c : is_newline c = true -> is_word c = false.
Proof. destruct c as [[] [] [] [] [] [] [] []]; vm_compute; congruence. Qed.

Lemma star_loop_greedy cs k b0 res :
  (cs = Re.CsWord \/ cs = Re.CsAny) ->
  accepts_after b0 k ->
  forall fuel st0,
    length text - Re.pos st0 < fuel ->
    b0 <= Re.pos st0 ->
    Re.star_loop true (Re.m fl text (Re.Chr cs)) k fuel st0 = Some res ->
    Re.word_at text (Re.pos res) = false.
Proof.
  intros Hcs Hk fuel. set (ma := Re.m fl text (Re.Chr cs)).
  induction fuel as [|f IH]; intros st0 Hf Hb; [lia|].
  cbn [Re.star_loop].
  assert (Hma : forall K,
    ma st0 K = match nth_error text (Re.pos st0) with
               | Some c => if Re.cs_match fl cs c then K (Re.advance st0) else None
               | None => None
               end) by reflexivity.
  rewrite Hma. clear Hma.
  destruct (nth_error text (Re.pos st0)) as [c|] eqn:E.
  - destruct (Re.cs_match fl cs c) eqn:M.
    + assert (L : (Re.pos st0 <? Re.pos (Re.advance st0)) = true)
        by (apply Nat.ltb_lt; simpl; lia).
      rewrite L.
      assert (Hlen : Re.pos st0 < length text)
        by (apply nth_error_Some; congruence).
      destruct (Re.star_loop true ma k f (Re.advance st0)) as [x|] eqn:S1.
      * intros H. injection H as <-.
        apply (IH (Re.advance st0)); simpl; try lia. exact S1.
      * exfalso. apply (@star_loop_accepts ma k b0 Hk f (Re.advance st0));
          simpl; [lia | exact S1].
    + intros H. destruct Hk as [Hk _]. apply Hk in H. rewrite H.
      unfold Re.word_at. rewrite E.
      destruct Hcs as [-> | ->]; simpl in M; [exact M|].
      apply orb_false_iff in M as [_ M]. apply negb_false_iff in M.
      apply newline_not_word, M.
  - intros H. destruct Hk as [Hk _]. apply Hk in H. rewrite H.
    unfold Re.word_at. rewrite E. reflexivity.
Qed.

Lemma m_ends_greedy r :
  ends_greedy r = true ->
  forall b0 st k res,
    accepts_after b0 k ->
    b0 <= Re.pos st ->
    Re.m fl text r st k = Some res ->
    Re.word_at text (Re.pos res) = false.
Proof.
  induction r as [|cs| | |a IHa b IHb|a IHa b IHb|n a IHa|greedy a IHa|a IHa];
    cbn [ends_greedy greedy_run orb]; try discriminate;
    intros Hr b0 st k res Hk Hb; cbn [Re.m].
  - intros H.
    assert (Hc : ends_greedy b = true \/ (b = Re.Eps /\ ends_greedy a = true)).
    { destruct b; auto. }
    destruct Hc as [Hc|[-> Ha]].
    + apply m_inv in H as (st1 & H & L & _).
      apply (IHb Hc b0 st1 k res Hk); [lia | exact H].
    + apply (IHa Ha b0 st (fun st1 => Re.m fl text Re.Eps st1 k) res); auto.
  - apply (IHa Hr b0 st); [|exact Hb].
    destruct Hk as [H1 H2]. split.
    + intros st1 r1 H. apply H1 in H. exact H.
    + intros st1 L. apply H2. exact L.
  - intros H.
    assert (Hcs : exists cs, a = Re.Chr cs /\ greedy = true
                             /\ (cs = Re.CsWord \/ cs = Re.CsAny)).
    { destruct greedy; [|discriminate Hr].
      destruct a as [|cs| | | | | | |]; try discriminate Hr.
      destruct cs; try discriminate Hr; eauto. }
    destruct Hcs as (cs & -> & -> & Hcs).
    apply (@star_loop_greedy cs k b0 res Hcs Hk (S (length text - Re.pos st)) st);
      [lia | exact Hb | exact H].
Qed.

Lemma star_loop_nonword cs greedy k res :
  nonword_only cs = true ->
  (forall st r, k st = Some r -> Re.pos r = Re.pos st) ->
  forall fuel st0,
    Re.word_before text (Re.pos st0) = false ->
    Re.star_loop greedy (Re.m fl text (Re.Chr cs)) k fuel st0 = Some res ->
    Re.word_before text (Re.pos res) = false.
Proof.
  intros Hcs Hk fuel. set (ma := Re.m fl text (Re.Chr cs)).
  induction fuel as [|f IH]; intros st0 Hw; cbn [Re.star_loop].
  - intros H. apply Hk in H. rewrite H. exact Hw.
  - assert (step :
      ma st0 (fun st1 => if Re.pos st0 <? Re.pos st1
                         then Re.star_loop greedy ma k f st1
                         else None) = Some res ->
      Re.word_before text (Re.pos res) = false).
    { unfold ma at 1. cbn [Re.m].
      destruct (nth_error text (Re.pos st0)) as [c|] eqn:E; [|discriminate].
      destruct (Re.cs_match fl cs c) eqn:M; [|discriminate].
      destruct (Re.pos st0 <? Re.pos (Re.advance st0)); [|discriminate].
      apply IH. simpl. unfold Re.word_at. rewrite E.
      apply (@nonword_only_sound cs c Hcs M). }
    destruct greedy.
    + destruct (ma st0 _) eqn:E.
      * intros H. injection H as <-. apply step. reflexivity.
      * intros H. apply Hk in H. rewrite H. exact Hw.
    + destruct (k st0) eqn:E.
      * intros H. injection H as <-. apply Hk in E. rewrite E. exact Hw.
      * apply step.
Qed.

Lemma m_ends_nonword r :
  ends_nonword r = true ->
  forall st k res,
    (forall st r, k st = Some r -> Re.pos r = Re.pos st) ->
    Re.m fl text r st k = Some res ->
    Re.word_before text (Re.pos res) = false.
Proof.
  induction r as [|cs| | |a IHa b IHb|a IHa b IHb|n a IHa|greedy a IHa|a IHa];
    cbn [ends_nonword nonword_run orb]; try discriminate;
    intros Hr st k res Hk.
  - apply orb_true_iff in Hr as [Hr|Hr].
    + destruct a as [|cs| | | | | | |]; try discriminate Hr.
      destruct b as [| | | | | | |g b|]; try discriminate Hr.
      destruct b as [|cs'| | | | | | |]; try discriminate Hr.
      apply andb_true_iff in Hr as [H1 H2]. cbn [Re.m].
      destruct (nth_error text (Re.pos st)) as [c|] eqn:E; [|discriminate].
      destruct (Re.cs_match fl cs c) eqn:M; [|discriminate].
      apply (@star_loop_nonword cs' g k res H2 Hk). simpl.
      unfold Re.word_at. rewrite E. apply (@nonword_only_sound cs c H1 M).
    + cbn [Re.m]. intros H.
      assert (Hc : ends_nonword b = true \/ (b = Re.Eps /\ ends_nonword a = true)).
      { destruct b; auto. }
      destruct Hc as [Hc|[-> Ha]].
      * apply m_inv in H as (st1 & H & _).
        apply (IHb Hc st1 k res Hk H).
      * apply (IHa Ha st (fun st1 => Re.m fl text Re.Eps st1 k) res); auto.
  - cbn [Re.m]. apply (IHa Hr st).
    intros st1 r1 H. apply Hk in H. exact H.
Qed.

Lemma top_accepts adv i :
  accepts_after i (fun st => if adv && (Re.pos st =? i) then None else Some st).
Proof.
  split.
  - intros st res. destruct (adv && (Re.pos st =? i)); [discriminate|].
    intros H. injection H as <-. reflexivity.
  - intros st L.
    assert (E : (Re.pos st =? i) = false) by (apply Nat.eqb_neq; lia).
    rewrite E, andb_false_r. discriminate.
Qed.

Lemma match_at_closed r adv i st :
  Re.match_at fl text r adv i = Some st ->
  ends_clean r || ends_greedy r || ends_nonword r = true ->
  inside_word text (Re.pos st) = false.
Proof.
  intros H Hr. apply orb_true_iff in Hr as [Hr|Hr];
    [apply orb_true_iff in Hr as [Hr|Hr]|].
  - destruct (@match_at_result r adv i st H) as [_ E]. auto.
  - unfold Re.match_at in H. unfold inside_word.
    rewrite (@m_ends_greedy r Hr i {| Re.pos := i; Re.groups := [] |} _ _
               (top_accepts adv i) (Nat.le_refl i) H).
    apply andb_false_r.
  - unfold Re.match_at in H. unfold inside_word.
    rewrite (@m_ends_nonword r Hr _ _ _ (proj1 (top_accepts adv i)) H).
    reflexivity.
Qed.

Lemma finditer_closed r b st :
  In (b, st) (Re.finditer fl text r) ->
  ends_clean r || ends_greedy r || ends_nonword r = true ->
  inside_word text (Re.pos st) = false.
Proof.
  intros H. apply finditer_from_result in H as [adv H].
  eapply match_at_closed, H.
Qed.

(** ** The fuel of the loops is never used up *)

(** A match consults its continuation only further on in the text. *)
Lemma m_range r :
  forall st k k',
    Re.pos st <= length text ->
    (forall s, Re.pos st <= Re.pos s -> Re.pos s <= length text -> k s = k' s) ->
    Re.m fl text r st k = Re.m fl text r st k'.
Proof.
  induction r as [|cs| | |a IHa b IHb|a IHa b IHb|n a IHa|greedy a IHa|a IHa];
    intros st k k' Hst Hk; cbn [Re.m].
  - apply Hk; auto.
  - destruct (nth_error text (Re.pos st)) as [c|] eqn:E; [|reflexivity].
    destruct (Re.cs_match fl cs c); [|reflexivity].
    apply Hk; simpl; [lia|]. apply Nat.le_succ_l, nth_error_Some. congruence.
  - destruct (Re.boundary text (Re.pos st)); [apply Hk; auto | reflexivity].
  - destruct (Re.at_eol fl text (Re.pos st)); [apply Hk; auto | reflexivity].
  - apply IHa; [exact Hst|]. intros s L B. apply IHb; [exact B|].
    intros s' L' B'. apply Hk; [lia | exact B'].
  - rewrite (IHa st k k' Hst Hk), (IHb st k k' Hst Hk). reflexivity.
  - apply IHa; [exact Hst|]. intros s L B. apply Hk; simpl; auto.
  - generalize (S (length text - Re.pos st)). intros fuel.
    revert st Hst Hk. induction fuel as [|f IHf]; intros st Hst Hk; simpl.
    + apply Hk; auto.
    + rewrite (IHa st _ (fun st1 =>
                 if Re.pos st <? Re.pos st1
                 then Re.star_loop greedy (Re.m fl text a) k' f st1 else None)).
      * rewrite (Hk st); auto.
      * exact Hst.
      * intros s L B. destruct (Re.pos st <? Re.pos s); [|reflexivity].
        apply IHf; [exact B|]. intros s' L' B'. apply Hk; [lia | exact B'].
  - destruct (Re.m fl text a st _); [|reflexivity]. apply Hk; simpl; auto.
Qed.

(** More fuel than characters left changes nothing. *)
Lemma star_loop_fuel greedy a k :
  forall f1 f2 st,
    Re.pos st <= length text ->
    length text - Re.pos st < f1 ->
    length text - Re.pos st < f2 ->
    Re.star_loop greedy (Re.m fl text a) k f1 st
    = Re.star_loop greedy (Re.m fl text a) k f2 st.
Proof.
  induction f1 as [|f1 IH]; intros f2 st Hst H1 H2; [lia|].
  destruct f2 as [|f2]; [lia|]. simpl.
  rewrite (@m_range a st _ (fun st1 =>
             if Re.pos st <? Re.pos st1
             then Re.star_loop greedy (Re.m fl text a) k f2 st1 else None)).
  - reflexivity.
  - exact Hst.
  - intros s L B. destruct (Nat.ltb_spec (Re.pos st) (Re.pos s)); [|reflexivity].
    apply IH; [exact B | lia | lia].
Qed.

Lemma match_at_bounds r adv i st :
  Re.match_at fl text r adv i = Some st ->
  i <= Re.pos st
  /\ (i <= length text -> Re.pos st <= length text)
  /\ (adv = true -> i < Re.pos st).
Proof.
  unfold Re.match_at. intros H. apply m_inv in H as (st' & H & L & B).
  simpl in L, B.
  destruct (adv && (Re.pos st' =? i)) eqn:E; [discriminate|].
  injection H as <-. repeat split; auto.
  intros ->. simpl in E. apply Nat.eqb_neq in E. lia.
Qed.

Lemma search_bounds r fuel :
  forall adv i b st,
    Re.search fl text r adv i fuel = Some (b, st) ->
    i <= b < i + fuel
    /\ b <= Re.pos st
    /\ (b <= length text -> Re.pos st <= length text)
    /\ (adv = true -> b = i -> i < Re.pos st).
Proof.
  induction fuel as [|f IH]; intros adv i b st; simpl; [discriminate|].
  destruct (Re.match_at fl text r adv i) eqn:E.
  - intros [= <- <-]. apply match_at_bounds in E as (L & B & A).
    repeat split; auto; lia.
  - intros H. apply IH in H as (R & L & B & _).
    repeat split; auto; lia.
Qed.

(** The scan of [re.sub] ends before its fuel does: each match moves on
    in the text, or is empty and forces the next one to move on. *)
Lemma finditer_from_fuel r :
  forall f1 f2 i adv,
    i <= length text ->
    2 * (length text - i) + Nat.b2n (negb adv) < f1 ->
    2 * (length text - i) + Nat.b2n (negb adv) < f2 ->
    Re.finditer_from fl text r f1 i adv = Re.finditer_from fl text r f2 i adv.
Proof.
  induction f1 as [|f1 IH]; intros f2 i adv Hi H1 H2; [lia|].
  destruct f2 as [|f2]; [lia|]. cbn [Re.finditer_from].
  destruct (Re.search fl text r adv i (S (length text - i))) as [[b st]|] eqn:E;
    [|reflexivity].
  apply search_bounds in E as (R & L & B & A).
  f_equal. assert (Hb : b <= length text) by lia. specialize (B Hb).
  destruct (Nat.eqb_spec (Re.pos st) b) as [Eb|Nb].
  - destruct (Nat.eq_dec b i) as [->|Ni].
    + destruct adv; [specialize (A eq_refl eq_refl); lia|].
      simpl in *. apply IH; simpl; lia.
    + apply IH; [lia | |]; destruct adv; simpl in *; lia.
  - apply IH; [lia | |]; destruct adv; simpl in *; lia.
Qed.

Lemma finditer_fuel r fuel :
  2 * S (length text) <= fuel ->
  Re.finditer_from fl text r fuel 0 false = Re.finditer fl text r.
Proof.
  intros H. unfold Re.finditer. apply finditer_from_fuel; simpl; lia.
Qed.

(** ** A pattern that needs a character finds nothing without it *)

Lemma m_requires_char c r :
  Re.ignorecase fl = false ->
  requires_char c r = true ->
  forall st k res, Re.m fl text r st k = Some res -> In c text.
Proof.
  intros Hfl.
  induction r as [|cs| | |a IHa b IHb|a IHa b IHb|n a IHa|greedy a IHa|a IHa];
    simpl requires_char; try discriminate; intros Hr st k res; cbn [Re.m].
  - destruct cs as [x| | | | |]; try discriminate.
    apply Ascii.eqb_eq in Hr. subst x.
    destruct (nth_error text (Re.pos st)) as [y|] eqn:E; [|discriminate].
    simpl. rewrite Hfl.
    destruct (Ascii.eqb_spec y c) as [->|]; [|discriminate].
    intros _. eapply nth_error_In, E.
  - intros H. apply orb_true_iff in Hr as [Hr|Hr].
    + eapply IHa; eauto.
    + apply m_inv in H as (st1 & H & _). eapply IHb; eauto.
  - apply andb_true_iff in Hr as [Ha Hb].
    destruct (Re.m fl text a st k) eqn:E.
    + intros _. eapply IHa; eauto.
    + eapply IHb; eauto.
  - eapply IHa; eauto.
Qed.

Lemma finditer_requires_char c r :
  Re.ignorecase fl = false ->
  requires_char c r = true ->
  ~ In c text ->
  Re.finditer fl text r = [].
Proof.
  intros Hfl Hr Hc.
  destruct (Re.finditer fl text r) as [|[b st] ms] eqn:E; [reflexivity|].
  exfalso. apply Hc.
  assert (H : In (b, st) (Re.finditer fl text r)) by (rewrite E; left; reflexivity).
  apply finditer_from_result in H as [adv H].
  unfold Re.match_at in H. eapply m_requires_char; eauto.
Qed.

End Matches.

Lemma all_chars_In test s c :
  all_chars test s = true -> In c (list_ascii_of_string s) -> test c = true.
Proof.
  induction s as [|x s IH]; simpl; [intros _ []|].
  intros H. apply andb_true_iff in H as [H1 H2].
  intros [<-|Hin]; auto.
Qed.

(** A case-sensitive rule whose pattern needs a character of some kind
    leaves a text without characters of that kind as it is. *)
Lemma sub_needs rule test fl text :
  Re.ignorecase fl = false ->
  rule_ok rule = true ->
  rule_needs test rule = true ->
  all_chars (fun c => negb (test c)) text = true ->
  Re.sub (fst rule) (snd rule) text fl = Some text.
Proof.
  intros Hfl Hok Hneeds Hall. unfold rule_ok, rule_needs in *. unfold Re.sub.
  destruct (Re.compile (fst rule)) as [[r n]|]; [|discriminate].
  destruct (Re.parse_template (list_ascii_of_string (snd rule))) as [tpl|];
    [|discriminate].
  rewrite Hok. apply existsb_exists in Hneeds as (c & _ & Hc).
  apply andb_true_iff in Hc as [Ht Hr].
  unfold Re.sub_list.
  rewrite (@finditer_requires_char fl (list_ascii_of_string text) c r Hfl Hr).
  - simpl. rewrite string_of_list_ascii_of_string. reflexivity.
  - intros Hin. pose proof (all_chars_In _ _ _ Hall Hin) as H.
    simpl in H. rewrite Ht in H. discriminate H.
Qed.


(* ================================================================== *)
(** * The rewrite rules: letter case and anchoring *)
(* ================================================================== *)

(** C3, as amended.  On texts of code points below 256:
    (1) The VB.NET-to-C# rules match whatever the letter case: two texts
    that differ in letter case only are rewritten at the same places, so
    their outputs differ in letter case only.
    (2) The VB-to-VB.NET rules and the C#-to-VB.NET rules see letter
    case: a VB-to-VB.NET rule leaves a text without the capitals A to Z as
    it is, and so does a C#-to-VB.NET rule, other than the three rules
    for the punctuation "//", ";" and "}", with a text without the small
    letters a to z.
    (3) Under every VB-to-VB.NET rule a match neither begins nor ends
    strictly inside an identifier.
    (4) Under every VB.NET-to-C# rule a match does not begin strictly
    inside an identifier, and but for the two rules "\bIf (.+) Then" and
    "\bElseIf" it does not end strictly inside one either. *)
Theorem rewrite_rules_matching :
  (forall s s' : string,
      Str.lower s = Str.lower s' ->
      exists out out',
        transpile_vbnet_to_csharp s = Some out
        /\ transpile_vbnet_to_csharp s' = Some out'
        /\ Str.lower out = Str.lower out')
  /\ (forall pattern replacement text,
         In (pattern, replacement) vb_to_vbnet_replacements ->
         all_chars (fun c => negb (is_ascii_upper c)) text = true ->
         Re.sub pattern replacement text Re.NOFLAGS = Some text)
  /\ (forall pattern replacement text,
         In (pattern, replacement) csharp_to_vbnet_conversions ->
         ~ In pattern ["//"; ";"; "\}"] ->
         all_chars (fun c => negb (is_ascii_lower c)) text = true ->
         Re.sub pattern replacement text Re.MULTILINE = Some text)
  /\ (forall pattern replacement,
         In (pattern, replacement) vb_to_vbnet_replacements ->
         exists r n,
           Re.compile pattern = Some (r, n)
           /\ forall text b st,
               In (b, st) (Re.finditer Re.NOFLAGS text r) ->
               inside_word text b = false
               /\ inside_word text (Re.pos st) = false)
  /\ (forall pattern replacement,
         In (pattern, replacement) vbnet_to_csharp_conversions ->
         exists r n,
           Re.compile pattern = Some (r, n)
           /\ forall text b st,
               In (b, st) (Re.finditer Re.IGNORECASE_MULTILINE text r) ->
               inside_word text b = false
               /\ (~ In pattern ["\bIf (.+) Then"; "\bElseIf"] ->
                   inside_word text (Re.pos st) = false)).
Proof.
  split; [|split; [|split; [|split]]].
  - intros s s' E.
    destruct (transpile_vbnet_to_csharp_total s) as [out H].
    destruct (@apply_rules_fold vbnet_to_csharp_conversions
                Re.IGNORECASE_MULTILINE eq_refl s s' out E H) as (out' & H' & E').
    exists out, out'. auto.
  - intros pattern replacement text Hin Hall.
    assert (A : forallb (fun rule => rule_ok rule && rule_needs is_ascii_upper rule)
                  vb_to_vbnet_replacements = true)
      by (vm_compute; reflexivity).
    rewrite forallb_forall in A. specialize (A _ Hin).
    apply andb_true_iff in A as [A1 A2].
    apply (@sub_needs (pattern, replacement) is_ascii_upper Re.NOFLAGS text
             eq_refl A1 A2 Hall).
  - intros pattern replacement text Hin Hp Hall.
    assert (A : forallb (fun rule => Str.mem (fst rule) ["//"; ";"; "\}"]
                                     || (rule_ok rule
                                         && rule_needs is_ascii_lower rule))
                  csharp_to_vbnet_conversions = true)
      by (vm_compute; reflexivity).
    rewrite forallb_forall in A. specialize (A _ Hin).
    apply orb_true_iff in A as [A|A].
    + exfalso. apply Hp. apply mem_true_iff. exact A.
    + apply andb_true_iff in A as [A1 A2].
      apply (@sub_needs (pattern, replacement) is_ascii_lower Re.MULTILINE text
               eq_refl A1 A2 Hall).
  - intros pattern replacement Hin.
    assert (A : forallb anchored_at_both_ends vb_to_vbnet_replacements = true)
      by (vm_compute; reflexivity).
    rewrite forallb_forall in A. specialize (A _ Hin).
    unfold anchored_at_both_ends in A. simpl fst in A.
    destruct (Re.compile pattern) as [[r n]|]; [|discriminate].
    apply andb_true_iff in A as [A1 A2].
    exists r, n. split; [reflexivity|].
    intros text b st H.
    destruct (@finditer_anchored Re.NOFLAGS text r b st H) as [B1 B2]. auto.
  - intros pattern replacement Hin.
    assert (A : forallb (fun rule =>
                           anchored_at_start rule
                           && (Str.mem (fst rule) ["\bIf (.+) Then"; "\bElseIf"]
                               || closed_at_end rule))
                  vbnet_to_csharp_conversions = true)
      by (vm_compute; reflexivity).
    rewrite forallb_forall in A. specialize (A _ Hin).
    apply andb_true_iff in A as [A1 A2].
    unfold anchored_at_start in A1. unfold closed_at_end in A2. simpl fst in *.
    destruct (Re.compile pattern) as [[r n]|]; [|discriminate].
    exists r, n. split; [reflexivity|].
    intros text b st H.
    destruct (@finditer_anchored Re.IGNORECASE_MULTILINE text r b st H) as [B1 _].
    split; [auto|]. intros Hp.
    apply orb_true_iff in A2 as [A2|A2].
    + exfalso. apply Hp. apply mem_true_iff. exact A2.
    + apply (@finditer_closed Re.IGNORECASE_MULTILINE text r b st H A2).
Qed.

(* ================================================================== *)
(** * Concrete runs *)
(* ================================================================== *)

(** C1 fails as stated: C# to C# is no supported pair, yet with
    augmentation enabled and an agent that answers, the request succeeds
    with the agent's text and a warning. *)
Lemma transpile_code_unsupported_pair_counterexample :
  let request := {| code := "class C { }"; source_lang := "csharp";
                    target_lang := "csharp"; use_mcp := true;
                    mcp_config := sample_config |} in
  let response :=
    fst (transpile_code sample_parser sample_uuid4 (answering "Class C")
           sample_str_exn request) in
  supported_pair (source_lang request) (target_lang request) = false
  /\ normalize (source_lang request) = normalize (target_lang request)
  /\ response = {| success := true; transpiled_code := Some "Class C";
                   warnings := ["Transpiled using MCP agent"]; errors := [];
                   method := "mcp-ai" |}
  /\ ~ unsupported_outcome request response.
Proof.
  cbv zeta. split; [reflexivity|]. split; [reflexivity|]. split; [reflexivity|].
  intros [H _]. discriminate H.
Qed.

Lemma transpile_code_unsupported_pair_witness :
  let request := {| code := "class C { }"; source_lang := "csharp";
                    target_lang := "C Sharp"; use_mcp := true;
                    mcp_config := sample_config |} in
  let unanswered :=
    transpile_code sample_parser sample_uuid4 unreachable sample_str_exn request in
  let answered :=
    transpile_code sample_parser sample_uuid4 (answering "Class C")
      sample_str_exn request in
  length (snd unanswered) = 1
  /\ (unsupported_outcome request (fst unanswered)
      /\ method (fst unanswered) = "rule-based")
  /\ length (snd answered) = 1
  /\ (agent_outcome sample_str_exn (JString "Class C") (fst answered)
      /\ ~ unsupported_outcome request (fst answered)
      /\ use_mcp request = true
      /\ truthy_dict (mcp_config request) = true
      /\ no_grammar (source_lang request) = false).
Proof.
  cbv zeta. split; [reflexivity|]. split; [|split; [reflexivity|]].
  - apply (proj1 (@transpile_code_unsupported_pair sample_parser sample_uuid4
                    unreachable sample_str_exn
                    {| code := "class C { }"; source_lang := "csharp";
                       target_lang := "C Sharp"; use_mcp := true;
                       mcp_config := sample_config |}
                    (or_intror eq_refl))).
    intros call [<-|[]]. reflexivity.
  - apply (proj2 (@transpile_code_unsupported_pair sample_parser sample_uuid4
                    (answering "Class C") sample_str_exn
                    {| code := "class C { }"; source_lang := "csharp";
                       target_lang := "C Sharp"; use_mcp := true;
                       mcp_config := sample_config |}
                    (or_intror eq_refl))
             {| call_url := Some (JString "https://test-mcp-server.com/api");
                call_headers := [("Content-Type", "application/json");
                                 ("Authorization", "Bearer test-key")];
                call_ast := Dict (Some "3f2b8c1e") (Some "compilation_unit")
                                 (Some 0) (Some 0) (Some "class C { }") (Some []);
                call_source_code := "class C { }";
                call_source_language := "csharp";
                call_target_language := "C Sharp";
                call_task := mcp_task "csharp" "C Sharp" |}
             [("result", JString "Class C")]).
    + left. reflexivity.
    + reflexivity.
Defined.

(** C2 fails as stated, on scenario C: the method tag is the tag of the
    direct pairs and there is one warning, not two. *)
Lemma transpile_code_two_step_counterexample :
  let request := {| code := "Dim x As Integer"; source_lang := "vb";
                    target_lang := "csharp"; use_mcp := false;
                    mcp_config := None |} in
  let response :=
    fst (transpile_code sample_parser sample_uuid4 unreachable sample_str_exn
           request) in
  response = {| success := true; transpiled_code := Some "int x;";
                warnings := [warn_two_step]; errors := [];
                method := "rule-based" |}
  /\ length (warnings response) = 1
  /\ ~ composed_outcome response.
Proof.
  cbv zeta. split; [vm_compute; reflexivity|]. split; [vm_compute; reflexivity|].
  intros [H _]. apply H. vm_compute. reflexivity.
Qed.

Lemma transpile_code_two_step_witness :
  exists vbnet_code transpiled,
    transpile_vb_to_vbnet "Dim x As Integer" = Some vbnet_code
    /\ transpile_vbnet_to_csharp vbnet_code = Some transpiled
    /\ transpile_code sample_parser sample_uuid4 unreachable sample_str_exn
         {| code := "Dim x As Integer"; source_lang := "VB";
            target_lang := "C#"; use_mcp := true; mcp_config := sample_config |}
       = ({| success := true; transpiled_code := Some transpiled;
             warnings := [warn_two_step]; errors := [];
             method := "rule-based" |}, []).
Proof.
  apply (@transpile_code_two_step sample_parser sample_uuid4 unreachable
           sample_str_exn
           {| code := "Dim x As Integer"; source_lang := "VB";
              target_lang := "C#"; use_mcp := true; mcp_config := sample_config |}).
  - reflexivity.
  - simpl. right. left. reflexivity.
Defined.

(** C3 fails as stated.  The VB-to-VB.NET rules see letter case: the
    declaration is tidied when spelled [Dim .. As Integer] and left alone
    in lower case; the C#-to-VB.NET rules see it too: [int x] becomes a
    declaration, [INT X] does not.  The C#-to-VB.NET rules are not
    anchored: the rule for [int] matches inside the identifier [print];
    and a VB.NET-to-C# rule rewrites the head of the identifier
    [ElseIfx]. *)
Lemma rewrite_rules_matching_counterexample :
  Str.lower "Dim  x  As  Integer" = Str.lower "dim  x  as  integer"
  /\ transpile_vb_to_vbnet "Dim  x  As  Integer" = Some "Dim x As Integer"
  /\ transpile_vb_to_vbnet "dim  x  as  integer" = Some "dim  x  as  integer"
  /\ Str.lower "int x" = Str.lower "INT X"
  /\ transpile_csharp_to_vbnet "int x" = Some "Dim x As Integer"
  /\ transpile_csharp_to_vbnet "INT X" = Some "INT X"
  /\ transpile_csharp_to_vbnet "print x" = Some "prDim x As Integer"
  /\ (exists r n st,
         Re.compile "int (\w+)" = Some (r, n)
         /\ In (2, st) (Re.finditer Re.MULTILINE (list_ascii_of_string "print x") r)
         /\ inside_word (list_ascii_of_string "print x") 2 = true)
  /\ transpile_vbnet_to_csharp "ElseIfx" = Some "} } else { ifx".
Proof.
  split; [reflexivity|]. split; [vm_compute; reflexivity|].
  split; [vm_compute; reflexivity|]. split; [reflexivity|].
  split; [vm_compute; reflexivity|]. split; [vm_compute; reflexivity|].
  split; [vm_compute; reflexivity|].
  split; [|vm_compute; reflexivity].
  eexists. eexists. eexists. split; [vm_compute; reflexivity|].
  split; [vm_compute; left; reflexivity | reflexivity].
Qed.

Lemma rewrite_rules_matching_witness :
  exists out out',
    transpile_vbnet_to_csharp "END CLASS" = Some out
    /\ transpile_vbnet_to_csharp "End Class" = Some out'
    /\ Str.lower out = Str.lower out'.
Proof.
  apply (proj1 rewrite_rules_matching "END CLASS" "End Class").
  reflexivity.
Defined.



Lemma transpile_code_vb_never_calls_agent_witness :
  let request := {| code := Str.join_lines ["Public Class Test"; "End Class"];
                    source_lang := "vbnet"; target_lang := "csharp";
                    use_mcp := true; mcp_config := sample_config |} in
  snd (transpile_code sample_parser sample_uuid4 (answering "class Test { }")
         sample_str_exn request) = []
  /\ fst (transpile_code sample_parser sample_uuid4 (answering "class Test { }")
            sample_str_exn request)
     = rule_based_response sample_str_exn request
  /\ method (fst (transpile_code sample_parser sample_uuid4
                    (answering "class Test { }") sample_str_exn request))
     = "rule-based"
  /\ method (fst (transpile_code sample_parser sample_uuid4
                    (answering "class Test { }") sample_str_exn request))
     <> "mcp-ai".
Proof.
  cbv zeta.
  apply (@transpile_code_vb_never_calls_agent sample_parser sample_uuid4
           (answering "class Test { }") sample_str_exn).
  simpl. right. left. reflexivity.
Defined.

Lemma parse_code_placeholder_summary_witness :
  let request := {| ci_code := "x = 1"; ci_source_lang := "vbnet" |} in
  semantic_tree (parse_code sample_parser sample_uuid4 request)
  = Some {| classes := [ {| name := "Parsed structure"; line := 0 |} ];
            methods := []; properties := []; imports := [] |}
  /\ option_map (fun t => map kind_of (children_of t))
       (ast (parse_code sample_parser sample_uuid4 request))
     = Some ["class_declaration"].
Proof.
  cbv zeta.
  apply (@parse_code_placeholder_summary sample_parser sample_uuid4).
  reflexivity.
Defined.

(* ================================================================== *)
(** * Further properties of the rule engine *)
(* ================================================================== *)

(** X1. A rule-based translation always carries exactly one message: a
    warning and no error when the pair is one of the four supported
    combinations, an error and no warning otherwise. *)
Theorem transpile_rule_based_one_message :
  forall code source_lang target_lang,
  exists transpiled warnings errors,
    transpile_rule_based code source_lang target_lang
    = Some (transpiled, warnings, errors)
    /\ length warnings + length errors = 1
    /\ (errors = [] <-> supported_pair source_lang target_lang = true).
Proof.
  intros code s t.
  destruct (supported_pair s t) eqn:Hp.
  - unfold supported_pair in Hp. unfold transpile_rule_based. cbv zeta in *.
    destruct (transpile_vb_to_vbnet_total code) as [o1 E1].
    destruct (transpile_vbnet_to_csharp_total code) as [o2 E2].
    destruct (transpile_csharp_to_vbnet_total code) as [o3 E3].
    destruct (transpile_vbnet_to_csharp_total o1) as [o4 E4].
    rewrite E1, E2, E3, E4.
    destruct (String.eqb (normalize s) "vb" && String.eqb (normalize t) "vbnet");
      [do 3 eexists; split; [reflexivity|]; split; [reflexivity|tauto]|].
    destruct (String.eqb (normalize s) "vbnet" && Str.mem (normalize t) ["csharp"; "c#"]);
      [do 3 eexists; split; [reflexivity|]; split; [reflexivity|tauto]|].
    destruct (Str.mem (normalize s) ["csharp"; "c#"] && String.eqb (normalize t) "vbnet");
      [do 3 eexists; split; [reflexivity|]; split; [reflexivity|tauto]|].
    destruct (String.eqb (normalize s) "vb" && Str.mem (normalize t) ["csharp"; "c#"]);
      [do 3 eexists; split; [reflexivity|]; split; [reflexivity|tauto]|].
    discriminate Hp.
  - rewrite (transpile_rule_based_unsupported _ _ _ Hp).
    do 3 eexists. split; [reflexivity|]. split; [reflexivity|].
    split; intros H; discriminate H.
Qed.

(** X2. For a supported pair the translation depends on the tags only
    through their normal form: letter case, spaces and periods in the
    tags do not matter. *)
Theorem transpile_rule_based_tag_spelling :
  forall code source_lang target_lang source_lang' target_lang',
    normalize source_lang = normalize source_lang' ->
    normalize target_lang = normalize target_lang' ->
    supported_pair source_lang target_lang = true ->
    transpile_rule_based code source_lang target_lang
    = transpile_rule_based code source_lang' target_lang'.
Proof.
  intros code s t s' t' Es Et Hp.
  unfold supported_pair in Hp. unfold transpile_rule_based. cbv zeta in *.
  rewrite <- Es, <- Et.
  destruct (String.eqb (normalize s) "vb" && String.eqb (normalize t) "vbnet");
    [reflexivity|].
  destruct (String.eqb (normalize s) "vbnet" && Str.mem (normalize t) ["csharp"; "c#"]);
    [reflexivity|].
  destruct (Str.mem (normalize s) ["csharp"; "c#"] && String.eqb (normalize t) "vbnet");
    [reflexivity|].
  destruct (String.eqb (normalize s) "vb" && Str.mem (normalize t) ["csharp"; "c#"]);
    [reflexivity|].
  discriminate Hp.
Qed.

Lemma transpile_rule_based_tag_spelling_witness :
  transpile_rule_based "Dim x As Integer" "VB.NET" "C#"
  = transpile_rule_based "Dim x As Integer" "vb net" "c #".
Proof.
  apply transpile_rule_based_tag_spelling; reflexivity.
Defined.

(** ** Tag normalization *)

Lemma remove_char_absent x s : has_char x (Str.remove_char x s) = false.
Proof.
  induction s as [|c s IH]; simpl; [reflexivity|].
  destruct (Ascii.eqb c x) eqn:E; [exact IH|]. simpl.
  rewrite Ascii.eqb_sym, E. exact IH.
Qed.

Lemma remove_char_keeps_absent x y s :
  has_char y s = false -> has_char y (Str.remove_char x s) = false.
Proof.
  induction s as [|c s IH]; simpl; [reflexivity|]. intros H.
  apply orb_false_iff in H as [H1 H2].
  destruct (Ascii.eqb c x); simpl; [auto|]. rewrite H1. auto.
Qed.

Lemma remove_char_keeps_all test x s :
  all_chars test s = true -> all_chars test (Str.remove_char x s) = true.
Proof.
  induction s as [|c s IH]; simpl; [reflexivity|]. intros H.
  apply andb_true_iff in H as [H1 H2].
  destruct (Ascii.eqb c x); simpl; [auto|]. rewrite H1. auto.
Qed.

Lemma remove_char_id x s : has_char x s = false -> Str.remove_char x s = s.
Proof.
  induction s as [|c s IH]; simpl; [reflexivity|]. intros H.
  apply orb_false_iff in H as [H1 H2].
  rewrite Ascii.eqb_sym, H1, IH by exact H2. reflexivity.
Qed.

Lemma lower_char_not_upper c : negb (is_upper (lower_char c)) = true.
Proof. destruct c as [[] [] [] [] [] [] [] []]; reflexivity. Qed.

Lemma lower_no_upper s : all_chars (fun c => negb (is_upper c)) (Str.lower s) = true.
Proof.
  induction s as [|c s IH]; simpl; [reflexivity|].
  rewrite lower_char_not_upper. exact IH.
Qed.

Lemma lower_id s :
  all_chars (fun c => negb (is_upper c)) s = true -> Str.lower s = s.
Proof.
  induction s as [|c s IH]; simpl; [reflexivity|]. intros H.
  apply andb_true_iff in H as [H1 H2]. rewrite IH by exact H2.
  unfold lower_char. apply negb_true_iff in H1. rewrite H1. reflexivity.
Qed.

(** X3. For a tag of code points below 256, the normalized tag holds no
    space, no period and no capital letter, neither one of A to Z nor one
    of the accented capitals U+00C0 to U+00DE, and normalizing it again
    changes nothing. *)
Theorem normalize_normal_form :
  forall lang : string,
    has_char " " (normalize lang) = false
    /\ has_char "." (normalize lang) = false
    /\ all_chars (fun c => negb (is_upper c)) (normalize lang) = true
    /\ normalize (normalize lang) = normalize lang.
Proof.
  intros lang.
  assert (H1 : has_char " " (normalize lang) = false).
  { unfold normalize. apply remove_char_keeps_absent, remove_char_absent. }
  assert (H2 : has_char "." (normalize lang) = false).
  { unfold normalize. apply remove_char_absent. }
  assert (H3 : all_chars (fun c => negb (is_upper c)) (normalize lang) = true).
  { unfold normalize. do 2 apply remove_char_keeps_all. apply lower_no_upper. }
  repeat split; try assumption.
  unfold normalize at 1.
  rewrite (lower_id _ H3), (remove_char_id _ _ H1), (remove_char_id _ _ H2).
  reflexivity.
Qed.

(* ================================================================== *)
(** * Further properties of the operations *)
(* ================================================================== *)

Section MoreOperations.

Variable parser_c_sharp : option (string -> option ts_node).
Variable uuid4 : nat -> string.
Variable http_post : mcp_call -> http_outcome.
Variable str_exn : exn -> string.

(** X4. Validation never rejects a text: the validity flag is always
    true and the error list empty; there is at most one warning, and the
    short-code warning appears exactly when a tree was built and the
    text, stripped of surrounding white space, has fewer than ten
    characters. *)
Theorem validate_code_never_rejects :
  forall request : ValidateRequest,
    let response := validate_code parser_c_sharp uuid4 request in
    valid response = true
    /\ v_errors response = []
    /\ length (v_warnings response) <= 1
    /\ (In code_very_short (v_warnings response)
        <-> parse_code_to_ast parser_c_sharp uuid4 (vr_code request)
              (vr_language request) <> None
            /\ String.length (Str.strip (vr_code request)) < 10).
Proof.
  intros request. cbv zeta. unfold validate_code.
  destruct (parse_code_to_ast _ _ _ _) as [tree|]; simpl.
  - destruct (Nat.ltb_spec (String.length (Str.strip (vr_code request))) 10) as [L|L];
      simpl.
    + split; [reflexivity|]. split; [reflexivity|]. split; [lia|].
      split; [intros _; split; [discriminate | exact L] | intros _; left; reflexivity].
    + split; [reflexivity|]. split; [reflexivity|]. split; [lia|].
      split; [intros [] | intros [_ H]; lia].
  - split; [reflexivity|]. split; [reflexivity|]. split; [lia|].
    split; [intros [H|[]]; discriminate H | intros [H _]; contradiction].
Qed.

(** What [transpile_code] does on each of its paths. *)
Lemma transpile_code_cases request :
  (snd (transpile_code parser_c_sharp uuid4 http_post str_exn request) = []
   /\ fst (transpile_code parser_c_sharp uuid4 http_post str_exn request)
      = rule_based_response str_exn request
   /\ (use_mcp request && truthy_dict (mcp_config request) = false
       \/ parse_code_to_ast parser_c_sharp uuid4 (code request)
            (source_lang request) = None))
  \/ (exists tree,
        use_mcp request = true
        /\ truthy_dict (mcp_config request) = true
        /\ parse_code_to_ast parser_c_sharp uuid4 (code request)
             (source_lang request) = Some tree
        /\ let cfg := get_or [] (mcp_config request) in
           let result :=
             call_mcp_server http_post (dict_get "server_url" cfg)
               (dict_get "api_key" cfg) tree (code request)
               (source_lang request) (target_lang request) in
           snd (transpile_code parser_c_sharp uuid4 http_post str_exn request)
           = [fst result]
           /\ fst (transpile_code parser_c_sharp uuid4 http_post str_exn request)
              = if mcp_success (snd result)
                then mcp_ai_response str_exn (mcp_transpiled_code (snd result))
                else rule_based_response str_exn request).
Proof.
  unfold transpile_code.
  destruct (use_mcp request && truthy_dict (mcp_config request)) eqn:E;
    [|left; auto].
  destruct (parse_code_to_ast _ _ _ _) as [tree|] eqn:P; [|left; auto].
  right. exists tree. apply andb_true_iff in E as [E1 E2].
  repeat split; auto; cbv zeta;
    destruct (call_mcp_server _ _ _ _ _ _ _) as [call response]; simpl;
    destruct (mcp_success response); reflexivity.
Qed.

(** X5. A transpile request makes at most one call to the agent, and it
    makes one exactly when augmentation is requested, the connection
    parameters are a non-empty dictionary and a tree was built; there is
    no retry. *)
Theorem transpile_code_at_most_one_call :
  forall request : TranspileRequest,
    let calls := snd (transpile_code parser_c_sharp uuid4 http_post str_exn request) in
    length calls <= 1
    /\ (length calls = 1
        <-> use_mcp request = true
            /\ truthy_dict (mcp_config request) = true
            /\ parse_code_to_ast parser_c_sharp uuid4 (code request)
                 (source_lang request) <> None).
Proof.
  intros request. cbv zeta.
  destruct (transpile_code_cases request) as [(E & _ & H)|(tree & U & T & P & H)].
  - rewrite E. simpl. split; [lia|]. split; [discriminate|].
    intros (H1 & H2 & H3). destruct H as [H|H]; [|contradiction].
    rewrite H1, H2 in H. discriminate H.
  - cbv zeta in H. destruct H as [E _]. rewrite E. simpl. split; [lia|].
    split; [|reflexivity]. intros _. rewrite P. repeat split; auto. discriminate.
Qed.

(** The headers of a call: the content type, and the credential when
    there is one. *)
Lemma headers_credential (api_key : option json) :
  (let headers := [("Content-Type", "application/json")] in
   if truthy api_key
   then headers ++ [("Authorization",
                     ("Bearer " ++ py_str (get_or JNull api_key))%string)]
   else headers)
  = ("Content-Type", "application/json")
    :: match credential api_key with
       | Some value => [("Authorization", value)]
       | None => []
       end.
Proof.
  destruct api_key as [[|[]|r|r|[|c t]|[|x l]|[|f l]]|]; try reflexivity.
  - simpl. destruct (String.eqb r "0"); reflexivity.
  - simpl. rewrite orb_false_r.
    destruct (String.eqb r "0.0" || String.eqb r "-0.0"); reflexivity.
Qed.

(** X6. The call a transpile request makes carries the request as it
    is: the text, both tags, the address from the connection parameters
    (a value of any kind, or none) and the tree built from the text.  Its
    headers are the content type and, when the key is true in Python's
    sense (a non-empty text, list or dictionary, a number other than
    zero, or true), the credential "Bearer " followed by the key as [str]
    shows it: the key itself for a text, its digits for a number. *)
Theorem transpile_code_call_contents :
  forall (request : TranspileRequest) (call : mcp_call),
    In call (snd (transpile_code parser_c_sharp uuid4 http_post str_exn request)) ->
    let cfg := get_or [] (mcp_config request) in
    call_source_code call = code request
    /\ call_source_language call = source_lang request
    /\ call_target_language call = target_lang request
    /\ call_url call = dict_get "server_url" cfg
    /\ parse_code_to_ast parser_c_sharp uuid4 (code request) (source_lang request)
       = Some (call_ast call)
    /\ call_headers call
       = ("Content-Type", "application/json")
         :: match credential (dict_get "api_key" cfg) with
            | Some value => [("Authorization", value)]
            | None => []
            end.
Proof.
  intros request call Hin. cbv zeta.
  destruct (transpile_code_cases request) as [(E & _)|(tree & U & T & P & H)].
  - rewrite E in Hin. destruct Hin.
  - cbv zeta in H. destruct H as [E _]. rewrite E in Hin.
    destruct Hin as [<-|[]]. unfold call_mcp_server. cbn [fst].
    cbn [call_source_code call_source_language call_target_language call_url
         call_ast call_headers].
    repeat split; auto. apply headers_credential.
Qed.

(** X7. When the agent answers a call with status 200 and a JSON object,
    the rule engine is not consulted and the response is decided by the
    translation the reply carries (the value under "result" when that key
    is there, else the one under "transpiled_code", else the empty text).
    A text gives the agent's response with that text, the agent warning
    and the agent's method tag; null gives the same without text; any
    other value gives the error response. *)
Theorem transpile_code_agent_answer :
  forall (request : TranspileRequest) (call : mcp_call)
         (data : list (string * json)),
    In call (snd (transpile_code parser_c_sharp uuid4 http_post str_exn request)) ->
    http_post call = Response 200 (inr (JObject data)) ->
    fst (transpile_code parser_c_sharp uuid4 http_post str_exn request)
    = match translation_field data with
      | JString text =>
          {| success := true; transpiled_code := Some text;
             warnings := ["Transpiled using MCP agent"]; errors := [];
             method := "mcp-ai" |}
      | JNull =>
          {| success := true; transpiled_code := None;
             warnings := ["Transpiled using MCP agent"]; errors := [];
             method := "mcp-ai" |}
      | other =>
          {| success := false; transpiled_code := None; warnings := [];
             errors := [str_exn (ValidationError other)]; method := "error" |}
      end.
Proof.
  intros request call data Hin Hpost.
  rewrite (@transpile_code_answered parser_c_sharp uuid4 http_post str_exn
             request call data Hin Hpost).
  destruct (translation_field data); reflexivity.
Qed.

(** X8. In every transpile response the success flag is set exactly when
    the error list is empty and the method tag is one of "rule-based",
    "mcp-ai" and "error"; a rule-based response always carries a text, an
    error response never does. *)
Theorem transpile_code_response_invariant :
  forall request : TranspileRequest,
    let response := fst (transpile_code parser_c_sharp uuid4 http_post str_exn request) in
    (success response = true <-> errors response = [])
    /\ In (method response) METHOD_TAGS
    /\ (method response = "rule-based" -> transpiled_code response <> None)
    /\ (method response = "error" -> transpiled_code response = None).
Proof.
  intros request. cbv zeta.
  assert (R : let r := rule_based_response str_exn request in
              (success r = true <-> errors r = [])
              /\ In (method r) METHOD_TAGS
              /\ (method r = "rule-based" -> transpiled_code r <> None)
              /\ (method r = "error" -> transpiled_code r = None)).
  { cbv zeta. unfold rule_based_response.
    destruct (transpile_rule_based_total (code request) (source_lang request)
                (target_lang request)) as (o & w & e & ->). simpl.
    repeat split; try (left; reflexivity); try discriminate.
    - destruct e; simpl; [reflexivity | discriminate].
    - intros ->. reflexivity. }
  assert (A : forall v, let r := mcp_ai_response str_exn v in
              (success r = true <-> errors r = [])
              /\ In (method r) METHOD_TAGS
              /\ (method r = "rule-based" -> transpiled_code r <> None)
              /\ (method r = "error" -> transpiled_code r = None)).
  { intros [[]|]; simpl; repeat split; auto; try discriminate. }
  destruct (transpile_code_cases request) as [(_ & -> & _)|(tree & _ & _ & _ & H)].
  - exact R.
  - cbv zeta in H. destruct H as [_ ->].
    destruct (mcp_success _); [apply A | exact R].
Qed.

End MoreOperations.

Lemma transpile_code_call_contents_witness :
  let request := {| code := "class C { }"; source_lang := "C#";
                    target_lang := "vbnet"; use_mcp := true;
                    mcp_config :=
                      Some [("server_url", JString "https://test-mcp-server.com/api");
                            ("api_key", JNumber "12345")] |} in
  let call := {| call_url := Some (JString "https://test-mcp-server.com/api");
                 call_headers := [("Content-Type", "application/json");
                                  ("Authorization", "Bearer 12345")];
                 call_ast := Dict (Some "3f2b8c1e") (Some "compilation_unit")
                                  (Some 0) (Some 0) (Some "class C { }") (Some []);
                 call_source_code := "class C { }";
                 call_source_language := "C#";
                 call_target_language := "vbnet";
                 call_task := mcp_task "C#" "vbnet" |} in
  call_source_code call = code request
  /\ call_source_language call = source_lang request
  /\ call_target_language call = target_lang request
  /\ call_url call = dict_get "server_url" (get_or [] (mcp_config request))
  /\ parse_code_to_ast sample_parser sample_uuid4 (code request) (source_lang request)
     = Some (call_ast call)
  /\ call_headers call
     = ("Content-Type", "application/json")
       :: match credential (dict_get "api_key" (get_or [] (mcp_config request))) with
          | Some value => [("Authorization", value)]
          | None => []
          end.
Proof.
  cbv zeta.
  apply (@transpile_code_call_contents sample_parser sample_uuid4 unreachable
           sample_str_exn).
  vm_compute. left. reflexivity.
Defined.

Lemma transpile_code_agent_answer_witness :
  fst (transpile_code sample_parser sample_uuid4 (answering "Class C") sample_str_exn
         {| code := "class C { }"; source_lang := "csharp";
            target_lang := "vbnet"; use_mcp := true;
            mcp_config := sample_config |})
  = {| success := true; transpiled_code := Some "Class C";
       warnings := ["Transpiled using MCP agent"]; errors := [];
       method := "mcp-ai" |}.
Proof.
  apply (@transpile_code_agent_answer sample_parser sample_uuid4
           (answering "Class C") sample_str_exn _
           {| call_url := Some (JString "https://test-mcp-server.com/api");
              call_headers := [("Content-Type", "application/json");
                               ("Authorization", "Bearer test-key")];
              call_ast := Dict (Some "3f2b8c1e") (Some "compilation_unit")
                               (Some 0) (Some 0) (Some "class C { }") (Some []);
              call_source_code := "class C { }";
              call_source_language := "csharp";
              call_target_language := "vbnet";
              call_task := mcp_task "csharp" "vbnet" |}
           [("result", JString "Class C")]).
  - vm_compute. left. reflexivity.
  - reflexivity.
Defined.

(* ================================================================== *)
(** * The connection test *)
(* ================================================================== *)

(** X9. The connection test makes one request, to the address in the
    connection parameters and with the headers of the gateway.  When the
    request raises, nothing is raised further: the report is no success,
    no status code and the exception's text after "Error: ".  When it is
    answered, the report carries the status, success exactly for 200 and
    201, and "Connection successful" or "Connection failed"
    accordingly. *)
Theorem test_mcp_connection_report :
  forall (http_get : option json -> list (string * string) -> http_outcome)
         (request : config),
    let report := test_mcp_connection http_get request in
    let headers :=
      ("Content-Type", "application/json")
      :: match credential (dict_get "api_key" request) with
         | Some value => [("Authorization", value)]
         | None => []
         end in
    let outcome := http_get (dict_get "server_url" request) headers in
    (forall what,
        outcome = Raised what ->
        report = {| conn_success := false; conn_status_code := None;
                    conn_message := ("Error: " ++ what)%string |})
    /\ (forall status body,
          outcome = Response status body ->
          conn_status_code report = Some status
          /\ (conn_success report = true <-> status = 200 \/ status = 201)
          /\ conn_message report
             = if conn_success report then "Connection successful"
               else "Connection failed")
    /\ (conn_success report = true
        <-> exists body,
              outcome = Response 200 body \/ outcome = Response 201 body).
Proof.
  intros http_get request. cbv zeta. unfold test_mcp_connection. cbv zeta.
  rewrite headers_credential.
  destruct (http_get _ _) as [what|status body]; simpl.
  - split; [intros w [= <-]; reflexivity|].
    split; [intros st b H; discriminate H|].
    split; [discriminate | intros [b [H|H]]; discriminate H].
  - split; [intros w H; discriminate H|].
    destruct (Nat.eqb_spec status 200) as [->|N1]; simpl.
    + split; [intros st b [= <- _]; repeat split; auto|].
      split; [eauto | reflexivity].
    + destruct (Nat.eqb_spec status 201) as [->|N2]; simpl.
      * split; [intros st b [= <- _]; repeat split; auto|].
        split; [eauto | reflexivity].
      * split.
        -- intros st b [= <- _]. split; [reflexivity|].
           split; [split; [discriminate | intros [H|H]; congruence] | reflexivity].
        -- split; [discriminate | intros [b [H|H]]; congruence].
Qed.

(** X10. Given the same outcome of the request, whatever the gateway
    takes as an answer passes the connection test too, and the two
    disagree in exactly two cases: status 201, whatever the body, and
    status 200 with a body that is no JSON object; the test does not read
    the body.  On an exception and on every other status both report
    failure. *)
Theorem connection_test_versus_gateway :
  forall (outcome : http_outcome)
         (request : config) (server_url api_key : option json)
         (ast_data : ast_dict) (source_code source target : string),
    let report := test_mcp_connection (fun _ _ => outcome) request in
    let answer :=
      snd (call_mcp_server (fun _ => outcome)
             server_url api_key ast_data source_code source target) in
    (mcp_success answer = true -> conn_success report = true)
    /\ (conn_success report = true /\ mcp_success answer = false
        <-> exists status body,
              outcome = Response status body
              /\ (status = 201
                  \/ (status = 200 /\ forall data, body <> inr (JObject data))))
    /\ ((forall status body, outcome = Response status body ->
                             status <> 200 /\ status <> 201) ->
        conn_success report = false /\ mcp_success answer = false).
Proof.
  intros outcome request url key tree src s t. cbv zeta.
  unfold test_mcp_connection, call_mcp_server. cbv zeta. cbn [snd].
  destruct outcome as [what|status body]; simpl.
  - split; [discriminate|]. split; [|auto].
    split; [intros [H _]; discriminate H | intros (st & b & H & _); discriminate H].
  - destruct (Nat.eqb_spec status 200) as [->|N1]; simpl.
    + split; [reflexivity|]. split.
      * split.
        -- intros [_ H]. exists 200, body. split; [reflexivity|]. right.
           split; [reflexivity|]. intros data ->. discriminate H.
        -- intros (st & b & [= <- <-] & [E|[_ H]]); [discriminate E|].
           split; [reflexivity|].
           destruct body as [w|[]]; try reflexivity.
           exfalso. eapply H. reflexivity.
      * intros H. destruct (H 200 body eq_refl) as [H1 _]. congruence.
    + destruct (Nat.eqb_spec status 201) as [->|N2]; simpl.
      * split; [discriminate|]. split.
        -- split; [intros _; exists 201, body; auto | auto].
        -- intros H. destruct (H 201 body eq_refl) as [_ H2]. congruence.
      * split; [discriminate|]. split; [|auto].
        split; [intros [H _]; discriminate H|].
        intros (st & b & [= <- <-] & [E|[E _]]); congruence.
Qed.

(* ================================================================== *)
(** * Further properties of the trees *)
(* ================================================================== *)

Lemma take_length n s : String.length (Str.take n s) <= n.
Proof.
  unfold Str.take. revert s. induction n as [|n IH]; intros s; simpl.
  - destruct s; simpl; lia.
  - destruct s as [|c s]; simpl; [lia|]. specialize (IH s). lia.
Qed.

Lemma take_empty n : Str.take n "" = "".
Proof. destruct n; reflexivity. Qed.

Lemma tree_to_dict_text text :
  Some match text with
       | Some t => if String.eqb t "" then "" else Str.take TEXT_CAP t
       | None => ""
       end
  = excerpt text.
Proof.
  unfold excerpt. destruct text as [t|]; simpl; [|reflexivity].
  destruct (String.eqb_spec t "") as [->|]; reflexivity.
Qed.

(** The children loop, child by child. *)
Lemma each_child_spec uuid4 max_depth depth :
  forall cs width drawn,
    fst (each_child uuid4 max_depth depth width cs drawn)
    = match width, cs with
      | S w, child :: rest =>
          fst (tree_to_dict uuid4 child max_depth depth drawn)
          :: fst (each_child uuid4 max_depth depth w rest
                    (snd (tree_to_dict uuid4 child max_depth depth drawn)))
      | _, _ => []
      end
    /\ snd (each_child uuid4 max_depth depth width cs drawn)
       = match width, cs with
         | S w, child :: rest =>
             snd (each_child uuid4 max_depth depth w rest
                    (snd (tree_to_dict uuid4 child max_depth depth drawn)))
         | _, _ => drawn
         end.
Proof.
  intros [|c cs] [|w] drawn; simpl; auto.
  destruct (tree_to_dict uuid4 c max_depth depth drawn) as [d n1]. simpl.
  destruct (each_child uuid4 max_depth depth w cs n1) as [ds n2]. auto.
Qed.

Lemma tree_to_dict_prune uuid4 max_depth node :
  forall current_depth drawn,
    current_depth <= max_depth ->
    ts_of_dict (fst (tree_to_dict uuid4 node max_depth current_depth drawn))
    = prune (max_depth - current_depth) node.
Proof.
  induction node as [type s e text children IH] using ts_node_rect'.
  intros cd drawn Hcd. rewrite tree_to_dict_unfold.
  destruct (Nat.ltb_spec max_depth cd) as [Hlt|_]; [lia|].
  destruct (max_depth - cd) as [|d] eqn:Hd.
  - assert (E : (cd <? max_depth) = false) by (apply Nat.ltb_ge; lia).
    rewrite E, andb_false_r. simpl. rewrite tree_to_dict_text. reflexivity.
  - assert (E : (cd <? max_depth) = true) by (apply Nat.ltb_lt; lia).
    rewrite E, andb_true_r.
    assert (K : forall w n,
      map ts_of_dict (fst (each_child uuid4 max_depth (S cd) w children n))
      = map (prune d) (firstn w children)).
    { clear E. induction IH as [|c cs Hc _ IHcs]; intros w n.
      - destruct w; reflexivity.
      - destruct (each_child_spec uuid4 max_depth (S cd) (c :: cs) w n) as [-> _].
        destruct w as [|w]; [reflexivity|]. simpl.
        rewrite Hc by lia. rewrite IHcs.
        replace (max_depth - S cd) with d by lia. reflexivity. }
    destruct (0 <? length children) eqn:Hne.
    + specialize (K MAX_CHILDREN (S drawn)).
      destruct (each_child uuid4 max_depth (S cd) MAX_CHILDREN children (S drawn))
        as [kids drawn'].
      simpl in *. rewrite tree_to_dict_text, K. reflexivity.
    + apply Nat.ltb_ge in Hne. destruct children; [|simpl in Hne; lia].
      simpl. rewrite tree_to_dict_text. reflexivity.
Qed.

(** X11. Identifiers aside, the Tree Normalizer's output is the native
    tree cut to 50 levels below the root and to the first 20 children of
    each node, with each text cut to its first 100 characters: kinds,
    line numbers and the order of the children are kept as they are. *)
Theorem tree_to_dict_is_pruning :
  forall (uuid4 : nat -> string) (node : ts_node) (drawn : nat),
    ts_of_dict (fst (tree_to_dict uuid4 node MAX_DEPTH 0 drawn))
    = prune MAX_DEPTH node.
Proof.
  intros uuid4 node drawn.
  rewrite (tree_to_dict_prune uuid4 (max_depth := MAX_DEPTH) node (current_depth := 0))
    by lia.
  reflexivity.
Qed.

Lemma tree_to_dict_ids uuid4 max_depth node :
  forall current_depth drawn,
    current_depth <= max_depth ->
    let out := tree_to_dict uuid4 node max_depth current_depth drawn in
    snd out = drawn + length (preorder (fst out))
    /\ map get_id (preorder (fst out))
       = map (fun i => Some (Str.take 8 (uuid4 i)))
             (seq drawn (length (preorder (fst out)))).
Proof.
  induction node as [type s e text children IH] using ts_node_rect'.
  intros cd drawn Hcd. cbv zeta. rewrite tree_to_dict_unfold.
  destruct (Nat.ltb_spec max_depth cd) as [Hlt|_]; [lia|].
  destruct ((0 <? length children) && (cd <? max_depth)) eqn:Hgo.
  - apply andb_true_iff in Hgo as [_ Hdeep]. apply Nat.ltb_lt in Hdeep.
    assert (K : forall w n,
      let r := each_child uuid4 max_depth (S cd) w children n in
      snd r = n + length (flat_map preorder (fst r))
      /\ map get_id (flat_map preorder (fst r))
         = map (fun i => Some (Str.take 8 (uuid4 i)))
               (seq n (length (flat_map preorder (fst r))))).
    { induction IH as [|c cs Hc _ IHcs]; intros w n; cbv zeta.
      - destruct w; simpl; auto.
      - destruct (each_child_spec uuid4 max_depth (S cd) (c :: cs) w n) as [-> ->].
        destruct w as [|w]; [simpl; auto|].
        specialize (Hc (S cd) n ltac:(lia)). cbv zeta in Hc.
        destruct Hc as [Hc1 Hc2].
        specialize (IHcs w (snd (tree_to_dict uuid4 c max_depth (S cd) n))).
        cbv zeta in IHcs. destruct IHcs as [I1 I2].
        cbn [flat_map]. rewrite length_app, map_app, seq_app, map_app.
        rewrite I1, Hc1 at 1. split; [lia|].
        rewrite Hc2 at 1. f_equal. rewrite I2 at 1. rewrite Hc1. reflexivity. }
    specialize (K MAX_CHILDREN (S drawn)). cbv zeta in K.
    destruct (each_child uuid4 max_depth (S cd) MAX_CHILDREN children (S drawn))
      as [kids drawn'].
    simpl in *. destruct K as [K1 K2]. split; [lia|].
    f_equal. rewrite K2. reflexivity.
  - simpl. split; [lia | reflexivity].
Qed.

Lemma NoDup_map_on {A B : Type} (f : A -> B) (l : list A) :
  (forall x y, In x l -> In y l -> f x = f y -> x = y) ->
  NoDup l -> NoDup (map f l).
Proof.
  intros Hinj H. induction H as [|x l Hx H IH]; simpl; constructor.
  - intros Hin. apply in_map_iff in Hin as (y & E & Hy).
    apply Hx. rewrite (Hinj x y); simpl; auto.
  - apply IH. intros a b Ha Hb. apply Hinj; simpl; auto.
Qed.

(** X12. The normalizer draws one identifier per node of its output and
    hands them out in depth-first order, parents before children: the
    k-th node carries the first 8 characters of the k-th UUID drawn.  So
    the identifiers of a tree are pairwise distinct whenever those
    prefixes are. *)
Theorem tree_to_dict_identifiers :
  forall (uuid4 : nat -> string) (node : ts_node) (drawn : nat),
    let out := tree_to_dict uuid4 node MAX_DEPTH 0 drawn in
    let count := length (preorder (fst out)) in
    snd out = drawn + count
    /\ map get_id (preorder (fst out))
       = map (fun i => Some (Str.take 8 (uuid4 i))) (seq drawn count)
    /\ ((forall i j, drawn <= i < drawn + count -> drawn <= j < drawn + count ->
                     Str.take 8 (uuid4 i) = Str.take 8 (uuid4 j) -> i = j) ->
        NoDup (map get_id (preorder (fst out)))).
Proof.
  intros uuid4 node drawn. cbv zeta.
  destruct (tree_to_dict_ids uuid4 (max_depth := MAX_DEPTH) node
              (current_depth := 0) drawn ltac:(lia)) as [H1 H2].
  split; [exact H1|]. split; [exact H2|].
  intros Hinj. rewrite H2.
  generalize (length (preorder (fst (tree_to_dict uuid4 node MAX_DEPTH 0 drawn)))) Hinj.
  intros count Hc.
  apply NoDup_map_on; [|apply seq_NoDup].
  intros i j Hi Hj E. apply in_seq in Hi, Hj.
  injection E as E. apply Hc; auto.
Qed.

Lemma tree_to_dict_identifiers_witness :
  NoDup (map get_id (preorder (fst (tree_to_dict numbered_uuid4 sample_tree
                                      MAX_DEPTH 0 0)))).
Proof.
  apply (proj2 (proj2 (tree_to_dict_identifiers numbered_uuid4 sample_tree 0))).
  simpl. intros i j Hi Hj.
  assert (Ei : i = 0 \/ i = 1 \/ i = 2) by lia.
  assert (Ej : j = 0 \/ j = 1 \/ j = 2) by lia.
  destruct Ei as [-> | [-> | ->]], Ej as [-> | [-> | ->]]; vm_compute; congruence.
Defined.

Lemma tree_to_dict_well_formed uuid4 max_depth node :
  forall current_depth drawn,
    current_depth <= max_depth ->
    Forall well_formed_node
      (preorder (fst (tree_to_dict uuid4 node max_depth current_depth drawn))).
Proof.
  induction node as [type s e text children IH] using ts_node_rect'.
  intros cd drawn Hcd. rewrite tree_to_dict_unfold.
  destruct (Nat.ltb_spec max_depth cd) as [Hlt|_]; [lia|].
  assert (Hroot : forall kids, length kids <= MAX_CHILDREN ->
    well_formed_node
      (Dict (Some (Str.take 8 (uuid4 drawn))) (Some type) (Some s) (Some e)
         (Some match text with
               | Some t => if String.eqb t "" then "" else Str.take TEXT_CAP t
               | None => ""
               end) (Some kids))).
  { intros kids Hk. unfold well_formed_node. simpl.
    split; [eexists; split; [reflexivity | apply take_length]|].
    split; [discriminate|]. split; [discriminate|]. split; [discriminate|].
    split; [|eauto].
    rewrite tree_to_dict_text. unfold excerpt.
    eexists; split; [reflexivity | apply take_length]. }
  destruct ((0 <? length children) && (cd <? max_depth)) eqn:Hgo.
  - apply andb_true_iff in Hgo as [_ Hdeep]. apply Nat.ltb_lt in Hdeep.
    pose proof (each_child_length uuid4 max_depth (S cd) MAX_CHILDREN children
                  (S drawn)) as Hlen.
    rewrite length_firstn in Hlen.
    assert (K : forall w n,
      Forall well_formed_node
        (flat_map preorder (fst (each_child uuid4 max_depth (S cd) w children n)))).
    { clear Hlen. induction IH as [|c cs Hc _ IHcs]; intros w n.
      - destruct w; constructor.
      - destruct (each_child_spec uuid4 max_depth (S cd) (c :: cs) w n) as [-> _].
        destruct w as [|w]; [constructor|]. cbn [flat_map].
        apply Forall_app. split; [apply Hc; lia | apply IHcs]. }
    specialize (K MAX_CHILDREN (S drawn)).
    destruct (each_child uuid4 max_depth (S cd) MAX_CHILDREN children (S drawn))
      as [kids drawn'].
    cbn [fst snd] in *. simpl. constructor; [|exact K].
    apply Hroot. rewrite Hlen. apply Nat.le_min_l.
  - simpl. constructor; [|constructor]. apply Hroot. simpl. lia.
Qed.

Lemma mock_ast_well_formed uuid4 code :
  Forall well_formed_node (preorder (mock_ast uuid4 code)).
Proof.
  unfold mock_ast. simpl.
  constructor; [|constructor; [|constructor]]; unfold well_formed_node; simpl.
  - split; [eexists; split; [reflexivity | simpl; lia]|].
    split; [discriminate|]. split; [discriminate|]. split; [discriminate|].
    split; [eexists; split; [reflexivity | apply take_length]|].
    eexists; split; [reflexivity | simpl; unfold MAX_CHILDREN; lia].
  - split; [eexists; split; [reflexivity | apply take_length]|].
    split; [discriminate|]. split; [discriminate|]. split; [discriminate|].
    split; [eexists; split; [reflexivity | simpl; unfold TEXT_CAP; lia]|].
    eexists; split; [reflexivity | simpl; lia].
Qed.

Section ParseShape.

Variable parser_c_sharp : option (string -> option ts_node).
Variable uuid4 : nat -> string.

(** X13. A parse request always succeeds with a tree, from the grammar
    or the placeholder, and every node of that tree carries all six
    keys, an identifier of at most 8 characters, a text of at most 100
    characters and at most 20 children; the summary returned with it
    lists no imports. *)
Theorem parse_code_tree_shape :
  forall request : CodeInput,
    let response := parse_code parser_c_sharp uuid4 request in
    ast_success response = true
    /\ ast_error response = None
    /\ (exists tree,
           ast response = Some tree
           /\ Forall well_formed_node (preorder tree)
           /\ exists summary,
               semantic_tree response = Some summary /\ imports summary = [])
.
Proof.
  intros request. cbv zeta. unfold parse_code. simpl.
  split; [reflexivity|]. split; [reflexivity|].
  eexists. split; [reflexivity|]. split.
  - unfold parse_code_to_ast.
    destruct (Str.mem _ _); [destruct parser_c_sharp as [parse|];
      [destruct (parse (ci_code request)) as [root|]|]|].
    + apply tree_to_dict_well_formed. lia.
    + apply mock_ast_well_formed.
    + apply mock_ast_well_formed.
    + apply mock_ast_well_formed.
  - eexists. split; [reflexivity|].
    unfold build_semantic_tree. rewrite traverse_spec. reflexivity.
Qed.

End ParseShape.

(** X14. Every entry of a semantic summary comes from a node of the
    tree: its name is at most 50 characters, the start of that node's
    text (empty when the node has none), and its line is the node's
    start line (0 when the node has none). *)
Theorem build_semantic_tree_entries :
  forall (tree : ast_dict) (e : entry),
    In e (classes (build_semantic_tree tree)
          ++ methods (build_semantic_tree tree)
          ++ properties (build_semantic_tree tree)) ->
    String.length (name e) <= 50
    /\ exists node,
        In node (preorder tree)
        /\ name e = Str.take 50 (get_or "" (get_text node))
        /\ line e = get_or 0 (get_start_line node).
Proof.
  intros tree e. unfold build_semantic_tree. rewrite traverse_spec. simpl.
  assert (M : forall c, In e (members c (preorder tree)) ->
            exists node, In node (preorder tree) /\ e = entry_of node).
  { intros c H. unfold members in H. apply in_map_iff in H as (n & <- & Hn).
    apply filter_In in Hn as [Hn _]. eauto. }
  intros H. rewrite !in_app_iff in H.
  assert (exists node, In node (preorder tree) /\ e = entry_of node)
    as (node & Hn & ->) by (destruct H as [H|[H|H]]; eapply M; eauto).
  split; [apply take_length|]. exists node. auto.
Qed.

Lemma build_semantic_tree_entries_witness :
  let tree :=
    Dict (Some "root") (Some "compilation_unit") (Some 0) (Some 9)
         (Some "namespace Demo")
         (Some [ Dict (Some "a1b2c3d4") (Some "class_declaration") (Some 7) (Some 9)
                      (Some "public class Calculator { public int Add(int a, int b) { return a + b; } }")
                      (Some []) ]) in
  let e := {| name := "public class Calculator { public int Add(int a, in";
              line := 7 |} in
  String.length (name e) <= 50
  /\ exists node,
      In node (preorder tree)
      /\ name e = Str.take 50 (get_or "" (get_text node))
      /\ line e = get_or 0 (get_start_line node).
Proof.
  cbv zeta.
  apply (build_semantic_tree_entries
           (Dict (Some "root") (Some "compilation_unit") (Some 0) (Some 9)
                 (Some "namespace Demo")
                 (Some [ Dict (Some "a1b2c3d4") (Some "class_declaration")
                              (Some 7) (Some 9)
                              (Some "public class Calculator { public int Add(int a, int b) { return a + b; } }")
                              (Some []) ]))).
  vm_compute. left. reflexivity.
Defined.

(* ================================================================== *)
(** * Lines *)
(* ================================================================== *)

Lemma append_empty_r s : (s ++ "")%string = s.
Proof. induction s as [|c s IH]; simpl; [reflexivity | rewrite IH; reflexivity]. Qed.

Lemma append_assoc_string a b c : ((a ++ b) ++ c)%string = (a ++ (b ++ c))%string.
Proof. induction a as [|x a IH]; simpl; [reflexivity | rewrite IH; reflexivity]. Qed.

Lemma string_of_list_app l l' :
  string_of_list_ascii (l ++ l')
  = (string_of_list_ascii l ++ string_of_list_ascii l')%string.
Proof. induction l as [|x l IH]; simpl; [reflexivity | rewrite IH; reflexivity]. Qed.

Lemma rev_cons_string c s : Str.rev (String c s) = (Str.rev s ++ String c "")%string.
Proof. unfold Str.rev. simpl. rewrite string_of_list_app. reflexivity. Qed.

Lemma is_newline_eq c : is_newline c = true -> c = newline.
Proof. destruct c as [[] [] [] [] [] [] [] []]; vm_compute; congruence. Qed.

Lemma split_lines_aux_cons cur s :
  exists l rest, Str.split_lines_aux cur s = l :: rest.
Proof.
  revert cur. induction s as [|c s IH]; intros cur; simpl; [eauto|].
  destruct (is_newline c); [eauto | apply IH].
Qed.

Lemma join_lines_cons x y rest :
  Str.join_lines (x :: y :: rest)
  = (x ++ String newline (Str.join_lines (y :: rest)))%string.
Proof. reflexivity. Qed.

Lemma join_split_lines_aux s :
  forall cur,
    Str.join_lines (Str.split_lines_aux cur s) = (Str.rev cur ++ s)%string.
Proof.
  induction s as [|c s IH]; intros cur; simpl.
  - symmetry. apply append_empty_r.
  - destruct (is_newline c) eqn:E.
    + apply is_newline_eq in E. subst c.
      specialize (IH ""%string).
      destruct (split_lines_aux_cons "" s) as (l & rest & R).
      rewrite R in *. rewrite join_lines_cons, IH. reflexivity.
    + rewrite IH, rev_cons_string, append_assoc_string. reflexivity.
Qed.

(** X15. Splitting a text at its line feeds and joining the pieces with
    line feeds gives the text back, and the line pass of the C#-to-VB.NET
    direction keeps every line; so that pass, stack and all, leaves the
    text exactly as it found it. *)
Theorem line_pass_leaves_text :
  forall text : string,
    Str.join_lines (Str.split_lines text) = text
    /\ Str.join_lines (fst (line_pass (Str.split_lines text))) = text.
Proof.
  intros text.
  assert (E : Str.join_lines (Str.split_lines text) = text).
  { unfold Str.split_lines. rewrite join_split_lines_aux. reflexivity. }
  split; [exact E|]. rewrite line_pass_keeps_lines. exact E.
Qed.

(* ================================================================== *)
(** * The scan of a substitution *)
(* ================================================================== *)

Section Scan.

Variable fl : Re.flags.
Variable text : list ascii.

Lemma search_spec r fuel :
  forall adv i,
    match Re.search fl text r adv i fuel with
    | Some (b, st) =>
        i <= b < i + fuel
        /\ Re.match_at fl text r (adv && (b =? i)) b = Some st
        /\ forall j, i <= j < b -> Re.match_at fl text r (adv && (j =? i)) j = None
    | None =>
        forall j, i <= j < i + fuel ->
                  Re.match_at fl text r (adv && (j =? i)) j = None
    end.
Proof.
  induction fuel as [|f IH]; intros adv i; simpl; [intros j Hj; lia|].
  destruct (Re.match_at fl text r adv i) as [st|] eqn:E.
  - split; [lia|]. rewrite Nat.eqb_refl, andb_true_r. split; [exact E|].
    intros j Hj. lia.
  - specialize (IH false (S i)).
    assert (A : forall j, i <= j ->
      Re.match_at fl text r (adv && (j =? i)) j
      = if j =? i then None else Re.match_at fl text r (false && (j =? S i)) j).
    { intros j Hj. destruct (Nat.eqb_spec j i) as [->|N].
      - rewrite andb_true_r. exact E.
      - rewrite andb_false_r. reflexivity. }
    destruct (Re.search fl text r false (S i) f) as [[b st]|].
    + destruct IH as (R & M & B). split; [lia|].
      rewrite A by lia. destruct (Nat.eqb_spec b i); [lia|].
      split; [exact M|]. intros j Hj. rewrite A by lia.
      destruct (Nat.eqb_spec j i); [reflexivity|]. apply B. lia.
    + intros j Hj. rewrite A by lia.
      destruct (Nat.eqb_spec j i); [reflexivity|]. apply IH. lia.
Qed.

(** With enough fuel the matches [re.sub] replaces are a scan. *)
Lemma finditer_from_scan r :
  forall fuel i adv,
    i <= length text ->
    2 * (length text - i) + Nat.b2n (negb adv) < fuel ->
    scan fl text r i adv (Re.finditer_from fl text r fuel i adv).
Proof.
  induction fuel as [|f IH]; intros i adv Hi Hf; [lia|].
  cbn [Re.finditer_from].
  pose proof (search_spec r (S (length text - i)) adv i) as Sp.
  pose proof (@search_bounds fl text r (S (length text - i)) adv i) as B.
  destruct (Re.search fl text r adv i (S (length text - i))) as [[b st]|].
  - destruct Sp as (R & M & N).
    destruct (B b st eq_refl) as (_ & L & U & A).
    assert (Hb : b <= length text) by lia. specialize (U Hb).
    apply scan_match; auto; try lia.
    apply IH; [lia|].
    destruct (Nat.eqb_spec (Re.pos st) b) as [Eb|Nb]; simpl.
    + destruct (Nat.eq_dec b i) as [->|Ni].
      * destruct adv; [specialize (A eq_refl eq_refl); lia | simpl in *; lia].
      * destruct adv; simpl in *; lia.
    + destruct adv; simpl in *; lia.
  - apply scan_end. intros j Hj. apply Sp. lia.
Qed.

Lemma finditer_scan r : scan fl text r 0 false (Re.finditer fl text r).
Proof. unfold Re.finditer. apply finditer_from_scan; simpl; lia. Qed.

(** ** Where the characters of the result come from *)

Lemma in_skipn_text n c : In c (skipn n text) -> In c text.
Proof. intros H. rewrite <- (firstn_skipn n text). apply in_or_app. auto. Qed.

Lemma slice_incl a b c : In c (Re.slice text a b) -> In c text.
Proof.
  unfold Re.slice. intros H. apply (in_skipn_text a).
  rewrite <- (firstn_skipn (b - a) (skipn a text)). apply in_or_app. auto.
Qed.

Lemma expand_chars tpl st c :
  In c (Re.expand text tpl st) -> In c text \/ writes_char c tpl = true.
Proof.
  unfold Re.expand. induction tpl as [|[x|n] tpl IH]; simpl; [intros []| |].
  - intros [->|H]; [right; rewrite Ascii.eqb_refl; reflexivity|].
    destruct (IH H) as [?| ->]; [auto | right; apply orb_true_r].
  - rewrite in_app_iff. intros [H|H].
    + destruct (Re.group_span n (Re.groups st)) as [[a b]|]; [|destruct H].
      left. eapply slice_incl, H.
    + apply IH in H. simpl. exact H.
Qed.

Lemma splice_chars tpl ms c :
  forall last,
    In c (Re.splice text tpl last ms) -> In c text \/ writes_char c tpl = true.
Proof.
  induction ms as [|[b st] ms IH]; intros last; simpl.
  - intros H. left. apply (in_skipn_text last), H.
  - rewrite !in_app_iff. intros [H|[H|H]].
    + left. eapply slice_incl, H.
    + eapply expand_chars, H.
    + eapply IH, H.
Qed.

End Scan.

(* ================================================================== *)
(** * Characters the translations remove for good *)
(* ================================================================== *)

Lemma has_char_In c s : has_char c s = true <-> In c (list_ascii_of_string s).
Proof.
  induction s as [|x s IH]; simpl; [split; [discriminate | intros []]|].
  rewrite orb_true_iff, IH, Ascii.eqb_eq. split; intros [H|H]; auto.
Qed.

Lemma has_char_false c s : has_char c s = false <-> ~ In c (list_ascii_of_string s).
Proof.
  rewrite <- has_char_In. destruct (has_char c s); split; congruence.
Qed.

Section SingleCharacter.

Variable fl : Re.flags.
Variable text : list ascii.
Variable c : ascii.

Lemma cs_match_self : Re.cs_match fl (Re.CsChar c) c = true.
Proof. simpl. destruct (Re.ignorecase fl); apply Ascii.eqb_refl. Qed.

Lemma match_at_single adv j :
  match Re.match_at fl text (single_char c) adv j with
  | Some st => st = {| Re.pos := S j; Re.groups := [] |}
  | None => nth_error text j <> Some c
  end.
Proof.
  unfold Re.match_at, single_char. cbn [Re.m]. simpl Re.pos.
  destruct (nth_error text j) as [x|] eqn:E; [|discriminate].
  destruct (Re.cs_match fl (Re.CsChar c) x) eqn:M.
  - assert (N : (S j =? j) = false) by (apply Nat.eqb_neq; lia).
    unfold Re.advance. cbn [Re.pos Re.groups]. rewrite N, andb_false_r. reflexivity.
  - intros [= ->]. rewrite cs_match_self in M. discriminate M.
Qed.

Lemma slice_nth a b x :
  In x (Re.slice text a b) -> exists j, a <= j < b /\ nth_error text j = Some x.
Proof.
  unfold Re.slice. intros H. apply In_nth_error in H as [k H].
  rewrite nth_error_firstn in H.
  destruct (Nat.ltb_spec k (b - a)); [|discriminate].
  rewrite nth_error_skipn in H. exists (a + k). split; [lia | exact H].
Qed.

Lemma skipn_nth a x :
  In x (skipn a text) ->
  exists j, a <= j <= length text /\ nth_error text j = Some x.
Proof.
  intros H. apply In_nth_error in H as [k H].
  rewrite nth_error_skipn in H. exists (a + k). split; [|exact H].
  assert (a + k < length text) by (apply nth_error_Some; congruence). lia.
Qed.

Lemma scan_single_removed tpl ms :
  writes_char c tpl = false ->
  forall i adv,
    scan fl text (single_char c) i adv ms -> ~ In c (Re.splice text tpl i ms).
Proof.
  intros Htpl i adv H. induction H as [i adv N|i adv b st ms Hb N M Hst Hs IH]; simpl.
  - intros Hin. apply skipn_nth in Hin as (j & Hj & E).
    specialize (N j Hj). pose proof (match_at_single (adv && (j =? i)) j) as S.
    rewrite N in S. contradiction.
  - rewrite !in_app_iff. intros [Hin|[Hin|Hin]].
    + apply slice_nth in Hin as (j & Hj & E).
      specialize (N j Hj). pose proof (match_at_single (adv && (j =? i)) j) as S.
      rewrite N in S. contradiction.
    + pose proof (match_at_single (adv && (b =? i)) b) as S. rewrite M in S.
      subst st. clear - Hin Htpl. unfold Re.expand in Hin. simpl in Hin.
      induction tpl as [|[x|n] tpl IH]; simpl in *; [destruct Hin| |].
      * apply orb_false_iff in Htpl as [H1 H2].
        destruct Hin as [->|Hin]; [rewrite Ascii.eqb_refl in H1; discriminate|].
        auto.
      * auto.
    + contradiction.
Qed.

Lemma sub_list_single_removed tpl :
  writes_char c tpl = false -> ~ In c (Re.sub_list fl text (single_char c) tpl).
Proof.
  intros H. unfold Re.sub_list. eapply scan_single_removed; [exact H|].
  apply finditer_scan.
Qed.

End SingleCharacter.

(** A substitution writes no character but those of the text and of the
    template. *)
Lemma sub_keeps_absent c pattern replacement text fl out tpl :
  Re.parse_template (list_ascii_of_string replacement) = Some tpl ->
  writes_char c tpl = false ->
  has_char c text = false ->
  Re.sub pattern replacement text fl = Some out ->
  has_char c out = false.
Proof.
  intros Ht Hw Hc. unfold Re.sub. rewrite Ht.
  destruct (Re.compile pattern) as [[r n]|]; [|discriminate].
  destruct (Re.max_ref tpl <=? n); [|discriminate]. intros [= <-].
  apply has_char_false. rewrite list_ascii_of_string_of_list_ascii.
  intros Hin. apply splice_chars in Hin as [Hin|Hin].
  - apply has_char_false in Hc. contradiction.
  - congruence.
Qed.

Lemma apply_rules_keep_absent c rules fl :
  rules_never_write c rules = true ->
  forall text out,
    has_char c text = false ->
    apply_rules rules fl text = Some out ->
    has_char c out = false.
Proof.
  induction rules as [|[p rp] rules IH]; simpl; intros Hr text out Hc.
  - intros [= <-]. exact Hc.
  - apply andb_true_iff in Hr as [H1 H2].
    destruct (Re.parse_template (list_ascii_of_string rp)) as [tpl|] eqn:Et;
      [|discriminate].
    apply negb_true_iff in H1.
    destruct (Re.sub p rp text fl) as [t1|] eqn:E1; [|discriminate].
    apply (IH H2). eapply sub_keeps_absent; eauto.
Qed.

(** A substitution whose pattern is the one character [c] and whose
    template does not write it leaves no [c]. *)
Lemma sub_removes_char c pattern replacement text fl out tpl :
  Re.compile pattern = Some (Re.Seq (Re.Chr (Re.CsChar c)) Re.Eps, 0) ->
  Re.parse_template (list_ascii_of_string replacement) = Some tpl ->
  writes_char c tpl = false ->
  Re.sub pattern replacement text fl = Some out ->
  has_char c out = false.
Proof.
  intros Hp Ht Hw. unfold Re.sub. rewrite Hp, Ht.
  destruct (Re.max_ref tpl <=? 0); [|discriminate]. intros [= <-].
  apply has_char_false. rewrite list_ascii_of_string_of_list_ascii.
  apply sub_list_single_removed, Hw.
Qed.

Lemma apply_rules_app a b fl text :
  apply_rules (a ++ b) fl text
  = match apply_rules a fl text with
    | Some t => apply_rules b fl t
    | None => None
    end.
Proof.
  revert text. induction a as [|[p rp] a IH]; intros text; simpl; [reflexivity|].
  destruct (Re.sub p rp text fl); [apply IH | reflexivity].
Qed.

Lemma csharp_table_split_semicolon :
  csharp_to_vbnet_conversions
  = firstn 1 csharp_to_vbnet_conversions
    ++ (";", "") :: skipn 2 csharp_to_vbnet_conversions.
Proof. reflexivity. Qed.

Lemma csharp_table_split_brace :
  csharp_to_vbnet_conversions
  = firstn 16 csharp_to_vbnet_conversions ++ ("\}", "") :: nil.
Proof. reflexivity. Qed.

Lemma csharp_table_split_property :
  csharp_to_vbnet_conversions
  = firstn 1 csharp_to_vbnet_conversions
    ++ (";", "")
       :: firstn 6 (skipn 2 csharp_to_vbnet_conversions)
    ++ ("public (\w+) (\w+) \{ get; set; \}", "Public Property \2() As \1")
       :: skipn 9 csharp_to_vbnet_conversions.
Proof. reflexivity. Qed.

Lemma vbnet_table_split_apostrophe :
  vbnet_to_csharp_conversions
  = ("'", "//") :: skipn 1 vbnet_to_csharp_conversions.
Proof. reflexivity. Qed.

(** The single-character rules, as [re] reads them. *)
Lemma sub_semicolon text out :
  Re.sub ";" "" text Re.MULTILINE = Some out -> has_char ";" out = false.
Proof.
  apply (@sub_removes_char ";" ";" "" text Re.MULTILINE out []);
    vm_compute; reflexivity.
Qed.

Lemma sub_brace text out :
  Re.sub "\}" "" text Re.MULTILINE = Some out -> has_char "}" out = false.
Proof.
  apply (@sub_removes_char "}" "\}" "" text Re.MULTILINE out []);
    vm_compute; reflexivity.
Qed.

Lemma sub_apostrophe text out :
  Re.sub "'" "//" text Re.IGNORECASE_MULTILINE = Some out ->
  has_char "'" out = false.
Proof.
  apply (@sub_removes_char "'" "'" "//" text Re.IGNORECASE_MULTILINE out
           [Re.TLit "/"; Re.TLit "/"]);
    vm_compute; reflexivity.
Qed.

(** The closing steps of [transpile_csharp_to_vbnet] write neither
    character. *)
Lemma csharp_tail_keeps_absent c t1 t2 out :
  has_char c "PublicPrivate Class End" = false ->
  c <> newline ->
  has_char c t1 = false ->
  Re.sub "(Public|Private) Class" "\1 Class" t1 Re.NOFLAGS = Some t2 ->
  Re.sub "(Public|Private) Class ([\w\s]+?)(?=\n(?:Public|Private|End|$))"
         "\1 Class \2\nEnd Class" t2 Re.MULTILINE_DOTALL = Some out ->
  has_char c out = false.
Proof.
  intros Hc Hn H1 E2 E3.
  assert (W : forall s, has_char c s = false ->
                        writes_char c (map Re.TLit (list_ascii_of_string s)) = false).
  { induction s as [|x s IH]; simpl; [reflexivity|]. intros H.
    apply orb_false_iff in H as [Hx Hs]. rewrite Ascii.eqb_sym, Hx. auto. }
  assert (W1 : writes_char c (Re.TRef 1 :: map Re.TLit (list_ascii_of_string " Class"))
               = false).
  { simpl writes_char at 1. apply (W " Class"%string).
    vm_compute in Hc. vm_compute.
    repeat (apply orb_false_iff in Hc as [? Hc]).
    repeat (apply orb_false_iff; split); auto. }
  assert (W2 : writes_char c
                 (Re.TRef 1 :: map Re.TLit (list_ascii_of_string " Class ")
                  ++ Re.TRef 2 :: Re.TLit newline
                  :: map Re.TLit (list_ascii_of_string "End Class")) = false).
  { unfold writes_char. cbn [existsb orb]. rewrite existsb_app. cbn [existsb orb].
    apply orb_false_iff. split.
    - apply (W " Class "%string). vm_compute in Hc. vm_compute.
      repeat (apply orb_false_iff in Hc as [? Hc]).
      repeat (apply orb_false_iff; split); auto.
    - apply orb_false_iff. split.
      + apply Ascii.eqb_neq. congruence.
      + apply (W "End Class"%string). vm_compute in Hc. vm_compute.
        repeat (apply orb_false_iff in Hc as [? Hc]).
        repeat (apply orb_false_iff; split); auto. }
  eapply sub_keeps_absent; [| exact W2 | | exact E3]; [vm_compute; reflexivity|].
  eapply sub_keeps_absent; [| exact W1 | exact H1 | exact E2].
  vm_compute; reflexivity.
Qed.

(** X16. The C#-to-VB.NET translation of any text holds no semicolon
    and no closing brace: the rules delete every one of them and nothing
    later writes one. *)
Theorem transpile_csharp_to_vbnet_strips :
  forall code : string,
  exists out,
    transpile_csharp_to_vbnet code = Some out
    /\ has_char ";" out = false
    /\ has_char "}" out = false.
Proof.
  intros code.
  destruct (transpile_csharp_to_vbnet_total code) as [out E].
  exists out. split; [exact E|].
  unfold transpile_csharp_to_vbnet in E.
  destruct (apply_rules csharp_to_vbnet_conversions Re.MULTILINE code)
    as [t1|] eqn:E1; [|discriminate].
  destruct (Re.sub "(Public|Private) Class" "\1 Class" t1 Re.NOFLAGS)
    as [t2|] eqn:E2; [|discriminate].
  cbv zeta in E. rewrite line_pass_keeps_lines in E.
  assert (J : Str.join_lines (Str.split_lines t2) = t2).
  { unfold Str.split_lines. rewrite join_split_lines_aux. reflexivity. }
  rewrite J in E.
  split.
  - apply (fun h1 h2 h3 => @csharp_tail_keeps_absent ";" t1 t2 out h1 h2 h3 E2 E);
      [vm_compute; reflexivity | discriminate |].
    rewrite csharp_table_split_semicolon, !apply_rules_app in E1.
    destruct (apply_rules (firstn 1 csharp_to_vbnet_conversions) _ _) as [u|];
      [|discriminate].
    cbn [apply_rules app] in E1.
    destruct (Re.sub ";" "" u Re.MULTILINE) as [v|] eqn:Ev; [|discriminate].
    eapply apply_rules_keep_absent; [| | exact E1]; [vm_compute; reflexivity|].
    eapply sub_semicolon, Ev.
  - apply (fun h1 h2 h3 => @csharp_tail_keeps_absent "}" t1 t2 out h1 h2 h3 E2 E);
      [vm_compute; reflexivity | discriminate |].
    rewrite csharp_table_split_brace, apply_rules_app in E1.
    destruct (apply_rules (firstn 16 csharp_to_vbnet_conversions) _ _) as [u|];
      [|discriminate].
    cbn [apply_rules app] in E1.
    destruct (Re.sub "\}" "" u Re.MULTILINE) as [v|] eqn:Ev; [|discriminate].
    injection E1 as <-. eapply sub_brace, Ev.
Qed.

(** X17. The VB.NET-to-C# translation of any text holds no apostrophe:
    the first rule turns each one into a comment opener and no later rule
    writes one. *)
Theorem transpile_vbnet_to_csharp_no_apostrophe :
  forall code : string,
  exists out,
    transpile_vbnet_to_csharp code = Some out /\ has_char "'" out = false.
Proof.
  intros code.
  destruct (transpile_vbnet_to_csharp_total code) as [out E].
  exists out. split; [exact E|].
  unfold transpile_vbnet_to_csharp in E.
  rewrite vbnet_table_split_apostrophe in E.
  cbn [apply_rules] in E.
  destruct (Re.sub "'" "//" code Re.IGNORECASE_MULTILINE) as [v|] eqn:Ev;
    [|discriminate].
  eapply apply_rules_keep_absent; [| | exact E]; [vm_compute; reflexivity|].
  eapply sub_apostrophe, Ev.
Qed.

(** The pattern of the auto-property rule finds nothing in a text
    without semicolon. *)
Lemma property_rule_needs_semicolon t :
  has_char ";" t = false ->
  Re.sub "public (\w+) (\w+) \{ get; set; \}" "Public Property \2() As \1"
         t Re.MULTILINE = Some t.
Proof.
  intros Hc. unfold Re.sub.
  destruct (Re.compile "public (\w+) (\w+) \{ get; set; \}") as [[r n]|] eqn:Ec;
    [|vm_compute in Ec; discriminate Ec].
  assert (Hr : requires_char ";" r = true /\ n = 2).
  { vm_compute in Ec. injection Ec as <- <-. split; vm_compute; reflexivity. }
  destruct Hr as [Hr ->].
  destruct (Re.parse_template (list_ascii_of_string "Public Property \2() As \1"))
    as [tpl|] eqn:Et; [|vm_compute in Et; discriminate Et].
  assert (Hm : (Re.max_ref tpl <=? 2) = true).
  { vm_compute in Et. injection Et as <-. vm_compute. reflexivity. }
  rewrite Hm. unfold Re.sub_list.
  rewrite (@finditer_requires_char Re.MULTILINE (list_ascii_of_string t) ";" r
             eq_refl Hr).
  - simpl. rewrite string_of_list_ascii_of_string. reflexivity.
  - apply has_char_false, Hc.
Qed.

(** X18. The auto-property rule of the C#-to-VB.NET table, the ninth,
    never fires: its pattern needs semicolons, and the second rule has
    deleted them all before its turn.  The table translates every text
    as it would without that rule. *)
Theorem csharp_property_rule_is_dead :
  nth_error csharp_to_vbnet_conversions 8
  = Some ("public (\w+) (\w+) \{ get; set; \}", "Public Property \2() As \1")
  /\ forall code : string,
      (exists t,
          apply_rules (firstn 8 csharp_to_vbnet_conversions) Re.MULTILINE code = Some t
          /\ Re.sub "public (\w+) (\w+) \{ get; set; \}" "Public Property \2() As \1"
               t Re.MULTILINE = Some t)
      /\ apply_rules csharp_to_vbnet_conversions Re.MULTILINE code
         = apply_rules (firstn 8 csharp_to_vbnet_conversions
                        ++ skipn 9 csharp_to_vbnet_conversions) Re.MULTILINE code.
Proof.
  split; [reflexivity|]. intros code.
  assert (F : firstn 8 csharp_to_vbnet_conversions
              = firstn 1 csharp_to_vbnet_conversions
                ++ (";", "") :: firstn 6 (skipn 2 csharp_to_vbnet_conversions))
    by reflexivity.
  destruct (apply_rules_total (firstn 8 csharp_to_vbnet_conversions) Re.MULTILINE)
    with (text := code) as [t Et]; [vm_compute; reflexivity|].
  assert (Hc : has_char ";" t = false).
  { rewrite F, !apply_rules_app in Et.
    destruct (apply_rules (firstn 1 csharp_to_vbnet_conversions) _ _) as [u|];
      [|discriminate].
    cbn [apply_rules app] in Et.
    destruct (Re.sub ";" "" u Re.MULTILINE) as [v|] eqn:Ev; [|discriminate].
    eapply apply_rules_keep_absent; [| | exact Et]; [vm_compute; reflexivity|].
    eapply sub_semicolon, Ev. }
  pose proof (property_rule_needs_semicolon _ Hc) as Hdead.
  split; [exists t; auto|].
  rewrite csharp_table_split_property at 1.
  change (firstn 1 csharp_to_vbnet_conversions
          ++ (";", "") :: firstn 6 (skipn 2 csharp_to_vbnet_conversions)
          ++ ?x :: ?l)
    with ((firstn 1 csharp_to_vbnet_conversions
           ++ (";", "") :: firstn 6 (skipn 2 csharp_to_vbnet_conversions))
          ++ x :: l).
  rewrite <- F, !apply_rules_app, Et. cbn [apply_rules].
  rewrite Hdead. reflexivity.
Qed.

(* ================================================================== *)
(** * What a match consumes and what replaces it *)
(* ================================================================== *)

Lemma firstn_plus {A : Type} (n k : nat) (l : list A) :
  firstn (n + k) l = firstn n l ++ firstn k (skipn n l).
Proof.
  revert l. induction n as [|n IH]; intros l; simpl; [reflexivity|].
  destruct l as [|x l]; simpl.
  - rewrite firstn_nil. reflexivity.
  - rewrite IH. reflexivity.
Qed.

Lemma all_ascii_complete c : In c all_ascii.
Proof.
  unfold all_ascii. rewrite <- (ascii_nat_embedding c).
  apply in_map, in_seq. pose proof (nat_ascii_bounded c). lia.
Qed.

Lemma drops_sound fl keep cs c :
  drops fl keep cs = true -> Re.cs_match fl cs c = true -> keep c = false.
Proof.
  unfold drops. rewrite forallb_forall. intros H M.
  specialize (H c (all_ascii_complete c)). rewrite M in H.
  destruct (keep c); [discriminate | reflexivity].
Qed.

Lemma titems_eqb_eq a b : titems_eqb a b = true -> a = b.
Proof.
  revert b. induction a as [|x a IH]; intros [|y b]; simpl; try discriminate;
    [reflexivity|].
  intros H. apply andb_true_iff in H as [H1 H2]. f_equal; [|apply IH, H2].
  destruct x, y; simpl in H1; try discriminate.
  - apply Ascii.eqb_eq in H1. congruence.
  - apply Nat.eqb_eq in H1. congruence.
Qed.

Lemma keep_chars_list keep s :
  keep_chars keep s = string_of_list_ascii (filter keep (list_ascii_of_string s)).
Proof.
  induction s as [|c s IH]; simpl; [reflexivity|].
  destruct (keep c); simpl; rewrite IH; reflexivity.
Qed.

Lemma keep_chars_any s : keep_chars any_char s = s.
Proof. induction s as [|c s IH]; simpl; [reflexivity | rewrite IH; reflexivity]. Qed.

Section Consumed.

Variable fl : Re.flags.
Variable text : list ascii.

Lemma slice_empty a : Re.slice text a a = [].
Proof. unfold Re.slice. rewrite Nat.sub_diag. reflexivity. Qed.

Lemma slice_app a b c :
  a <= b -> b <= c ->
  Re.slice text a c = Re.slice text a b ++ Re.slice text b c.
Proof.
  intros Hab Hbc. unfold Re.slice.
  replace (c - a) with ((b - a) + (c - b)) by lia.
  rewrite firstn_plus, skipn_skipn.
  replace (b - a + a) with b by lia. reflexivity.
Qed.

Lemma slice_one i c : nth_error text i = Some c -> Re.slice text i (S i) = [c].
Proof.
  intros H. unfold Re.slice. replace (S i - i) with 1 by lia.
  rewrite <- (Nat.add_0_r i) in H. rewrite <- nth_error_skipn in H.
  destruct (skipn i text) as [|x l]; [discriminate|].
  simpl in H. injection H as ->. reflexivity.
Qed.

Lemma skipn_slice a b :
  a <= b -> skipn a text = Re.slice text a b ++ skipn b text.
Proof.
  intros H. unfold Re.slice.
  rewrite <- (firstn_skipn (b - a) (skipn a text)) at 1.
  rewrite skipn_skipn. replace (b - a + a) with b by lia. reflexivity.
Qed.

(** The matcher is sound for [spans]. *)
Lemma m_sound r :
  forall st k res,
    Re.m fl text r st k = Some res ->
    exists st', spans fl text r st st' /\ k st' = Some res.
Proof.
  induction r as [|cs| | |a IHa b IHb|a IHa b IHb|n a IHa|greedy a IHa|a IHa];
    intros st k res; cbn [Re.m spans].
  - eauto.
  - destruct (nth_error text (Re.pos st)) as [c|] eqn:E; [|discriminate].
    destruct (Re.cs_match fl cs c) eqn:M; [|discriminate]. eauto 7.
  - destruct (Re.boundary text (Re.pos st)); [eauto | discriminate].
  - destruct (Re.at_eol fl text (Re.pos st)); [eauto | discriminate].
  - intros H. apply IHa in H as (mid & Sa & H).
    apply IHb in H as (st' & Sb & H). eauto.
  - destruct (Re.m fl text a st k) eqn:E.
    + intros [= <-]. apply IHa in E as (st' & S & E). eauto.
    + intros H. apply IHb in H as (st' & S & H). eauto.
  - intros H. apply IHa in H as (st1 & S & H). eauto.
  - generalize (S (length text - Re.pos st)). intros fuel. revert st.
    assert (step : forall f st,
      (forall st0, Re.star_loop greedy (Re.m fl text a) k f st0 = Some res ->
         exists st', star_rel (spans fl text a) st0 st' /\ k st' = Some res) ->
      Re.m fl text a st (fun st1 =>
         if Re.pos st <? Re.pos st1
         then Re.star_loop greedy (Re.m fl text a) k f st1 else None) = Some res ->
      exists st', star_rel (spans fl text a) st st' /\ k st' = Some res).
    { intros f st IHf E. apply IHa in E as (st1 & S1 & E).
      destruct (Nat.ltb_spec (Re.pos st) (Re.pos st1)); [|discriminate].
      apply IHf in E as (st2 & S2 & E).
      exists st2. split; [eapply star_more; eauto | exact E]. }
    induction fuel as [|f IHf]; intros st; simpl.
    + intros H. exists st. split; [apply star_stop | exact H].
    + destruct greedy.
      * destruct (Re.m fl text a st _) eqn:E.
        -- intros [= <-]. eapply step; eauto.
        -- intros H. exists st. split; [apply star_stop | exact H].
      * destruct (k st) eqn:E0.
        -- intros [= <-]. exists st. split; [apply star_stop | exact E0].
        -- intros E. eapply step; eauto.
  - destruct (Re.m fl text a st _) as [st1|] eqn:E; [|discriminate].
    apply IHa in E as (st1' & S & [= ->]). eauto.
Qed.

(** A match moves on, stays in the text and only adds groups of its own. *)
Lemma spans_mono r :
  forall st st',
    spans fl text r st st' ->
    Re.pos st <= Re.pos st'
    /\ exists new,
        Re.groups st' = new ++ Re.groups st
        /\ Forall (fun e => In (fst e) (gnums r)) new.
Proof.
  induction r as [|cs| | |a IHa b IHb|a IHa b IHb|n a IHa|greedy a IHa|a IHa];
    intros st st'; cbn [spans gnums].
  - intros ->. split; [lia|]. exists []. auto.
  - intros (c & _ & _ & ->). simpl. split; [lia|]. exists []. auto.
  - intros (_ & ->). split; [lia|]. exists []. auto.
  - intros (_ & ->). split; [lia|]. exists []. auto.
  - intros (mid & Sa & Sb).
    apply IHa in Sa as (La & na & Ea & Fa). apply IHb in Sb as (Lb & nb & Eb & Fb).
    split; [lia|]. exists (nb ++ na). rewrite Eb, Ea, app_assoc. split; [reflexivity|].
    apply Forall_app. split; eapply Forall_impl; try eassumption;
      intros e He; apply in_or_app; auto.
  - intros [S|S]; [apply IHa in S | apply IHb in S];
      destruct S as (L & new & E & F); (split; [lia|]); exists new;
      (split; [exact E|]); eapply Forall_impl; try eassumption;
      intros e He; apply in_or_app; auto.
  - intros (st1 & S & ->). apply IHa in S as (L & new & E & F). simpl.
    split; [lia|]. exists ((n, (Re.pos st, Re.pos st1)) :: new). rewrite E.
    split; [reflexivity|]. constructor; [left; reflexivity|].
    eapply Forall_impl; try eassumption. intros e He. right. exact He.
  - intros S. induction S as [st|st mid st' R Lt S IH].
    + split; [lia|]. exists []. auto.
    + apply IHa in R as (L & na & Ea & Fa). destruct IH as (L' & nb & Eb & Fb).
      split; [lia|]. exists (nb ++ na). rewrite Eb, Ea, app_assoc.
      split; [reflexivity|]. apply Forall_app. auto.
  - intros (st1 & S & ->). apply IHa in S as (L & new & E & F). simpl.
    split; [lia|]. eauto.
Qed.

Lemma group_span_app n new gs :
  Forall (fun e : nat * (nat * nat) => fst e <> n) new ->
  Re.group_span n (new ++ gs) = Re.group_span n gs.
Proof.
  induction new as [|[k sp] new IH]; simpl; intros H; [reflexivity|].
  inversion H as [|? ? Hk Hn]; subst. simpl in Hk.
  destruct (Nat.eqb_spec k n); [contradiction | apply IH, Hn].
Qed.

Variable keep : ascii -> bool.

Lemma image_refs r :
  forall tr n, image fl keep r = Some tr -> In (Re.TRef n) tr -> In n (gnums r).
Proof.
  induction r as [|cs| | |a IHa b IHb|a IHa b IHb|k a IHa|greedy a IHa|a IHa];
    intros tr n; cbn [image gnums]; try discriminate.
  - intros [= <-] [].
  - destruct (drops fl keep cs); [intros [= <-] []|].
    destruct cs; try discriminate.
    destruct (negb (Re.ignorecase fl) && keep c); [|discriminate].
    intros [= <-] [H|[]]. discriminate H.
  - intros [= <-] [].
  - intros [= <-] [].
  - destruct (image fl keep a) as [ta|]; [|discriminate].
    destruct (image fl keep b) as [tb|]; [|discriminate].
    destruct (forallb _ _); [|discriminate].
    intros [= <-] H. apply in_app_iff in H as [H|H]; apply in_or_app; eauto.
  - destruct (existsb _ _); [discriminate|].
    intros [= <-] [[= ->]|[]]. left. reflexivity.
  - destruct (image fl keep a) as [[|]|]; try discriminate. intros [= <-] [].
Qed.

Lemma expand_same_groups tr st st' :
  (forall n, In (Re.TRef n) tr ->
             Re.group_span n (Re.groups st) = Re.group_span n (Re.groups st')) ->
  Re.expand text tr st = Re.expand text tr st'.
Proof.
  unfold Re.expand. induction tr as [|[c|n] tr IH]; simpl; intros H;
    [reflexivity| |].
  - rewrite IH; [reflexivity|]. intros n Hn. apply H. auto.
  - rewrite (H n (or_introl eq_refl)), IH; [reflexivity|].
    intros k Hk. apply H. auto.
Qed.

(** What a match of a plain pattern consumes is, up to the characters
    that fail [keep], the expansion of its image. *)
Lemma spans_image r :
  forall tr st st',
    image fl keep r = Some tr ->
    spans fl text r st st' ->
    filter keep (Re.slice text (Re.pos st) (Re.pos st'))
    = filter keep (Re.expand text tr st').
Proof.
  induction r as [|cs| | |a IHa b IHb|a IHa b IHb|n a IHa|greedy a IHa|a IHa];
    intros tr st st'; cbn [image spans]; try discriminate.
  - intros [= <-] ->. rewrite slice_empty. reflexivity.
  - intros Hi (c & E & M & ->). simpl Re.pos. rewrite (slice_one _ E).
    destruct (drops fl keep cs) eqn:D.
    + injection Hi as <-. simpl. rewrite (drops_sound _ _ _ _ D M). reflexivity.
    + destruct cs as [x| | | | |]; try discriminate.
      destruct (Re.ignorecase fl) eqn:I; [discriminate|]. simpl in Hi.
      destruct (keep x) eqn:K; [|discriminate]. injection Hi as <-.
      simpl in M. rewrite I in M. apply Ascii.eqb_eq in M. subst c.
      reflexivity.
  - intros [= <-] (_ & ->). rewrite slice_empty. reflexivity.
  - intros [= <-] (_ & ->). rewrite slice_empty. reflexivity.
  - destruct (image fl keep a) as [ta|] eqn:Ia; [|discriminate].
    destruct (image fl keep b) as [tb|] eqn:Ib; [|discriminate].
    destruct (forallb _ _) eqn:D; [|discriminate].
    intros [= <-] (mid & Sa & Sb).
    pose proof (spans_mono _ _ _ Sa) as (La & _).
    pose proof (spans_mono _ _ _ Sb) as (Lb & nb & Eb & Fb).
    rewrite (slice_app La Lb), filter_app.
    rewrite (IHa _ _ _ eq_refl Sa), (IHb _ _ _ eq_refl Sb).
    unfold Re.expand at 3. rewrite flat_map_app, filter_app. f_equal. f_equal.
    apply expand_same_groups. intros n Hn. rewrite Eb. symmetry.
    apply group_span_app.
    rewrite forallb_forall in D.
    specialize (D n (image_refs _ _ Ia Hn)). apply negb_true_iff in D.
    eapply Forall_impl; [|exact Fb]. intros e He Ee. cbv beta in He. rewrite Ee in He.
    assert (X : existsb (Nat.eqb n) (gnums b) = true).
    { apply existsb_exists. exists n. split; [exact He | apply Nat.eqb_refl]. }
    congruence.
  - destruct (existsb _ _); [discriminate|].
    intros [= <-] (st1 & S & ->). simpl. rewrite Nat.eqb_refl, app_nil_r.
    reflexivity.
  - destruct (image fl keep a) as [[|]|] eqn:Ia; try discriminate.
    intros [= <-] S. simpl.
    induction S as [st|st mid st' R Lt S IH]; [rewrite slice_empty; reflexivity|].
    assert (L : Re.pos mid <= Re.pos st').
    { clear - S IHa. induction S as [|? ? ? R' ? ? IH']; [lia|].
      apply spans_mono in R' as (? & _). lia. }
    rewrite (@slice_app (Re.pos st) (Re.pos mid)) by lia.
    rewrite filter_app, IH, (IHa _ _ _ eq_refl R). reflexivity.
Qed.

End Consumed.

Lemma filter_kept_items text keep tpl st :
  filter keep (Re.expand text (kept_items keep tpl) st)
  = filter keep (Re.expand text tpl st).
Proof.
  unfold Re.expand, kept_items.
  induction tpl as [|[c|n] tpl IH]; simpl; [reflexivity| |].
  - destruct (keep c) eqn:K; simpl; rewrite ?K, IH; reflexivity.
  - rewrite !filter_app, IH. reflexivity.
Qed.

(** Along a scan, replacing each match by a template that agrees with
    the pattern's image changes no character that passes [keep]. *)
Lemma scan_keeps fl text keep r tr tpl ms :
  image fl keep r = Some tr ->
  kept_items keep tpl = tr ->
  forall i adv,
    scan fl text r i adv ms ->
    filter keep (Re.splice text tpl i ms) = filter keep (skipn i text).
Proof.
  intros Hi Ht i adv H.
  induction H as [i adv N|i adv b st ms Hb N M Hst Hs IH]; simpl; [reflexivity|].
  rewrite !filter_app, IH.
  rewrite (@skipn_slice text i b) by lia.
  rewrite (@skipn_slice text b (Re.pos st)) by lia.
  rewrite !filter_app. f_equal. f_equal.
  unfold Re.match_at in M. apply m_sound in M as (st' & S & K).
  destruct (adv && (b =? i) && (Re.pos st' =? b)); [discriminate|].
  injection K as ->.
  rewrite <- filter_kept_items, Ht.
  symmetry. exact (@spans_image fl text keep r tr {| Re.pos := b; Re.groups := [] |} st Hi S).
Qed.

Lemma sub_keeps fl keep pattern replacement :
  rule_keeps fl keep (pattern, replacement) = true ->
  forall text,
  exists out,
    Re.sub pattern replacement text fl = Some out
    /\ keep_chars keep out = keep_chars keep text.
Proof.
  unfold rule_keeps, Re.sub. simpl fst; simpl snd.
  destruct (Re.compile pattern) as [[r n]|]; [|discriminate].
  destruct (Re.parse_template _) as [tpl|]; [|discriminate].
  intros H text. apply andb_true_iff in H as [H1 H2]. rewrite H1.
  destruct (image fl keep r) as [tr|] eqn:Hi; [|discriminate].
  apply titems_eqb_eq in H2.
  eexists. split; [reflexivity|].
  rewrite !keep_chars_list, list_ascii_of_string_of_list_ascii. f_equal.
  unfold Re.sub_list.
  rewrite (@scan_keeps fl (list_ascii_of_string text) keep r tr tpl _ Hi H2 0 false
             (finditer_scan fl (list_ascii_of_string text) r)).
  reflexivity.
Qed.

Lemma apply_rules_keeps fl keep rules :
  forallb (rule_keeps fl keep) rules = true ->
  forall text,
  exists out,
    apply_rules rules fl text = Some out
    /\ keep_chars keep out = keep_chars keep text.
Proof.
  induction rules as [|[p r] rules IH]; simpl; intros H text; [eauto|].
  apply andb_true_iff in H as [H1 H2].
  destruct (@sub_keeps fl keep p r H1 text) as (t1 & -> & E1).
  destruct (IH H2 t1) as (out & E & E2).
  exists out. split; [exact E | congruence].
Qed.

(** X19. The VB-to-VB.NET translation changes white space only: leaving
    out the white space, the output and the input are the same text. *)
Theorem transpile_vb_to_vbnet_changes_space_only :
  forall code : string,
  exists out,
    transpile_vb_to_vbnet code = Some out
    /\ keep_chars not_space out = keep_chars not_space code.
Proof.
  intros code. apply apply_rules_keeps. vm_compute. reflexivity.
Qed.

Lemma sub_noop fl pattern replacement :
  rule_keeps fl any_char (pattern, replacement) = true ->
  forall text, Re.sub pattern replacement text fl = Some text.
Proof.
  intros H text. destruct (@sub_keeps fl any_char pattern replacement H text) as (out & -> & E).
  rewrite !keep_chars_any in E. congruence.
Qed.

(** X20. The last four VB-to-VB.NET rules ("End Sub", "End Function",
    "Public Sub", "Private Sub") replace each match by itself: they
    change no text, and the translation is that of the first three
    rules. *)
Theorem transpile_vb_to_vbnet_noop_rules :
  (forall pattern replacement text,
      In (pattern, replacement) (skipn 3 vb_to_vbnet_replacements) ->
      Re.sub pattern replacement text Re.NOFLAGS = Some text)
  /\ forall code : string,
      transpile_vb_to_vbnet code
      = apply_rules (firstn 3 vb_to_vbnet_replacements) Re.NOFLAGS code.
Proof.
  assert (A : forall pattern replacement text,
      In (pattern, replacement) (skipn 3 vb_to_vbnet_replacements) ->
      Re.sub pattern replacement text Re.NOFLAGS = Some text).
  { intros p r text Hin. apply sub_noop.
    assert (F : forallb (rule_keeps Re.NOFLAGS any_char)
                  (skipn 3 vb_to_vbnet_replacements) = true)
      by (vm_compute; reflexivity).
    rewrite forallb_forall in F. apply F, Hin. }
  split; [exact A|]. intros code. unfold transpile_vb_to_vbnet.
  assert (S : vb_to_vbnet_replacements
              = firstn 3 vb_to_vbnet_replacements
                ++ skipn 3 vb_to_vbnet_replacements) by reflexivity.
  rewrite S at 1. rewrite apply_rules_app.
  destruct (apply_rules (firstn 3 vb_to_vbnet_replacements) Re.NOFLAGS code)
    as [t|]; [|reflexivity].
  generalize (skipn 3 vb_to_vbnet_replacements) A. intros rules.
  induction rules as [|[p r] rules IH]; intros B; simpl; [reflexivity|].
  rewrite (B p r t) by (left; reflexivity).
  apply IH. intros p' r' text' Hin. apply B. right. exact Hin.
Qed.

Lemma transpile_vb_to_vbnet_noop_rules_witness :
  Re.sub "\bEnd Sub\b" "End Sub" (Str.join_lines ["Sub Main()"; "End Sub"])
         Re.NOFLAGS
  = Some (Str.join_lines ["Sub Main()"; "End Sub"]).
Proof.
  apply (proj1 transpile_vb_to_vbnet_noop_rules).
  simpl. left. reflexivity.
Defined.

(** X21. In the C#-to-VB.NET direction neither the "(Public|Private)
    Class" substitution nor the line pass changes anything: the
    translation is the rule table followed by the one substitution that
    inserts "End Class". *)
Theorem transpile_csharp_to_vbnet_steps :
  forall code : string,
    (forall text,
        Re.sub "(Public|Private) Class" "\1 Class" text Re.NOFLAGS = Some text)
    /\ transpile_csharp_to_vbnet code
       = match apply_rules csharp_to_vbnet_conversions Re.MULTILINE code with
         | Some result =>
             Re.sub "(Public|Private) Class ([\w\s]+?)(?=\n(?:Public|Private|End|$))"
                    "\1 Class \2\nEnd Class" result Re.MULTILINE_DOTALL
         | None => None
         end.
Proof.
  intros code.
  assert (A : forall text,
    Re.sub "(Public|Private) Class" "\1 Class" text Re.NOFLAGS = Some text).
  { apply sub_noop. vm_compute. reflexivity. }
  split; [exact A|]. unfold transpile_csharp_to_vbnet.
  destruct (apply_rules csharp_to_vbnet_conversions Re.MULTILINE code) as [t|];
    [|reflexivity].
  rewrite A. cbv zeta. rewrite line_pass_keeps_lines.
  unfold Str.split_lines. rewrite join_split_lines_aux. reflexivity.
Qed.

(* ================================================================== *)
(** * The parser adapter *)
(* ================================================================== *)

Lemma lower_keeps_char c s :
  lower_char c = c -> has_char c s = true -> has_char c (Str.lower s) = true.
Proof.
  intros Hc. induction s as [|x s IH]; simpl; [discriminate|].
  intros H. apply orb_true_iff in H as [H|H].
  - apply Ascii.eqb_eq in H. subst x. rewrite Hc, Ascii.eqb_refl. reflexivity.
  - rewrite (IH H). apply orb_true_r.
Qed.

Section Adapter.

Variable parser_c_sharp : option (string -> option ts_node).
Variable uuid4 : nat -> string.

(** X22. The parser adapter yields a tree exactly when the case-folded
    tag is one of "c#", "csharp", "c_sharp", the grammar is loaded and
    the parser does not fail; the tree is then the pruned parse of the
    text.  Spaces and periods are not stripped here as they are by the
    rule engine: a tag holding one never gets a tree. *)
Theorem parse_code_to_ast_outcomes :
  forall code language : string,
    ((exists tree,
         parse_code_to_ast parser_c_sharp uuid4 code language = Some tree)
     <-> In (Str.lower language) ["c#"; "csharp"; "c_sharp"]
         /\ exists parse root,
             parser_c_sharp = Some parse /\ parse code = Some root)
    /\ (forall tree,
           parse_code_to_ast parser_c_sharp uuid4 code language = Some tree ->
           exists parse root,
             parser_c_sharp = Some parse /\ parse code = Some root
             /\ ts_of_dict tree = prune MAX_DEPTH root)
    /\ (has_char " " language = true \/ has_char "." language = true ->
        parse_code_to_ast parser_c_sharp uuid4 code language = None).
Proof.
  intros code language. unfold parse_code_to_ast.
  destruct (Str.mem (Str.lower language) C_SHARP_TAGS) eqn:M.
  - pose proof M as Hin. apply mem_true_iff in Hin.
    split; [|split].
    + split.
      * intros [tree H]. split; [exact Hin|].
        destruct parser_c_sharp as [parse|]; [|discriminate].
        destruct (parse code) as [root|] eqn:P; [|discriminate]. eauto.
      * intros (_ & parse & root & -> & ->). eauto.
    + intros tree H.
      destruct parser_c_sharp as [parse|]; [|discriminate].
      destruct (parse code) as [root|] eqn:P; [|discriminate].
      injection H as <-. exists parse, root. split; [reflexivity|].
      split; [exact P|].
      rewrite (tree_to_dict_prune uuid4 (max_depth := MAX_DEPTH) root
                 (current_depth := 0)) by lia.
      reflexivity.
    + intros H. exfalso.
      assert (H' : has_char " " (Str.lower language) = true
                   \/ has_char "." (Str.lower language) = true).
      { destruct H as [H|H]; [left | right]; apply lower_keeps_char; auto. }
      simpl in Hin. destruct Hin as [E|[E|[E|[]]]]; rewrite <- E in H';
        destruct H' as [H'|H']; discriminate H'.
  - split; [|split].
    + split.
      * intros [tree H]. discriminate H.
      * intros (Hin & _). apply mem_true_iff in Hin. unfold C_SHARP_TAGS in M.
        congruence.
    + intros tree H. discriminate H.
    + reflexivity.
Qed.

End Adapter.

(* ================================================================== *)
(** * An answer that is no text *)
(* ================================================================== *)

Section AnswerShape.

Variable parser_c_sharp : option (string -> option ts_node).
Variable uuid4 : nat -> string.
Variable http_post : mcp_call -> http_outcome.
Variable str_exn : exn -> string.

(** X23. When the agent answers with status 200 and a JSON object whose
    "result" is neither a string nor null, the response cannot be built
    (its text is declared an optional string): the request ends with the
    error response, success=false and method "error", and the rule engine
    is not consulted.  A null "result" gives the agent's response without
    a text. *)
Theorem transpile_code_agent_answer_not_text :
  forall (request : TranspileRequest) (call : mcp_call)
         (data : list (string * json)) (v : json),
    In call (snd (transpile_code parser_c_sharp uuid4 http_post str_exn request)) ->
    http_post call = Response 200 (inr (JObject data)) ->
    dict_get "result" data = Some v ->
    (forall s, v <> JString s) ->
    fst (transpile_code parser_c_sharp uuid4 http_post str_exn request)
    = match v with
      | JNull =>
          {| success := true; transpiled_code := None;
             warnings := ["Transpiled using MCP agent"]; errors := [];
             method := "mcp-ai" |}
      | _ =>
          {| success := false; transpiled_code := None; warnings := [];
             errors := [str_exn (ValidationError v)]; method := "error" |}
      end.
Proof.
  intros request call data v Hin Hpost Hv Hs.
  destruct (transpile_code_cases parser_c_sharp uuid4 http_post str_exn request)
    as [(E & _)|(tree & U & T & P & H)].
  - rewrite E in Hin. destruct Hin.
  - cbv zeta in H. destruct H as [E ->]. rewrite E in Hin.
    destruct Hin as [<-|[]].
    unfold call_mcp_server in *. simpl in *. rewrite Hpost. simpl.
    rewrite Hv. simpl.
    destruct v; try reflexivity. exfalso. eapply Hs. reflexivity.
Qed.

End AnswerShape.

Lemma transpile_code_agent_answer_not_text_witness :
  fst (transpile_code sample_parser sample_uuid4
         (fun _ => Response 200 (inr (JObject [("result", JNumber "42")])))
         sample_str_exn
         {| code := "class C { }"; source_lang := "csharp";
            target_lang := "vbnet"; use_mcp := true;
            mcp_config := sample_config |})
  = {| success := false; transpiled_code := None; warnings := [];
       errors := [sample_str_exn (ValidationError (JNumber "42"))];
       method := "error" |}.
Proof.
  apply (@transpile_code_agent_answer_not_text sample_parser sample_uuid4
           (fun _ => Response 200 (inr (JObject [("result", JNumber "42")])))
           sample_str_exn _
           {| call_url := Some (JString "https://test-mcp-server.com/api");
              call_headers := [("Content-Type", "application/json");
                               ("Authorization", "Bearer test-key")];
              call_ast := Dict (Some "3f2b8c1e") (Some "compilation_unit")
                               (Some 0) (Some 0) (Some "class C { }") (Some []);
              call_source_code := "class C { }";
              call_source_language := "csharp";
              call_target_language := "vbnet";
              call_task := mcp_task "csharp" "vbnet" |}
           [("result", JNumber "42")] (JNumber "42")).
  - vm_compute. left. reflexivity.
  - reflexivity.
  - reflexivity.
  - intros s H. discriminate H.
Defined.
